(** * The task container of todo_app.py: a doubly linked list with merge sort

    A shallow embedding of [TaskNode], [TaskList] and the parts of [App]
    that touch the container ([load_data], the sweep of [refresh_ui]),
    followed by the code around them: saving, the sort on request, the
    cards and columns of the board, one pass of the notification service,
    the form for new tasks, the start of the application and the focus
    timer.  Widgets are left out; what a widget shows is kept where the code
    computes it.

    Python objects live in a heap: a node reference is an index into an
    arena of [TaskNode] records, so that two references are the same object
    exactly when they are the same index.  Loops carry a fuel argument and
    give [OutOfFuel] when it runs out; every theorem about a result names a
    fuel that is enough. *)

From Stdlib Require Import ZArith String Ascii List Lia.
From stdpp Require Import base option list gmap strings sorting.

Open Scope Z_scope.

(** ** Python values stored in task fields and persisted records *)

(** The fields are untyped in the source; what they hold here is None, an
    integer or a string.  Strings are byte strings, compared byte by byte,
    which is the order of Python on their UTF-8 encoding. *)
Inductive pyval :=
| PNone
| PInt (z : Z)
| PStr (s : string).

#[global] Instance pyval_eq_dec : EqDecision pyval.
Proof. solve_decision. Defined.

(** Truthiness, as [if v] tests it. *)
Definition truthy (v : pyval) : bool :=
  match v with
  | PNone => false
  | PInt z => negb (z =? 0)
  | PStr s => negb (String.eqb s "")
  end.

(** The exceptions that the embedded code can raise. *)
Inductive exn :=
| AttributeError            (* attribute access on None *)
| KeyError (k : string)     (* missing dictionary key *)
| TypeError                 (* comparison of values of different types *)
| InvalidRef.               (* a reference outside the arena: no Python counterpart *)

(** What a call comes to: a result, an exception, or a loop that was still
    running when the fuel ran out. *)
Inductive outcome (A : Type) :=
| Ok (a : A)
| Raise (e : exn)
| OutOfFuel.
Arguments Ok {A} a.
Arguments Raise {A} e.
Arguments OutOfFuel {A}.

(** [a <= b] on Python values: integers by value, strings lexically,
    anything else raises. *)
Definition py_le (a b : pyval) : outcome bool :=
  match a, b with
  | PInt x, PInt y => Ok (x <=? y)
  | PStr x, PStr y => Ok (String.leb x y)
  | _, _ => Raise TypeError
  end.

(** [a >= b]. *)
Definition py_ge (a b : pyval) : outcome bool := py_le b a.

(** ** TaskNode *)

(** A reference to a node: its index in the heap. *)
Abbreviation ref := nat (only parsing).

(** The attributes that [__init__] sets. *)
Record TaskNode := mkTaskNode {
  description : pyval;
  status : pyval;
  priority : pyval;
  due_date : pyval;
  tags : list string;
  xp_value : pyval;
  next : option ref;
  prev : option ref
}.

(** The node after [n.next = v] and after [n.prev = v]. *)
Definition with_next (n : TaskNode) (v : option ref) : TaskNode :=
  mkTaskNode (description n) (status n) (priority n) (due_date n) (tags n)
             (xp_value n) v (prev n).

Definition with_prev (n : TaskNode) (v : option ref) : TaskNode :=
  mkTaskNode (description n) (status n) (priority n) (due_date n) (tags n)
             (xp_value n) (next n) v.

(** [d.get(k, dflt)] for a dictionary with string keys: a key that is not
    a string is never found. *)
Definition dict_get {V} (d : gmap string V) (k : pyval) (dflt : V) : V :=
  match k with
  | PStr s => default dflt (d !! s)
  | _ => dflt
  end.

(** The XP of a task that is created without one. *)
Definition xp_table : gmap string Z :=
  {[ "high"%string := 100; "medium"%string := 50; "low"%string := 20 ]}.

(** [TaskNode.__init__]; the keyword defaults are supplied by the callers. *)
Definition TaskNode_init (description priority due_date status xp_value : pyval)
  : TaskNode :=
  {| description := description;
     status := status;
     priority := priority;
     due_date := due_date;
     tags := [];
     xp_value := match xp_value with
                 | PNone => PInt (dict_get xp_table priority 20)
                 | v => v
                 end;
     next := None;
     prev := None |}.

(** ** Serialization *)

(** A persisted record. *)
Abbreviation dict := (gmap string pyval).

Definition to_dict (self : TaskNode) : dict :=
  {[ "description"%string := description self;
     "status"%string := status self;
     "priority"%string := priority self;
     "due_date"%string := due_date self;
     "xp_value"%string := xp_value self ]}.

(** [data[k]]. *)
Definition getitem (data : dict) (k : string) : outcome pyval :=
  match data !! k with
  | Some v => Ok v
  | None => Raise (KeyError k)
  end.

(** Sequencing of calls that may raise. *)
Definition obind {A B} (m : outcome A) (k : A → outcome B) : outcome B :=
  match m with
  | Ok a => k a
  | Raise e => Raise e
  | OutOfFuel => OutOfFuel
  end.

(** The keyword arguments are evaluated in the order they are written. *)
Definition from_dict (data : dict) : outcome TaskNode :=
  obind (getitem data "description") (λ d,
  obind (getitem data "priority") (λ p,
  obind (getitem data "due_date") (λ dd,
  obind (getitem data "status") (λ s,
  obind (getitem data "xp_value") (λ xp,
  Ok (TaskNode_init d p dd s xp)))))).

(** ** The heap and its monad *)

Abbreviation heap := (list TaskNode).

(** A computation reads and writes the heap and may fail. *)
Definition M (A : Type) : Type := heap → outcome (A * heap).

Definition ret {A} (a : A) : M A := λ h, Ok (a, h).

Definition bind {A B} (m : M A) (k : A → M B) : M B :=
  λ h, match m h with
       | Ok (a, h') => k a h'
       | Raise e => Raise e
       | OutOfFuel => OutOfFuel
       end.

Definition raise {A} (e : exn) : M A := λ _, Raise e.
Definition out_of_fuel {A} : M A := λ _, OutOfFuel.

Definition lift {A} (o : outcome A) : M A :=
  λ h, match o with
       | Ok a => Ok (a, h)
       | Raise e => Raise e
       | OutOfFuel => OutOfFuel
       end.

Notation "x <- m ;; k" := (bind m (λ x, k))
  (at level 100, m at next level, right associativity).
Notation "m ;;; k" := (bind m (λ _, k))
  (at level 100, right associativity).

(** A new object gets the next free index. *)
Definition alloc (n : TaskNode) : M ref := λ h, Ok (length h, h ++ [n]).

Definition load (a : ref) : M TaskNode :=
  λ h, match h !! a with
       | Some n => Ok (n, h)
       | None => Raise InvalidRef
       end.

Definition store (a : ref) (n : TaskNode) : M unit :=
  λ h, match h !! a with
       | Some _ => Ok (tt, <[a := n]> h)
       | None => Raise InvalidRef
       end.

(** [p.next], [p.prev], [p.next = v], [p.prev = v] for a variable [p] that
    may hold None. *)
Definition get_next (p : option ref) : M (option ref) :=
  match p with
  | None => raise AttributeError
  | Some a => n <- load a ;; ret (next n)
  end.

Definition get_prev (p : option ref) : M (option ref) :=
  match p with
  | None => raise AttributeError
  | Some a => n <- load a ;; ret (prev n)
  end.

Definition set_next (p : option ref) (v : option ref) : M unit :=
  match p with
  | None => raise AttributeError
  | Some a => n <- load a ;; store a (with_next n v)
  end.

Definition set_prev (p : option ref) (v : option ref) : M unit :=
  match p with
  | None => raise AttributeError
  | Some a => n <- load a ;; store a (with_prev n v)
  end.

(** ** TaskList *)

Record TaskList := mkTaskList {
  head : option ref;
  count : Z
}.

Definition TaskList_init : TaskList := {| head := None; count := 0 |}.

(** [while current.next: current = current.next] *)
Fixpoint add_task_node_loop (fuel : nat) (current : option ref) : M (option ref) :=
  match fuel with
  | O => out_of_fuel
  | S fuel' =>
      nx <- get_next current ;;
      match nx with
      | Some _ => add_task_node_loop fuel' nx
      | None => ret current
      end
  end.

Definition add_task_node (fuel : nat) (self : TaskList) (new_task : ref) : M TaskList :=
  self1 <- match head self with
           | None => ret {| head := Some new_task; count := count self |}
           | Some _ =>
               current <- add_task_node_loop fuel (head self) ;;
               set_next current (Some new_task) ;;;
               set_prev (Some new_task) current ;;;
               ret self
           end ;;
  ret {| head := head self1; count := count self1 + 1 |}.

Definition add_task (fuel : nat) (self : TaskList)
    (description priority due_date : pyval) : M (TaskList * ref) :=
  new_task <- alloc (TaskNode_init description priority due_date (PStr "todo") PNone) ;;
  self' <- add_task_node fuel self new_task ;;
  ret (self', new_task).

Definition delete_task_node (self : TaskList) (node : option ref) : M TaskList :=
  match node with
  | None => ret self
  | Some _ =>
      self1 <- (if decide (node = head self) then
                  nx <- get_next node ;;
                  match nx with
                  | Some _ => set_prev nx None
                  | None => ret tt
                  end ;;;
                  ret {| head := nx; count := count self |}
                else
                  pv <- get_prev node ;;
                  match pv with
                  | Some _ => nx <- get_next node ;; set_next pv nx
                  | None => ret tt
                  end ;;;
                  nx <- get_next node ;;
                  match nx with
                  | Some _ => pv' <- get_prev node ;; set_prev nx pv'
                  | None => ret tt
                  end ;;;
                  ret self) ;;
      ret {| head := head self1; count := count self1 - 1 |}
  end.

Fixpoint get_tasks_by_status_loop (fuel : nat) (status_ : pyval)
    (tasks : list ref) (current : option ref) : M (list ref) :=
  match fuel with
  | O => out_of_fuel
  | S fuel' =>
      match current with
      | None => ret tasks
      | Some c =>
          n <- load c ;;
          let tasks' := if decide (status n = status_) then tasks ++ [c] else tasks in
          get_tasks_by_status_loop fuel' status_ tasks' (next n)
      end
  end.

Definition get_tasks_by_status (fuel : nat) (self : TaskList) (status_ : pyval)
  : M (list ref) :=
  get_tasks_by_status_loop fuel status_ [] (head self).

Fixpoint get_all_tasks_loop (fuel : nat) (tasks : list ref) (current : option ref)
  : M (list ref) :=
  match fuel with
  | O => out_of_fuel
  | S fuel' =>
      match current with
      | None => ret tasks
      | Some c =>
          n <- load c ;;
          get_all_tasks_loop fuel' (tasks ++ [c]) (next n)
      end
  end.

Definition get_all_tasks (fuel : nat) (self : TaskList) : M (list ref) :=
  get_all_tasks_loop fuel [] (head self).

(** ** Merge sort on the linked structure *)

(** [while fast and fast.next: slow = slow.next; fast = fast.next.next] *)
Fixpoint split_loop (fuel : nat) (slow fast : option ref) : M (option ref) :=
  match fuel with
  | O => out_of_fuel
  | S fuel' =>
      match fast with
      | None => ret slow
      | Some _ =>
          fn <- get_next fast ;;
          match fn with
          | None => ret slow
          | Some _ =>
              slow' <- get_next slow ;;
              fast' <- get_next fn ;;
              split_loop fuel' slow' fast'
          end
      end
  end.

Definition _split (fuel : nat) (head : option ref) : M (option ref * option ref) :=
  fast <- get_next head ;;
  slow <- split_loop fuel head fast ;;
  second_half <- get_next slow ;;
  match second_half with
  | Some _ => set_prev second_half None
  | None => ret tt
  end ;;;
  set_next slow None ;;;
  ret (head, second_half).

Definition priority_table : gmap string Z :=
  {[ "high"%string := 3; "medium"%string := 2; "low"%string := 1 ]}.

(** The helper [get_value] inside [_merge]. *)
Definition get_value (key : string) (node : TaskNode) : pyval :=
  if String.eqb key "priority" then
    PInt (dict_get priority_table (priority node) 0)
  else if String.eqb key "due_date" then
    (if truthy (due_date node) then due_date node else PStr "9999-12-31")
  else PInt 0.

(** The test that puts [left] next: [val_left >= val_right] under the
    priority key, [val_left <= val_right] otherwise. *)
Definition left_first (key : string) (left right : TaskNode) : outcome bool :=
  let val_left := get_value key left in
  let val_right := get_value key right in
  if String.eqb key "priority" then py_ge val_left val_right
  else py_le val_left val_right.

(** The [while left and right] loop; it returns the locals it leaves. *)
Fixpoint merge_loop (fuel : nat) (key : string) (tail left right : option ref)
  : M (option ref * option ref * option ref) :=
  match fuel with
  | O => out_of_fuel
  | S fuel' =>
      match left, right with
      | Some l, Some r =>
          ln <- load l ;;
          rn <- load r ;;
          b <- lift (left_first key ln rn) ;;
          if b : bool then
            set_next tail left ;;;
            set_prev left tail ;;;
            left' <- get_next left ;;
            tail' <- get_next tail ;;
            merge_loop fuel' key tail' left' right
          else
            set_next tail right ;;;
            set_prev right tail ;;;
            right' <- get_next right ;;
            tail' <- get_next tail ;;
            merge_loop fuel' key tail' left right'
      | _, _ => ret (tail, left, right)
      end
  end.

Definition _merge (fuel : nat) (left right : option ref) (key : string)
  : M (option ref) :=
  dummy <- alloc (TaskNode_init (PStr "dummy_merge_head") (PStr "medium")
                                PNone (PStr "todo") PNone) ;;
  st <- merge_loop fuel key (Some dummy) left right ;;
  let '(tail, rest_left, rest_right) := st in
  let remaining := match rest_left with Some _ => rest_left | None => rest_right end in
  match remaining with
  | Some _ => set_next tail remaining ;;; set_prev remaining tail
  | None => ret tt
  end ;;;
  merged_head <- get_next (Some dummy) ;;
  match merged_head with
  | Some _ => set_prev merged_head None
  | None => ret tt
  end ;;;
  ret merged_head.

Fixpoint merge_sort (fuel : nat) (head : option ref) (key : string)
  : M (option ref) :=
  match fuel with
  | O => out_of_fuel
  | S fuel' =>
      match head with
      | None => ret head
      | Some _ =>
          hn <- get_next head ;;
          match hn with
          | None => ret head
          | Some _ =>
              halves <- _split fuel' head ;;
              let '(first_half, second_half) := halves in
              left <- merge_sort fuel' first_half key ;;
              right <- merge_sort fuel' second_half key ;;
              _merge fuel' left right key
          end
      end
  end.

(** The recount at the end of [sort_by]. *)
Fixpoint sort_by_count (fuel : nat) (count : Z) (current : option ref) : M Z :=
  match fuel with
  | O => out_of_fuel
  | S fuel' =>
      match current with
      | None => ret count
      | Some _ =>
          nx <- get_next current ;;
          sort_by_count fuel' (count + 1) nx
      end
  end.

Definition sort_by (fuel : nat) (self : TaskList) (key : string) : M TaskList :=
  hd <- merge_sort fuel (head self) key ;;
  c <- sort_by_count fuel 0 hd ;;
  ret {| head := hd; count := c |}.

(** ** App: the parts that act on the container *)

Record App := mkApp {
  task_list : TaskList;
  total_xp : Z
}.

(** The parsed content of the data file: [data.get('total_xp', 0)] and
    [data.get('tasks', [])] read the two optional entries. *)
Record Data := mkData {
  data_total_xp : option Z;
  data_tasks : option (list dict)
}.

(** The loop of [load_data] under its [try]: a KeyError is caught by the
    [except] clause, which ends the loop and keeps what was loaded so far;
    any other exception is not caught there. *)
Fixpoint load_data_loop (fuel : nat) (self : TaskList) (tasks : list dict)
  : M (TaskList * option exn) :=
  match tasks with
  | [] => ret (self, None)
  | task_data :: rest =>
      match from_dict task_data with
      | Ok node =>
          a <- alloc node ;;
          self' <- add_task_node fuel self a ;;
          load_data_loop fuel self' rest
      | Raise (KeyError k) => ret (self, Some (KeyError k))
      | Raise e => raise e
      | OutOfFuel => out_of_fuel
      end
  end.

(** [load_data] when the data file exists and parses. *)
Definition load_data (fuel : nat) (self : App) (data : Data) : M App :=
  let xp := default 0 (data_total_xp data) in
  r <- load_data_loop fuel (task_list self) (default [] (data_tasks data)) ;;
  ret {| task_list := fst r; total_xp := xp |}.

(** Step 2 of [refresh_ui]: the sweep of the nodes marked "deleted". *)
Fixpoint refresh_ui_loop (fuel : nat) (self : TaskList) (current : option ref)
  : M TaskList :=
  match fuel with
  | O => out_of_fuel
  | S fuel' =>
      match current with
      | None => ret self
      | Some c =>
          next_node <- get_next current ;;
          n <- load c ;;
          self' <- (if decide (status n = PStr "deleted")
                    then delete_task_node self current
                    else ret self) ;;
          refresh_ui_loop fuel' self' next_node
      end
  end.

(** [refresh_ui] without the redrawing of the columns, which reads the
    container through [get_tasks_by_status] and changes nothing. *)
Definition refresh_ui (fuel : nat) (self : App) (xp_gain : Z) : M App :=
  let xp := if 0 <? xp_gain then total_xp self + xp_gain else total_xp self in
  tl <- refresh_ui_loop fuel (task_list self) (head (task_list self)) ;;
  ret {| task_list := tl; total_xp := xp |}.

(** ** App and its collaborators: saving, sorting on request, the cards *)

(** [[t.to_dict() for t in tasks]]. *)
Fixpoint to_dicts (tasks : list ref) : M (list dict) :=
  match tasks with
  | [] => ret []
  | t :: rest =>
      n <- load t ;;
      ds <- to_dicts rest ;;
      ret (to_dict n :: ds)
  end.

(** [save_data], up to the writing of the file: the data handed to
    [json.dump]. *)
Definition save_data (fuel : nat) (self : App) : M Data :=
  tasks <- get_all_tasks fuel (task_list self) ;;
  ds <- to_dicts tasks ;;
  ret {| data_total_xp := Some (total_xp self); data_tasks := Some ds |}.

(** [sub in s] on strings. *)
Fixpoint str_in (sub s : string) : bool :=
  String.prefix sub s ||
  match s with
  | EmptyString => false
  | String _ s' => str_in sub s'
  end.

(** [sort_tasks]: the key is read off the text of the choice; the redrawing
    is the [refresh_ui] with its default gain of 0. *)
Definition sort_tasks (fuel : nat) (self : App) (choice : string) : M App :=
  let key := if str_in "Priority" choice then Some "priority"%string
             else if str_in "Due Date" choice then Some "due_date"%string
             else None in
  match key with
  | None => ret self
  | Some key =>
      tl <- sort_by fuel (task_list self) key ;;
      refresh_ui fuel {| task_list := tl; total_xp := total_xp self |} 0
  end.

(** The level that [update_xp_display] shows: [1 + total_xp // 500]. *)
Definition update_xp_display (self : App) : Z := 1 + total_xp self / 500.

(** [notification.notify(...)].  [plyer] tells whether the import at the top
    of the module succeeded.  With plyer the call shows the notification and
    returns.  Without it [notification] is the function that the module
    defines in its place, which has no attribute [notify]: the call raises
    AttributeError. *)
Definition notify (plyer : bool) : M unit :=
  if plyer then ret tt else raise AttributeError.

(** One pass of [NotificationService._check_loop] over the list, at the
    time [now_str]: the descriptions for which a notification is sent, in
    the order they are sent.  [d in now_str] raises when [d] is not a
    string. *)
Fixpoint _check_loop (fuel : nat) (plyer : bool) (now_str : string)
    (sent : list pyval) (current : option ref) : M (list pyval) :=
  match fuel with
  | O => out_of_fuel
  | S fuel' =>
      match current with
      | None => ret sent
      | Some c =>
          n <- load c ;;
          sent' <- (if truthy (due_date n)
                       && negb (bool_decide (status n = PStr "done"))
                    then
                      match due_date n with
                      | PStr d =>
                          if str_in d now_str
                          then notify plyer ;;; ret (sent ++ [description n])
                          else ret sent
                      | _ => raise TypeError
                      end
                    else ret sent) ;;
          _check_loop fuel' plyer now_str sent' (next n)
      end
  end.

(** [task.status = v]. *)
Definition with_status (n : TaskNode) (v : pyval) : TaskNode :=
  mkTaskNode (description n) v (priority n) (due_date n) (tags n)
             (xp_value n) (next n) (prev n).

Definition set_status (task : ref) (v : pyval) : M unit :=
  n <- load task ;; store task (with_status n v).

(** The callback of a card is [refresh_ui]; its test [xp_gain > 0] raises
    when the gain is not a number. *)
Definition update_callback (fuel : nat) (self : App) (xp_gain : pyval) : M App :=
  match xp_gain with
  | PInt z => refresh_ui fuel self z
  | _ => raise TypeError
  end.

(** [TaskCard.move_next], [move_prev] and [delete_me] on the card of the
    node [task]. *)
Definition move_next (fuel : nat) (self : App) (task : ref) : M App :=
  n <- load task ;;
  xp_gain <- (if decide (status n = PStr "todo") then
                set_status task (PStr "doing") ;;; ret (PInt 0)
              else if decide (status n = PStr "doing") then
                set_status task (PStr "done") ;;;
                n' <- load task ;;
                ret (xp_value n')
              else ret (PInt 0)) ;;
  update_callback fuel self xp_gain.

Definition move_prev (fuel : nat) (self : App) (task : ref) : M App :=
  n <- load task ;;
  (if decide (status n = PStr "doing")
   then set_status task (PStr "todo")
   else ret tt) ;;;
  update_callback fuel self (PInt 0).

Definition delete_me (fuel : nat) (self : App) (task : ref) : M App :=
  set_status task (PStr "deleted") ;;;
  update_callback fuel self (PInt 0).

(** [KanbanColumn.refresh]: the tasks for which a card is drawn, from the
    top of the column down. *)
Definition KanbanColumn_refresh (fuel : nat) (tl : TaskList) (status_filter : pyval)
  : M (list ref) :=
  get_tasks_by_status fuel tl status_filter.

(** Step 3 of [refresh_ui]: the three columns that [App.__init__] makes are
    redrawn, "todo", "doing" and "done". *)
Definition refresh_columns (fuel : nat) (self : App)
  : M (list ref * list ref * list ref) :=
  col_todo <- KanbanColumn_refresh fuel (task_list self) (PStr "todo") ;;
  col_doing <- KanbanColumn_refresh fuel (task_list self) (PStr "doing") ;;
  col_done <- KanbanColumn_refresh fuel (task_list self) (PStr "done") ;;
  ret (col_todo, col_doing, col_done).

(** [add_new_task]: [desc] and [pri] are the texts of the description entry
    and of the priority box, [due_date] is the text of the date entry after
    [strip()]. *)
Definition add_new_task (fuel : nat) (self : App) (desc pri due_date : string)
  : M App :=
  let due_date := if String.eqb due_date "" then PNone else PStr due_date in
  if String.eqb desc "" then ret self
  else
    r <- add_task fuel (task_list self) (PStr desc) (PStr pri) due_date ;;
    refresh_ui fuel {| task_list := fst r; total_xp := total_xp self |} 0.

(** The data part of [App.__init__].  [file] is None when the data file does
    not exist, [Some None] when it exists and [json.load] raises
    JSONDecodeError, which [load_data] catches, and [Some (Some data)] when
    it holds an object with the content [data].  A file that makes
    [load_data] raise anything that it does not catch (bytes that are not
    UTF-8, content that is not an object) is none of these. *)
Definition App_init (fuel : nat) (file : option (option Data)) : M App :=
  let is_first_run := match file with None => true | Some _ => false end in
  let self := {| task_list := TaskList_init; total_xp := 0 |} in
  self <- match file with
          | Some (Some data) => load_data fuel self data
          | _ => ret self
          end ;;
  if bool_decide (count (task_list self) = 0) && is_first_run then
    r1 <- add_task fuel (task_list self) (PStr "Finish Data Structures Project")
                   (PStr "high") (PStr "2025-11-20") ;;
    r2 <- add_task fuel (fst r1) (PStr "Buy Groceries") (PStr "low") PNone ;;
    r3 <- add_task fuel (fst r2) (PStr "Read Documentation") (PStr "medium") PNone ;;
    ret {| task_list := fst r3; total_xp := total_xp self |}
  else ret self.

(** ** The focus timer *)

(** The state of the timer: the two attributes, the minutes and seconds on
    the label, whether the start button is enabled, and whether a call of
    [run_timer] is scheduled with [after]. *)
Record Timer := mkTimer {
  timer_running : bool;
  timer_seconds : Z;
  timer_label : Z * Z;
  btn_start_timer : bool;
  timer_job : bool
}.

(** The timer as [App.__init__] leaves it. *)
Definition Timer_init : Timer :=
  {| timer_running := false; timer_seconds := 0; timer_label := (25, 0);
     btn_start_timer := true; timer_job := false |}.

(** [run_timer].  In its last call the attributes are set before
    [notification.notify] is called; when that call raises, the outcome is
    the exception, and the XP is not reached. *)
Definition run_timer (fuel : nat) (plyer : bool) (self : App) (t : Timer)
  : M (App * Timer) :=
  if 0 <? timer_seconds t then
    ret (self, {| timer_running := timer_running t;
                  timer_seconds := timer_seconds t - 1;
                  timer_label := (timer_seconds t / 60, timer_seconds t mod 60);
                  btn_start_timer := btn_start_timer t;
                  timer_job := true |})
  else
    notify plyer ;;;
    self' <- refresh_ui fuel {| task_list := task_list self;
                                total_xp := total_xp self + 10 |} 0 ;;
    ret (self', {| timer_running := false;
                   timer_seconds := timer_seconds t;
                   timer_label := (0, 0);
                   btn_start_timer := true;
                   timer_job := timer_job t |}).

Definition start_pomodoro (fuel : nat) (plyer : bool) (self : App) (t : Timer)
  : M (App * Timer) :=
  if timer_running t then ret (self, t)
  else
    run_timer fuel plyer self {| timer_running := true;
                                 timer_seconds := 25 * 60;
                                 timer_label := timer_label t;
                                 btn_start_timer := false;
                                 timer_job := timer_job t |}.

(** The event loop runs the scheduled call, if there is one, and the call
    is then no longer scheduled. *)
Definition tick (fuel : nat) (plyer : bool) (self : App) (t : Timer)
  : M (App * Timer) :=
  if timer_job t then
    run_timer fuel plyer self {| timer_running := timer_running t;
                                 timer_seconds := timer_seconds t;
                                 timer_label := timer_label t;
                                 btn_start_timer := btn_start_timer t;
                                 timer_job := false |}
  else ret (self, t).

Fixpoint ticks (fuel : nat) (plyer : bool) (k : nat) (self : App) (t : Timer)
  : M (App * Timer) :=
  match k with
  | O => ret (self, t)
  | S k' => r <- tick fuel plyer self t ;; ticks fuel plyer k' (fst r) (snd r)
  end.

(** * The vocabulary of the specification

    What the theorems speak about: the shape of the heap around a list of
    nodes, the order that the sort computes, the invariant of the
    container, and a few containers to run things on. *)

(** ** Heaps and doubly linked segments *)

(** The task carried by a node: its fields without the links. *)
Definition task_of (n : TaskNode) : TaskNode := with_prev (with_next n None) None.

(** [heap_ext h h']: every object of [h] is still there in [h'], with the
    same task fields; only links may differ. *)
Definition heap_ext (h h' : heap) : Prop :=
  ∀ a n, h !! a = Some n → ∃ n', h' !! a = Some n' ∧ task_of n' = task_of n.

(** [dlseg h p first l q]: following [next] from [first] visits exactly the
    nodes [l] and then reaches [q]; the first node's [prev] is [p] and every
    later node's [prev] is the node before it. *)
Fixpoint dlseg (h : heap) (p first : option ref) (l : list ref) (q : option ref)
  : Prop :=
  match l with
  | [] => first = q
  | a :: l' =>
      first = Some a ∧
      ∃ n, h !! a = Some n ∧ prev n = p ∧ dlseg h (Some a) (next n) l' q
  end.

(** A whole list: it starts with a null [prev] and ends with a null [next]. *)
Definition dll (h : heap) (first : option ref) (l : list ref) : Prop :=
  dlseg h None first l None.

(** The node before whatever follows a segment. *)
Definition last_ptr (p : option ref) (l : list ref) : option ref :=
  match last l with
  | Some a => Some a
  | None => p
  end.

(** [has_status h st a]: the node [a] carries the status [st]. *)
Definition has_status (h : heap) (st : pyval) (a : ref) : bool :=
  match h !! a with
  | Some n => bool_decide (status n = st)
  | None => false
  end.

(** [marks dead h l]: [dead] tells which nodes of [l] are marked "deleted". *)
Definition marks (dead : ref → bool) (h : heap) (l : list ref) : Prop :=
  ∀ a, a ∈ l →
       ∃ n, h !! a = Some n ∧ bool_decide (status n = PStr "deleted") = dead a.

(** ** The order that the sort produces *)

(** The split point: the left half of [n] nodes has [half n] of them. *)
Definition half (n : nat) : nat := ((n + 1) / 2)%nat.

Section sort_list_def.
Context {A : Type} (R : relation A) `{!∀ x y, Decision (R x y)}.

(** The list that the recursion of [merge_sort] computes: halve, sort both
    halves, merge with the left operand first on ties. *)
Fixpoint sort_list (fuel : nat) (l : list A) : list A :=
  match fuel with
  | O => l
  | S fuel' =>
      match l with
      | [] | [_] => l
      | _ => list_merge R (sort_list fuel' (take (half (length l)) l))
                          (sort_list fuel' (drop (half (length l)) l))
      end
  end.

End sort_list_def.

(** ** The merge *)

(** What [_merge] does with the locals that the loop leaves. *)
Definition attach (st : option ref * option ref * option ref) : M unit :=
  let '(tail, rest_left, rest_right) := st in
  let remaining := match rest_left with Some _ => rest_left | None => rest_right end in
  match remaining with
  | Some _ => set_next tail remaining ;;; set_prev remaining tail
  | None => ret tt
  end.

(** [goes_first le a b]: on meeting [a] on the left and [b] on the right,
    the merge takes [a]. *)
Definition goes_first (le : ref → ref → bool) : relation ref := λ a b, le a b = true.

#[global] Instance goes_first_dec le a b : Decision (goes_first le a b).
Proof. unfold goes_first. apply _. Defined.

(** The comparison that the code makes on the nodes of [l] is [le]. *)
Definition keyed (key : string) (le : ref → ref → bool) (h : heap) (l : list ref) : Prop :=
  ∀ a b, a ∈ l → b ∈ l →
    ∃ na nb, h !! a = Some na ∧ h !! b = Some nb ∧
             left_first key na nb = Ok (le a b).

(** ** The two sort keys *)

(** [priorityValue]: the number that [get_value] gives under the priority
    key; [dueDateOrMax]: the string it gives under the due-date key for a
    node whose due date is None or a string. *)
Definition priorityValue (n : TaskNode) : Z := dict_get priority_table (priority n) 0.

Definition dueDateOrMax (n : TaskNode) : string :=
  match due_date n with
  | PStr s => if String.eqb s "" then "9999-12-31" else s
  | _ => "9999-12-31"
  end.

(** The due date of a task is None or a string. *)
Definition dated (n : TaskNode) : Prop :=
  match due_date n with
  | PInt _ => False
  | _ => True
  end.

(** The sort values of the node at a reference. *)
Definition prio (h : heap) (a : ref) : Z := from_option priorityValue 0 (h !! a).

Definition due (h : heap) (a : ref) : string := from_option dueDateOrMax "" (h !! a).

(** The order of the sort: by decreasing priority value under the priority
    key, by increasing date under the due-date key; under any other key
    every node has the value 0. *)
Definition key_le (key : string) (h : heap) (a b : ref) : bool :=
  if String.eqb key "priority" then prio h b <=? prio h a
  else if String.eqb key "due_date" then String.leb (due h a) (due h b)
  else true.

(** The value that [get_value] gives for the node at a reference. *)
Definition sort_value (key : string) (h : heap) (a : ref) : pyval :=
  from_option (get_value key) PNone (h !! a).

(** [recognized n]: the priority of [n] is one of the three known ones. *)
Definition recognized (n : TaskNode) : bool :=
  bool_decide (priority n ∈ [PStr "high"; PStr "medium"; PStr "low"]).

(** The node at [a] has a priority that is not one of the three. *)
Definition unrecognized_at (h : heap) (a : ref) : bool :=
  match h !! a with
  | Some n => negb (recognized n)
  | None => false
  end.

(** Every undated task of [l] comes after all the dated ones. *)
Definition undated_last (h : heap) (l : list ref) : Prop :=
  ∀ i j a b na nb,
    l !! i = Some a → l !! j = Some b →
    h !! a = Some na → h !! b = Some nb →
    due_date na = PNone → (∃ s, due_date nb = PStr s) →
    (j < i)%nat.

(** ** The structural invariant of the container *)

(** [reach h first l]: forward traversal from [first] visits exactly the
    nodes [l], in that order, and then stops at a null link. *)
Fixpoint reach (h : heap) (first : option ref) (l : list ref) : Prop :=
  match l with
  | [] => first = None
  | a :: l' => first = Some a ∧ ∃ n, h !! a = Some n ∧ reach h (next n) l'
  end.

(** [Valid h self l]: the container [self] holds the nodes [l], head first,
    and satisfies the four invariants. *)
Record Valid (h : heap) (self : TaskList) (l : list ref) : Prop := {
  valid_reach : reach h (head self) l;
  valid_NoDup : NoDup l;
  valid_next_prev :
    ∀ a n b, a ∈ l → h !! a = Some n → next n = Some b →
             ∃ nb, h !! b = Some nb ∧ prev nb = Some a;
  valid_prev_next :
    ∀ a n b, a ∈ l → h !! a = Some n → prev n = Some b →
             ∃ nb, h !! b = Some nb ∧ next nb = Some a;
  valid_head_prev :
    ∀ a n, head self = Some a → h !! a = Some n → prev n = None;
  valid_tail_next :
    ∀ a n, last l = Some a → h !! a = Some n → next n = None;
  valid_count : count self = Z.of_nat (length l)
}.

(** ** The public operations and the persisted records *)

(** The public operations of the container. *)
Inductive op :=
| OpAddTask (description priority due_date : pyval)  (* append of a fresh node *)
| OpLoadRecord (data : dict)                         (* append of a node rebuilt from a record *)
| OpDelete (node : ref)
| OpFilter (status_ : pyval)
| OpSweep
| OpSortBy (key : string).

(** Each operation as the call it stands for. *)
Definition run_op (fuel : nat) (o : op) (self : TaskList) : M TaskList :=
  match o with
  | OpAddTask d p dd => r <- add_task fuel self d p dd ;; ret (fst r)
  | OpLoadRecord data =>
      node <- lift (from_dict data) ;;
      a <- alloc node ;;
      add_task_node fuel self a
  | OpDelete a => delete_task_node self (Some a)
  | OpFilter st => get_tasks_by_status fuel self st ;;; ret self
  | OpSweep => refresh_ui_loop fuel self (head self)
  | OpSortBy key => sort_by fuel self key
  end.

(** What each operation asks of its argument: a removed node is in the
    container, a record is well formed, and the due dates are None or
    strings when they are the sort key. *)
Definition op_ok (h : heap) (l : list ref) (o : op) : Prop :=
  match o with
  | OpLoadRecord data => ∃ n, from_dict data = Ok n
  | OpDelete a => a ∈ l
  | OpSortBy key =>
      key = "due_date"%string → ∀ a n, a ∈ l → h !! a = Some n → dated n
  | _ => True
  end.

(** The fields that [from_dict] reads. *)
Definition required_fields : list string :=
  ["description"; "status"; "priority"; "due_date"; "xp_value"]%string.

(** ** The buttons of a card *)

(** The two buttons that move a card, and a sequence of presses on the card
    of one task. *)
Inductive press := PressNext | PressPrev.

Definition run_press (fuel : nat) (p : press) (self : App) (task : ref) : M App :=
  match p with
  | PressNext => move_next fuel self task
  | PressPrev => move_prev fuel self task
  end.

Fixpoint run_presses (fuel : nat) (ps : list press) (self : App) (task : ref)
  : M App :=
  match ps with
  | [] => ret self
  | p :: ps' =>
      self' <- run_press fuel p self task ;;
      run_presses fuel ps' self' task
  end.

(** No task of the list is marked "deleted": the state that every
    [refresh_ui] leaves. *)
Definition swept (h : heap) (l : list ref) : Prop :=
  ∀ b, b ∈ l → has_status h (PStr "deleted") b = false.

(** ** The notifications of one pass *)

(** [is_due now_str n]: the task has a due date that is a non-empty string
    and occurs in [now_str], and it is not "done". *)
Definition is_due (now_str : string) (n : TaskNode) : bool :=
  match due_date n with
  | PStr d =>
      negb (String.eqb d "") && negb (bool_decide (status n = PStr "done"))
      && str_in d now_str
  | _ => false
  end.

(** The due tasks among [l], and their descriptions in the order of [l]. *)
Definition due_at (h : heap) (now_str : string) (a : ref) : bool :=
  from_option (is_due now_str) false (h !! a).

Definition notified (h : heap) (now_str : string) (l : list ref) : list pyval :=
  omap (λ a, description <$> h !! a) (filter (λ a, due_at h now_str a = true) l).

(** ** The records that can be loaded *)

(** The records up to the first one that lacks a field. *)
Fixpoint complete_prefix (tasks : list dict) : list dict :=
  match tasks with
  | [] => []
  | d :: rest =>
      match from_dict d with
      | Ok _ => d :: complete_prefix rest
      | _ => []
      end
  end.

(** ** Containers to run things on *)

(** Three tasks appended in this order: A (high, due 2025-01-01),
    B (low, due 2025-02-01), C (medium, no date). *)
Definition ex_heap : heap :=
  [ mkTaskNode (PStr "A") (PStr "todo") (PStr "high") (PStr "2025-01-01") []
               (PInt 100) (Some 1%nat) None;
    mkTaskNode (PStr "B") (PStr "todo") (PStr "low") (PStr "2025-02-01") []
               (PInt 20) (Some 2%nat) (Some 0%nat);
    mkTaskNode (PStr "C") (PStr "todo") (PStr "medium") PNone []
               (PInt 50) None (Some 1%nat) ].

Definition ex_list : TaskList := {| head := Some 0%nat; count := 3 |}.

(** A task without a date in front of a task due on 9999-12-31. *)
Definition late_heap : heap :=
  [ mkTaskNode (PStr "someday") (PStr "todo") (PStr "low") PNone []
               (PInt 20) (Some 1%nat) None;
    mkTaskNode (PStr "last day") (PStr "todo") (PStr "low") (PStr "9999-12-31") []
               (PInt 20) None (Some 0%nat) ].

Definition late_list : TaskList := {| head := Some 0%nat; count := 2 |}.

(** Four tasks, the two in the middle marked "deleted". *)
Definition swept_heap : heap :=
  [ mkTaskNode (PStr "A") (PStr "done") (PStr "high") PNone []
               (PInt 100) (Some 1%nat) None;
    mkTaskNode (PStr "B") (PStr "deleted") (PStr "low") PNone []
               (PInt 20) (Some 2%nat) (Some 0%nat);
    mkTaskNode (PStr "C") (PStr "deleted") (PStr "low") PNone []
               (PInt 20) (Some 3%nat) (Some 1%nat);
    mkTaskNode (PStr "D") (PStr "todo") (PStr "medium") PNone []
               (PInt 50) None (Some 2%nat) ].

Definition swept_app : App :=
  {| task_list := {| head := Some 0%nat; count := 4 |}; total_xp := 0 |}.

(** The three tasks of [ex_heap] and a fourth node that was never added. *)
Definition foreign_heap : heap :=
  ex_heap ++ [TaskNode_init (PStr "D") (PStr "low") PNone (PStr "todo") PNone].

(** A record without a status, followed by a complete one. *)
Definition bad_record : dict :=
  {[ "description"%string := PStr "A"; "priority"%string := PStr "high";
     "due_date"%string := PNone; "xp_value"%string := PInt 100 ]}.

(** A complete record. *)
Definition good_record : dict :=
  to_dict (mkTaskNode (PStr "B") (PStr "todo") (PStr "low") PNone [] (PInt 20) None None).

(** The application with the three tasks of [ex_heap] and no XP yet. *)
Definition ex_app : App := {| task_list := ex_list; total_xp := 0 |}.

(** A task whose due date was stored as a number, in front of a dated one. *)
Definition numbered_heap : heap :=
  [ mkTaskNode (PStr "A") (PStr "todo") (PStr "low") (PInt 20251120) []
               (PInt 20) (Some 1%nat) None;
    mkTaskNode (PStr "B") (PStr "todo") (PStr "low") (PStr "2025-11-20") []
               (PInt 20) None (Some 0%nat) ].

Definition numbered_list : TaskList := {| head := Some 0%nat; count := 2 |}.

(** Two sorted lists in one heap: A (high) and then C (low), and B (high)
    alone. *)
Definition merge_heap : heap :=
  [ mkTaskNode (PStr "A") (PStr "todo") (PStr "high") PNone [] (PInt 100)
               (Some 2%nat) None;
    mkTaskNode (PStr "B") (PStr "todo") (PStr "high") PNone [] (PInt 100) None None;
    mkTaskNode (PStr "C") (PStr "todo") (PStr "low") PNone [] (PInt 20)
               None (Some 0%nat) ].

(** Four tasks, the first with the priority "urgent" and the third with a
    number for a priority: A (urgent), B (low), C (7), D (high). *)
Definition unknown_heap : heap :=
  [ mkTaskNode (PStr "A") (PStr "todo") (PStr "urgent") PNone [] (PInt 20)
               (Some 1%nat) None;
    mkTaskNode (PStr "B") (PStr "todo") (PStr "low") PNone [] (PInt 20)
               (Some 2%nat) (Some 0%nat);
    mkTaskNode (PStr "C") (PStr "todo") (PInt 7) PNone [] (PInt 20)
               (Some 3%nat) (Some 1%nat);
    mkTaskNode (PStr "D") (PStr "todo") (PStr "high") PNone [] (PInt 100)
               None (Some 2%nat) ].

Definition unknown_list : TaskList := {| head := Some 0%nat; count := 4 |}.

(** The application before anything is loaded. *)
Definition empty_app : App := {| task_list := TaskList_init; total_xp := 0 |}.

(** ** Tactics: one step of the monad, membership in a list *)

Ltac msimpl := cbv beta iota delta [ret bind].

Ltac solve_elem := rewrite ?elem_of_app, ?elem_of_cons; intuition (subst; auto).

(** * Reasoning about the heap *)

(** ** Running the monad *)

Lemma bind_ok {A B} (m : M A) (k : A → M B) h a h1 :
  m h = Ok (a, h1) → bind m k h = k a h1.
Proof. unfold bind. intros ->. reflexivity. Qed.

Lemma bind_assoc {A B C} (m : M A) (k : A → M B) (k' : B → M C) h :
  bind (bind m k) k' h = bind m (λ a, bind (k a) k') h.
Proof. unfold bind. destruct (m h) as [[a h1]| |]; reflexivity. Qed.

Lemma load_ok h a n : h !! a = Some n → load a h = Ok (n, h).
Proof. unfold load. intros ->. reflexivity. Qed.

Lemma get_next_ok h a n : h !! a = Some n → get_next (Some a) h = Ok (next n, h).
Proof. intros H. unfold get_next. rewrite (bind_ok _ _ _ _ _ (load_ok _ _ _ H)). reflexivity. Qed.

Lemma get_prev_ok h a n : h !! a = Some n → get_prev (Some a) h = Ok (prev n, h).
Proof. intros H. unfold get_prev. rewrite (bind_ok _ _ _ _ _ (load_ok _ _ _ H)). reflexivity. Qed.

Lemma set_next_ok h a n v :
  h !! a = Some n → set_next (Some a) v h = Ok (tt, <[a := with_next n v]> h).
Proof.
  intros H. unfold set_next. rewrite (bind_ok _ _ _ _ _ (load_ok _ _ _ H)).
  unfold store. rewrite H. reflexivity.
Qed.

Lemma set_prev_ok h a n v :
  h !! a = Some n → set_prev (Some a) v h = Ok (tt, <[a := with_prev n v]> h).
Proof.
  intros H. unfold set_prev. rewrite (bind_ok _ _ _ _ _ (load_ok _ _ _ H)).
  unfold store. rewrite H. reflexivity.
Qed.

(** Reading a cell after a write. *)
Lemma lookup_upd_eq (h : heap) a n n' :
  h !! a = Some n → <[a := n']> h !! a = Some n'.
Proof. intros H. apply list_lookup_insert_eq. eapply lookup_lt_Some, H. Qed.

Lemma lookup_upd_ne (h : heap) a b n' :
  a ≠ b → <[a := n']> h !! b = h !! b.
Proof. intros H. by apply list_lookup_insert_ne. Qed.

(** ** The task carried by a node, and heaps that keep every task *)

Lemma task_of_with_next n v : task_of (with_next n v) = task_of n.
Proof. reflexivity. Qed.

Lemma task_of_with_prev n v : task_of (with_prev n v) = task_of n.
Proof. reflexivity. Qed.

Lemma task_of_fields n n' :
  task_of n' = task_of n →
  description n' = description n ∧ status n' = status n ∧
  priority n' = priority n ∧ due_date n' = due_date n ∧
  tags n' = tags n ∧ xp_value n' = xp_value n.
Proof. destruct n, n'. unfold task_of. cbn. intros [= -> -> -> -> -> ->]. done. Qed.

Lemma heap_ext_refl h : heap_ext h h.
Proof. intros a n H. eauto. Qed.

Lemma heap_ext_trans h1 h2 h3 : heap_ext h1 h2 → heap_ext h2 h3 → heap_ext h1 h3.
Proof.
  intros H12 H23 a n H. destruct (H12 _ _ H) as (n2 & H2 & E2).
  destruct (H23 _ _ H2) as (n3 & H3 & E3). exists n3. split; [done|congruence].
Qed.

Lemma heap_ext_upd h a n n' :
  h !! a = Some n → task_of n' = task_of n → heap_ext h (<[a := n']> h).
Proof.
  intros H E b nb Hb. destruct (decide (a = b)) as [->|Hne].
  - exists n'. split; [by eapply lookup_upd_eq|]. congruence.
  - exists nb. by rewrite lookup_upd_ne.
Qed.

Lemma heap_ext_alloc h n : heap_ext h (h ++ [n]).
Proof. intros a na H. exists na. split; [|done]. by apply lookup_app_l_Some. Qed.

Lemma heap_ext_length h h' : heap_ext h h' → (length h ≤ length h')%nat.
Proof.
  intros H. destruct (decide (length h = 0%nat)) as [E|E]; [lia|].
  destruct (lookup_lt_is_Some_2 h (length h - 1)) as [n Hn]; [lia|].
  destruct (H _ _ Hn) as (n' & Hn' & _). apply lookup_lt_Some in Hn'. lia.
Qed.

(** ** Doubly linked segments *)

Lemma last_ptr_cons p a l : last_ptr p (a :: l) = last_ptr (Some a) l.
Proof.
  unfold last_ptr. destruct l as [|b l]; [done|].
  change (last (a :: b :: l)) with (last (b :: l)).
  by destruct (last (b :: l)) eqn:E; [|by apply last_None in E].
Qed.

Lemma last_ptr_snoc p l a : last_ptr p (l ++ [a]) = Some a.
Proof. unfold last_ptr. by rewrite last_snoc. Qed.

Lemma dlseg_frame h h' p f l q :
  (∀ a, a ∈ l → h' !! a = h !! a) → dlseg h p f l q → dlseg h' p f l q.
Proof.
  revert p f. induction l as [|a l IH]; intros p f Hfr; [done|].
  intros (-> & n & Hn & Hp & Hrest). split; [done|]. exists n. split_and!.
  - rewrite Hfr; [done|]. left.
  - done.
  - apply IH; [|done]. intros b Hb. apply Hfr. by right.
Qed.

Lemma dlseg_app h p f l1 l2 q :
  dlseg h p f (l1 ++ l2) q ↔
  ∃ m, dlseg h p f l1 m ∧ dlseg h (last_ptr p l1) m l2 q.
Proof.
  revert p f. induction l1 as [|a l1 IH]; intros p f; cbn [app dlseg].
  - split.
    + intros H. exists f. done.
    + intros (m & -> & H). done.
  - rewrite last_ptr_cons. split.
    + intros (-> & n & Hn & Hp & Hrest). apply IH in Hrest as (m & H1 & H2).
      exists m. split; [|done]. split; [done|]. by exists n.
    + intros (m & (-> & n & Hn & Hp & H1) & H2). split; [done|].
      exists n. split_and!; [done..|]. apply IH. by exists m.
Qed.

Lemma dlseg_is_Some h p f l q a :
  dlseg h p f l q → a ∈ l → is_Some (h !! a).
Proof.
  revert p f. induction l as [|b l IH]; intros p f H Ha.
  - by apply elem_of_nil in Ha.
  - destruct H as (-> & n & Hn & Hp & Hrest).
    apply elem_of_cons in Ha as [->|Ha]; [by exists n|]. by eapply IH.
Qed.

Lemma dlseg_lt h p f l q a :
  dlseg h p f l q → a ∈ l → (a < length h)%nat.
Proof.
  intros H Ha. destruct (dlseg_is_Some _ _ _ _ _ _ H Ha) as [n Hn].
  by eapply lookup_lt_Some.
Qed.

Lemma dlseg_det h p p' f l l' :
  dlseg h p f l None → dlseg h p' f l' None → l = l'.
Proof.
  revert p p' f l'. induction l as [|a l IH]; intros p p' f l' H H'.
  - cbn in H. subst f. destruct l' as [|b l']; [done|]. by destruct H'.
  - destruct H as (-> & n & Hn & Hp & Hrest). destruct l' as [|b l']; [done|].
    destruct H' as ([= <-] & n' & Hn' & Hp' & Hrest').
    assert (n' = n) as -> by congruence. f_equal. by eapply IH.
Qed.

Lemma dlseg_NoDup h p f l : dlseg h p f l None → NoDup l.
Proof.
  revert p f. induction l as [|a l IH]; intros p f H; [constructor|].
  pose proof H as (-> & n & Hn & Hp & Hrest). constructor; [|by eapply IH].
  intros Ha. apply list_elem_of_split in Ha as (l1 & l2 & ->).
  apply dlseg_app in Hrest as (m & H1 & H2).
  pose proof H2 as (-> & _).
  pose proof (dlseg_det _ _ _ _ _ _ H H2) as E.
  apply (f_equal length) in E. rewrite !length_cons, length_app, length_cons in E. lia.
Qed.

(** The links of a segment, read by position. *)
Lemma dlseg_first h p f l q :
  dlseg h p f l q → f = match l !! 0%nat with Some a => Some a | None => q end.
Proof. destruct l; cbn; [done|]. by intros (-> & _). Qed.

Lemma dlseg_lookup h p f l q i a :
  dlseg h p f l q → l !! i = Some a →
  ∃ n, h !! a = Some n ∧
       next n = match l !! S i with Some b => Some b | None => q end ∧
       prev n = match i with O => p | S j => l !! j end.
Proof.
  revert p f i. induction l as [|b l IH]; intros p f i H Hi; [done|].
  destruct H as (-> & n & Hn & Hp & Hrest). destruct i as [|i].
  - cbn in Hi. injection Hi as ->. exists n. split_and!; [done| |done].
    cbn. by apply dlseg_first in Hrest.
  - cbn in Hi. destruct (IH _ _ _ Hrest Hi) as (n' & Hn' & Hnx & Hpv).
    exists n'. split_and!; [done..|]. rewrite Hpv. by destruct i.
Qed.

(** Writes that keep a segment. *)
Lemma dlseg_upd_notin h p f l q a n' :
  a ∉ l → dlseg h p f l q → dlseg (<[a := n']> h) p f l q.
Proof.
  intros Ha. apply dlseg_frame. intros b Hb. apply lookup_upd_ne. by intros ->.
Qed.

Lemma dlseg_set_first_prev h p p' a l q n :
  a ∉ l → h !! a = Some n → dlseg h p (Some a) (a :: l) q →
  dlseg (<[a := with_prev n p']> h) p' (Some a) (a :: l) q.
Proof.
  intros Ha Hn (_ & n0 & Hn0 & Hp & Hrest). assert (n0 = n) as -> by congruence.
  split; [done|]. exists (with_prev n p'). split_and!; [by eapply lookup_upd_eq|done|].
  cbn. by apply dlseg_upd_notin.
Qed.

Lemma dlseg_set_last_next h p f l a q q' n :
  a ∉ l → h !! a = Some n → dlseg h p f (l ++ [a]) q →
  dlseg (<[a := with_next n q']> h) p f (l ++ [a]) q'.
Proof.
  intros Ha Hn H. apply dlseg_app in H as (m & H1 & (-> & n0 & Hn0 & Hp & Hq)).
  assert (n0 = n) as -> by congruence.
  apply dlseg_app. exists (Some a). split; [by apply dlseg_upd_notin|].
  split; [done|]. exists (with_next n q'). split_and!; [by eapply lookup_upd_eq|done|done].
Qed.

(** ** Traversals *)

Lemma get_all_tasks_loop_spec fuel h p cur l acc :
  dlseg h p cur l None → (length l < fuel)%nat →
  get_all_tasks_loop fuel acc cur h = Ok (acc ++ l, h).
Proof.
  revert p cur l acc. induction fuel as [|fuel IH]; intros p cur l acc H Hf; [lia|].
  destruct l as [|a l]; cbn [get_all_tasks_loop].
  - cbn in H. subst cur. by rewrite app_nil_r.
  - destruct H as (-> & n & Hn & Hp & Hrest).
    rewrite (bind_ok _ _ _ _ _ (load_ok _ _ _ Hn)).
    rewrite (IH _ _ _ _ Hrest); [|cbn in Hf; lia]. by rewrite <- app_assoc.
Qed.

Lemma get_tasks_by_status_loop_spec fuel h p cur l st acc :
  dlseg h p cur l None → (length l < fuel)%nat →
  get_tasks_by_status_loop fuel st acc cur h =
    Ok (acc ++ filter (λ a, has_status h st a = true) l, h).
Proof.
  revert p cur l acc. induction fuel as [|fuel IH]; intros p cur l acc H Hf; [lia|].
  destruct l as [|a l]; cbn [get_tasks_by_status_loop].
  - cbn in H. subst cur. by rewrite filter_nil, app_nil_r.
  - destruct H as (-> & n & Hn & Hp & Hrest).
    rewrite (bind_ok _ _ _ _ _ (load_ok _ _ _ Hn)).
    rewrite (IH _ _ _ _ Hrest); [|cbn in Hf; lia]. f_equal. f_equal.
    destruct (decide (status n = st)) as [E|E].
    + rewrite filter_cons_True; [by rewrite <- app_assoc|].
      unfold has_status. rewrite Hn. by apply bool_decide_eq_true.
    + rewrite filter_cons_False; [done|].
      unfold has_status. rewrite Hn. by rewrite bool_decide_eq_true.
Qed.

Lemma sort_by_count_spec fuel h p cur l c :
  dlseg h p cur l None → (length l < fuel)%nat →
  sort_by_count fuel c cur h = Ok (c + Z.of_nat (length l), h).
Proof.
  revert p cur l c. induction fuel as [|fuel IH]; intros p cur l c H Hf; [lia|].
  destruct l as [|a l]; cbn [sort_by_count].
  - cbn in H. subst cur. cbn. unfold ret. f_equal. f_equal. lia.
  - destruct H as (-> & n & Hn & Hp & Hrest).
    rewrite (bind_ok _ _ _ _ _ (get_next_ok _ _ _ Hn)).
    rewrite (IH _ _ _ _ Hrest); [|cbn in Hf; lia]. f_equal. f_equal. cbn [length]. lia.
Qed.

Lemma add_task_node_loop_spec fuel h p a l :
  dlseg h p (Some a) (a :: l) None → (length l < fuel)%nat →
  add_task_node_loop fuel (Some a) h = Ok (last_ptr (Some a) l, h).
Proof.
  revert p a l. induction fuel as [|fuel IH]; intros p a l H Hf; [lia|].
  destruct H as (_ & n & Hn & Hp & Hrest). cbn [add_task_node_loop].
  rewrite (bind_ok _ _ _ _ _ (get_next_ok _ _ _ Hn)).
  destruct l as [|b l].
  - cbn in Hrest. rewrite Hrest. done.
  - pose proof Hrest as (E & _). rewrite E in Hrest |- *. rewrite last_ptr_cons.
    apply (IH _ _ _ Hrest). cbn in Hf. lia.
Qed.

(** ** Append *)

Lemma nonempty_snoc {A} (a : A) (l : list A) : ∃ l' t, a :: l = l' ++ [t].
Proof.
  destruct (last (a :: l)) as [t|] eqn:Et.
  - apply last_Some in Et as [l' El]. eauto.
  - by apply last_None in Et.
Qed.

Lemma add_task_node_spec fuel h self l a n :
  dll h (head self) l → h !! a = Some n → next n = None → prev n = None →
  a ∉ l → (length l ≤ fuel)%nat →
  ∃ hd' h',
    add_task_node fuel self a h = Ok ({| head := hd'; count := count self + 1 |}, h') ∧
    dll h' hd' (l ++ [a]) ∧
    length h' = length h ∧ heap_ext h h' ∧
    (∀ b, b ∉ l → b ≠ a → h' !! b = h !! b).
Proof.
  intros Hd Hn Hnx Hpv Ha Hf. unfold add_task_node, dll in *.
  destruct l as [|a0 l0].
  - cbn in Hd. rewrite Hd. exists (Some a), h. split_and!; [done| |done|apply heap_ext_refl|done].
    split; [done|]. exists n. by rewrite Hnx.
  - pose proof Hd as (E & _). rewrite E in Hd |- *.
    destruct (nonempty_snoc a0 l0) as (l' & t & El).
    pose proof (add_task_node_loop_spec fuel h None a0 l0 Hd) as Hloop.
    rewrite <- (last_ptr_cons None), El, last_ptr_snoc in Hloop.
    rewrite El in Hd, Ha |- *.
    pose proof Hd as Hd0.
    apply dlseg_app in Hd0 as (m & H1 & (-> & tn & Htn & Hp & Hq)).
    assert (t ≠ a) as Hta by (intros ->; apply Ha; set_solver).
    assert (a ∉ l') as Hal by set_solver.
    assert (t ∉ l') as Htl.
    { apply dlseg_NoDup in Hd. apply NoDup_app in Hd as (_ & Hd & _).
      intros Ht. apply (Hd _ Ht). set_solver. }
    set (h1 := <[t := with_next tn (Some a)]> h).
    assert (h1 !! a = Some n) as Hn1 by (unfold h1; by rewrite lookup_upd_ne).
    unfold bind. rewrite Hloop; [|cbn in Hf; lia].
    rewrite (set_next_ok _ _ _ _ Htn). fold h1.
    rewrite (set_prev_ok _ _ _ _ Hn1). cbn.
    eexists _, _. split; [reflexivity|]. split_and!.
    + rewrite E. apply dlseg_app. exists (Some a). split.
      * apply dlseg_upd_notin; [set_solver|].
        by eapply dlseg_set_last_next.
      * rewrite last_ptr_snoc. split; [done|]. exists (with_prev n (Some t)).
        split_and!; [by eapply lookup_upd_eq|done|by cbn].
    + unfold h1. by rewrite !length_insert.
    + eapply heap_ext_trans; [by apply (heap_ext_upd h t tn (with_next tn (Some a)))|].
      by apply (heap_ext_upd h1 a n).
    + intros b Hb Hba. unfold h1. rewrite !lookup_upd_ne; [done|set_solver|done].
Qed.

(** ** Removal of a node of the list *)



Lemma delete_task_node_spec h self l1 a l2 :
  dll h (head self) (l1 ++ a :: l2) →
  ∃ hd' h',
    delete_task_node self (Some a) h
      = Ok ({| head := hd'; count := count self - 1 |}, h') ∧
    dll h' hd' (l1 ++ l2) ∧
    length h' = length h ∧ heap_ext h h' ∧
    (∀ b, b ∉ l1 ++ l2 → h' !! b = h !! b).
Proof.
  intros Hd. unfold dll in *. pose proof (dlseg_NoDup _ _ _ _ Hd) as Hnd.
  apply NoDup_app in Hnd as (Hnd1 & Hnd12 & Hnd2).
  apply NoDup_cons in Hnd2 as (Hal2 & Hnd2).
  assert (a ∉ l1) as Hal1 by (intros Hin; apply (Hnd12 _ Hin); left).
  pose proof Hd as Hd0.
  apply dlseg_app in Hd0 as (m & H1 & (-> & an & Han & Hpa & H2)).
  unfold delete_task_node.
  destruct l1 as [|a0 l1_] using rev_ind.
  - (* the node is the head *)
    cbn in H1. rewrite H1. rewrite decide_True by done. msimpl.
    rewrite (get_next_ok _ _ _ Han).
    destruct l2 as [|c l2'].
    + cbn in H2. rewrite H2. cbn. exists None, h.
      split_and!; [done|done|done|apply heap_ext_refl|done].
    + pose proof H2 as (Ec & cn & Hcn & Hpc & H3). rewrite Ec in H2 |- *.
      rewrite (set_prev_ok _ _ _ _ Hcn). msimpl.
      apply NoDup_cons in Hnd2 as (Hcl2 & _).
      eexists _, _. split; [reflexivity|]. split_and!.
      * apply (dlseg_set_first_prev h (Some a) None c l2' None cn Hcl2 Hcn H2).
      * by rewrite length_insert.
      * by apply (heap_ext_upd h c cn).
      * intros b Hb. apply lookup_upd_ne. intros ->. apply Hb. left.
  - (* the node has a predecessor [a0] *)
    clear IHl1_.
    assert (a0 ≠ a) as Ha0 by (intros ->; apply Hal1; solve_elem).
    assert (a0 ∉ l1_) as Ha0l.
    { apply NoDup_app in Hnd1 as (_ & Hnd1 & _). intros Hin. apply (Hnd1 _ Hin). left. }
    assert (head self ≠ Some a) as Hne.
    { apply dlseg_first in H1. rewrite H1. destruct ((l1_ ++ [a0]) !! 0%nat) as [x|] eqn:Ex.
      - intros [= ->]. apply Hal1. by eapply list_elem_of_lookup_2.
      - apply lookup_ge_None in Ex. rewrite length_app in Ex. cbn in Ex. lia. }
    rewrite decide_False by congruence.
    rewrite last_ptr_snoc in Hpa.
    pose proof H1 as H1'.
    apply dlseg_app in H1' as (m1 & _ & (-> & a0n & Ha0n & _ & _)).
    set (h1 := <[a0 := with_next a0n (next an)]> h).
    assert (h1 !! a = Some an) as Han1 by (unfold h1; by rewrite lookup_upd_ne).
    msimpl. rewrite (get_prev_ok _ _ _ Han), Hpa.
    rewrite (get_next_ok _ _ _ Han), (set_next_ok _ _ _ _ Ha0n). fold h1.
    rewrite (get_next_ok _ _ _ Han1).
    assert (dlseg h1 None (head self) (l1_ ++ [a0]) (next an)) as H1n.
    { by eapply dlseg_set_last_next. }
    destruct l2 as [|c l2'].
    + cbn in H2. rewrite H2 in H1n |- *. msimpl. rewrite app_nil_r.
      eexists _, _. split; [reflexivity|]. split_and!.
      * done.
      * unfold h1. by rewrite length_insert.
      * by apply (heap_ext_upd h a0 a0n).
      * intros b Hb. apply lookup_upd_ne. intros ->. apply Hb. solve_elem.
    + pose proof H2 as (Ec & cn & Hcn & Hpc & H3). rewrite Ec in H2, H1n |- *.
      assert (c ≠ a0) as Hca0.
      { intros ->. apply (Hnd12 a0); [solve_elem|]. right. left. }
      assert (c ∉ l1_ ++ [a0]) as Hcl1.
      { intros Hin. apply (Hnd12 _ Hin). right. left. }
      assert (a0 ∉ c :: l2') as Ha0l2.
      { intros Hin. apply (Hnd12 a0); [solve_elem|]. by right. }
      apply NoDup_cons in Hnd2 as (Hcl2 & _).
      assert (h1 !! c = Some cn) as Hcn1 by (unfold h1; by rewrite lookup_upd_ne).
      rewrite (get_prev_ok _ _ _ Han1), Hpa, (set_prev_ok _ _ _ _ Hcn1). msimpl.
      eexists _, _. split; [reflexivity|]. split_and!.
      * apply dlseg_app. exists (Some c). split.
        -- by apply dlseg_upd_notin.
        -- rewrite last_ptr_snoc. eapply dlseg_set_first_prev; [done..|].
           by apply dlseg_upd_notin.
      * unfold h1. by rewrite !length_insert.
      * eapply heap_ext_trans; [by apply (heap_ext_upd h a0 a0n (with_next a0n (next an)))|].
        by apply (heap_ext_upd _ c cn).
      * intros b Hb. unfold h1. rewrite !lookup_upd_ne; [done|..].
        -- intros ->. apply Hb. solve_elem.
        -- intros ->. apply Hb. solve_elem.
Qed.

(** ** The sweep *)

Section sweep.
Variable dead : ref → bool.

Lemma marks_ext h h' l : heap_ext h h' → marks dead h l → marks dead h' l.
Proof.
  intros Hext Hm a Ha. destruct (Hm a Ha) as (n & Hn & Hs).
  destruct (Hext _ _ Hn) as (n' & Hn' & E). exists n'. split; [done|].
  apply task_of_fields in E as (_ & -> & _). done.
Qed.

Lemma refresh_ui_loop_spec rest :
  ∀ fuel h self kept,
    dll h (head self) (kept ++ rest) → marks dead h rest →
    (length rest < fuel)%nat →
    ∃ hd' h',
      refresh_ui_loop fuel self (rest !! 0%nat) h
        = Ok ({| head := hd';
                 count := count self
                          - Z.of_nat (length (filter (λ a, dead a = true) rest)) |}, h') ∧
      dll h' hd' (kept ++ filter (λ a, dead a = false) rest) ∧
      length h' = length h ∧ heap_ext h h' ∧
      ((∀ a, a ∈ rest → dead a = false) → h' = h ∧ hd' = head self).
Proof.
  induction rest as [|a rest IH]; intros fuel h self kept Hd Hm Hf.
  - destruct fuel as [|fuel]; [cbn in Hf; lia|]. cbn.
    exists (head self), h. rewrite Z.sub_0_r. destruct self.
    split_and!; [done|done|done|apply heap_ext_refl|done].
  - destruct fuel as [|fuel]; [cbn in Hf; lia|].
    cbn [refresh_ui_loop lookup list_lookup].
    destruct (Hm a) as (an & Han & Hs); [left|].
    assert (next an = rest !! 0%nat) as Hnx.
    { destruct (dlseg_lookup _ _ _ _ _ (length kept) a Hd) as (n & Hn & Hnx & _).
      - by rewrite list_lookup_middle.
      - assert (n = an) as -> by congruence. rewrite Hnx.
        rewrite lookup_app_r by lia.
        replace (S (length kept) - length kept)%nat with 1%nat by lia. cbn.
        by destruct (rest !! 0%nat). }
    msimpl. rewrite (get_next_ok _ _ _ Han), (load_ok _ _ _ Han). msimpl.
    assert (marks dead h rest) as Hm' by (intros b Hb; apply Hm; by right).
    destruct (decide (status an = PStr "deleted")) as [Hdel|Hlive].
    + rewrite bool_decide_eq_true_2 in Hs by done.
      destruct (delete_task_node_spec _ _ _ _ _ Hd) as (hd1 & h1 & Hrun & Hd1 & Hlen1 & Hext1 & _).
      rewrite Hrun, Hnx.
      destruct (IH fuel h1 {| head := hd1; count := count self - 1 |} kept)
        as (hd' & h' & Hrun' & Hd' & Hlen' & Hext' & _).
      { done. } { by eapply marks_ext. } { cbn in Hf. lia. }
      exists hd', h'. cbn [head count] in Hrun'. rewrite Hrun'.
      rewrite filter_cons_True by done. rewrite filter_cons_False by congruence.
      split_and!.
      * do 3 f_equal. cbn [length]. lia.
      * done.
      * congruence.
      * by eapply heap_ext_trans.
      * intros Hall. specialize (Hall a). rewrite <- Hs in Hall. discriminate Hall. left.
    + rewrite bool_decide_eq_false_2 in Hs by done. rewrite Hnx.
      destruct (IH fuel h self (kept ++ [a])) as (hd' & h' & Hrun' & Hd' & Hlen' & Hext' & Hnop).
      { by rewrite <- app_assoc. } { done. } { cbn in Hf. lia. }
      exists hd', h'. rewrite Hrun'.
      rewrite filter_cons_False by congruence. rewrite filter_cons_True by done.
      split_and!; [done| |done|done|].
      * by rewrite <- app_assoc in Hd'.
      * intros Hall. apply Hnop. intros b Hb. apply Hall. by right.
Qed.
End sweep.

(** * Sorting a list by halving and merging *)

Lemma half_bounds n : (2 * half n ≤ n + 1 ∧ n ≤ 2 * half n)%nat.
Proof.
  unfold half. pose proof (Nat.div_mod_eq (n + 1) 2) as E.
  pose proof (Nat.mod_upper_bound (n + 1) 2) as B. lia.
Qed.

Section sort_list.
Context {A : Type} (R : relation A) `{!∀ x y, Decision (R x y)}.

Lemma sort_list_perm fuel l : sort_list R fuel l ≡ₚ l.
Proof.
  revert l. induction fuel as [|fuel IH]; intros l; [done|].
  destruct l as [|a [|b l]]; [done..|]. cbn [sort_list].
  rewrite merge_Permutation, !IH. by rewrite take_drop.
Qed.

Lemma halves_length (a b : A) l :
  let l' := a :: b :: l in
  (length (take (half (length l')) l') < length l' ∧
   length (drop (half (length l')) l') < length l')%nat.
Proof.
  intros l'. rewrite length_take, length_drop.
  assert (2 ≤ length l')%nat by (cbn; lia).
  pose proof (half_bounds (length l')). lia.
Qed.

Lemma sort_list_sorted `{!Total R} fuel l :
  (length l ≤ S fuel)%nat → Sorted R (sort_list R fuel l).
Proof.
  revert l. induction fuel as [|fuel IH]; intros l Hf.
  - destruct l as [|a [|b l]]; cbn in *; [repeat constructor..|lia].
  - destruct l as [|a [|b l]]; [repeat constructor..|]. cbn [sort_list].
    destruct (halves_length a b l) as [H1 H2].
    pose proof (Sorted_list_merge R) as Hm. apply Hm; apply IH; lia.
Qed.

(** Merging keeps the order of elements that compare equal: a set [P] of
    mutually equal elements comes out in the order left, then right. *)
Lemma list_merge_filter `{!Transitive R} (P : A → Prop) `{!∀ x, Decision (P x)}
    l1 l2 :
  (∀ x y, P x → P y → R x y) → Sorted R l1 →
  filter P (list_merge R l1 l2) = filter P l1 ++ filter P l2.
Proof.
  intros HP. revert l2. induction l1 as [|a l1 IH]; intros l2 Hs.
  - by rewrite list_merge_nil_l.
  - induction l2 as [|b l2 IH2].
    + by rewrite list_merge_nil_r, filter_nil, app_nil_r.
    + rewrite list_merge_cons. destruct (decide (R a b)) as [Hab|Hab].
      * rewrite !(filter_cons _ a), IH by (by inversion Hs).
        by destruct (decide (P a)).
      * rewrite !(filter_cons _ b), IH2. destruct (decide (P b)) as [Hb|Hb]; [|done].
        assert (filter P (a :: l1) = []) as ->; [|done].
        destruct (filter P (a :: l1)) as [|x xs] eqn:E; [done|].
        assert (x ∈ filter P (a :: l1)) as Hx by (rewrite E; left).
        apply list_elem_of_filter in Hx as [HPx Hx].
        destruct Hab. apply Sorted_StronglySorted in Hs; [|done].
        apply StronglySorted_cons in Hs as [Hall _].
        apply elem_of_cons in Hx as [->|Hx]; [by apply HP|].
        rewrite Forall_forall in Hall. etrans; [by apply Hall|by apply HP].
Qed.

Lemma sort_list_filter `{!Total R, !Transitive R}
    (P : A → Prop) `{!∀ x, Decision (P x)} fuel l :
  (∀ x y, P x → P y → R x y) → (length l ≤ S fuel)%nat →
  filter P (sort_list R fuel l) = filter P l.
Proof.
  intros HP. revert l. induction fuel as [|fuel IH]; intros l Hf; [done|].
  destruct l as [|a [|b l]]; [done..|]. cbn [sort_list].
  destruct (halves_length a b l) as [H1 H2].
  rewrite list_merge_filter; [|done|apply sort_list_sorted; lia].
  rewrite !IH by lia. by rewrite <- filter_app, take_drop.
Qed.

Lemma list_merge_app l1 l2 :
  (∀ x y, x ∈ l1 → y ∈ l2 → R x y) → list_merge R l1 l2 = l1 ++ l2.
Proof.
  induction l1 as [|a l1 IH]; intros Hle.
  - by rewrite list_merge_nil_l.
  - destruct l2 as [|b l2]; [by rewrite list_merge_nil_r, app_nil_r|].
    rewrite list_merge_cons, decide_True by (apply Hle; left).
    cbn. f_equal. apply IH. intros x y Hx Hy. apply Hle; [by right|done].
Qed.

(** A sorted list is left as it is. *)
Lemma sort_list_id fuel l : StronglySorted R l → sort_list R fuel l = l.
Proof.
  revert l. induction fuel as [|fuel IH]; intros l Hs; [done|].
  destruct l as [|a [|b l]]; [done..|]. cbn [sort_list].
  set (l' := a :: b :: l) in *. rewrite <- (take_drop (half (length l')) l') in Hs.
  apply StronglySorted_app in Hs as (Hle & Hs1 & Hs2).
  rewrite (IH _ Hs1), (IH _ Hs2), list_merge_app by done. apply take_drop.
Qed.

Lemma Sorted_adjacent l i a b :
  Sorted R l → l !! i = Some a → l !! S i = Some b → R a b.
Proof.
  intros Hs. revert i. induction Hs as [|x l Hs IH Hhd]; intros i Ha Hb; [done|].
  destruct i as [|i].
  - cbn in Ha, Hb. injection Ha as ->. destruct Hhd as [|y l Hxy]; [done|].
    cbn in Hb. by injection Hb as ->.
  - by apply (IH i).
Qed.

Lemma StronglySorted_lookup l i j a b :
  StronglySorted R l → l !! i = Some a → l !! j = Some b → (i < j)%nat → R a b.
Proof.
  intros Hs. revert i j. induction Hs as [|x l Hs IH Hall]; intros i j Ha Hb Hij; [done|].
  destruct j as [|j]; [lia|]. cbn in Hb. destruct i as [|i].
  - cbn in Ha. injection Ha as ->. rewrite Forall_forall in Hall.
    apply Hall. by eapply list_elem_of_lookup_2.
  - cbn in Ha. apply (IH i j); [done..|lia].
Qed.
End sort_list.

(** * The sort on the heap *)

(** ** Split *)

Lemma split_loop_spec h p f l fuel :
  dlseg h p f l None →
  ∀ i, (2 * i < length l)%nat → (length l ≤ 2 * i + 2 * fuel)%nat → (0 < fuel)%nat →
       split_loop fuel (l !! i) (l !! (2 * i + 1)%nat) h
         = Ok (l !! (half (length l) - 1)%nat, h).
Proof.
  intros Hd. induction fuel as [|fuel IH]; intros i Hi Hf Hpos; [lia|].
  pose proof (half_bounds (length l)) as Hh.
  cbn [split_loop].
  destruct (l !! (2 * i + 1)%nat) as [b|] eqn:Eb.
  - destruct (dlseg_lookup _ _ _ _ _ _ _ Hd Eb) as (bn & Hbn & Hbnx & _).
    msimpl. rewrite (get_next_ok _ _ _ Hbn), Hbnx.
    destruct (l !! S (2 * i + 1)) as [c|] eqn:Ec.
    + destruct (lookup_lt_is_Some_2 l i) as [s Es]; [lia|].
      destruct (dlseg_lookup _ _ _ _ _ _ _ Hd Es) as (sn & Hsn & Hsnx & _).
      destruct (dlseg_lookup _ _ _ _ _ _ _ Hd Ec) as (cn & Hcn & Hcnx & _).
      apply lookup_lt_Some in Ec.
      rewrite Es, (get_next_ok _ _ _ Hsn), (get_next_ok _ _ _ Hcn), Hsnx, Hcnx.
      specialize (IH (S i)).
      replace (2 * S i + 1)%nat with (S (S (2 * i + 1))) in IH by lia.
      destruct (lookup_lt_is_Some_2 l (S i)) as [s' Es']; [lia|].
      rewrite Es' in IH |- *.
      destruct (l !! S (S (2 * i + 1))) as [d|] eqn:Ed.
      * apply lookup_lt_Some in Ed. apply IH; lia.
      * destruct fuel as [|fuel]; [|apply IH; lia].
        lia.
    + apply lookup_ge_None in Ec. apply lookup_lt_Some in Eb.
      unfold ret. do 3 f_equal. lia.
  - apply lookup_ge_None in Eb. unfold ret. do 3 f_equal. lia.
Qed.

Lemma _split_spec fuel h p a l :
  let l0 := a :: l in
  dlseg h p (Some a) l0 None → (length l0 ≤ 2 * fuel)%nat →
  ∃ h' second,
    _split fuel (Some a) h = Ok ((Some a, second), h') ∧
    dlseg h' p (Some a) (take (half (length l0)) l0) None ∧
    dlseg h' None second (drop (half (length l0)) l0) None ∧
    length h' = length h ∧ heap_ext h h' ∧
    (∀ b, b ∉ l0 → h' !! b = h !! b).
Proof.
  intros l0 Hd Hf. set (k := half (length l0)).
  assert (1 ≤ length l0)%nat as Hlen by (cbn; lia).
  pose proof (half_bounds (length l0)) as Hh. fold k in Hh.
  pose proof (dlseg_NoDup _ _ _ _ Hd) as Hnd.
  destruct (dlseg_lookup _ _ _ _ _ 0%nat a Hd eq_refl) as (an & Han & Hanx & _).
  unfold _split. msimpl. rewrite (get_next_ok _ _ _ Han), Hanx.
  pose proof (split_loop_spec _ _ _ _ fuel Hd 0%nat) as Hloop.
  change (2 * 0 + 1)%nat with 1%nat in Hloop. change (l0 !! 0%nat) with (Some a) in Hloop.
  assert (l0 !! 1%nat = match l0 !! 1%nat with Some b => Some b | None => None end) as E1
    by (by destruct (l0 !! 1%nat)).
  rewrite <- E1, Hloop by lia. fold k. clear E1 Hloop.
  destruct (lookup_lt_is_Some_2 l0 (k - 1)) as [s Es]; [lia|].
  rewrite Es.
  assert (take k l0 = take (k - 1) l0 ++ [s]) as Etake.
  { replace k with (S (k - 1)) at 1 by lia. by apply take_S_r. }
  rewrite <- (take_drop k l0) in Hd, Hnd. rewrite Etake in Hd, Hnd |- *.
  apply NoDup_app in Hnd as (Hnd1 & Hnd12 & Hnd2).
  apply NoDup_app in Hnd1 as (_ & Hnd1 & _).
  assert (s ∉ take (k - 1) l0) as Hs1 by (intros Hin; apply (Hnd1 _ Hin); left).
  assert (s ∉ drop k l0) as Hs2 by (apply Hnd12; solve_elem).
  apply dlseg_app in Hd as (m & Hleft & Hright). rewrite last_ptr_snoc in Hright.
  pose proof Hleft as Hleft0.
  apply dlseg_app in Hleft0 as (m' & _ & (-> & sn & Hsn & _ & Hm)). cbn in Hm.
  rewrite (get_next_ok _ _ _ Hsn), Hm.
  assert (∀ b, b ∉ l0 → b ≠ s) as Hsl0.
  { intros b Hb ->. apply Hb. by eapply list_elem_of_lookup_2. }
  destruct (drop k l0) as [|c r] eqn:Edrop.
  - cbn in Hright. subst m. rewrite (set_next_ok _ _ _ _ Hsn). msimpl.
    eexists _, _. split; [reflexivity|]. split_and!.
    + by eapply dlseg_set_last_next.
    + done.
    + by rewrite length_insert.
    + by apply (heap_ext_upd h s sn).
    + intros b Hb. apply lookup_upd_ne. intros ->. by eapply Hsl0.
  - pose proof Hright as (-> & cn & Hcn & _ & _).
    assert (c ∉ take (k - 1) l0 ++ [s]) as Hc1.
    { intros Hin. apply (Hnd12 _ Hin). left. }
    assert (c ≠ s) as Hcs by (intros ->; apply Hs2; left).
    apply NoDup_cons in Hnd2 as (Hcr & _).
    assert (c ∈ l0) as Hcl0.
    { rewrite <- (take_drop k l0), Edrop. solve_elem. }
    set (h1 := <[c := with_prev cn None]> h).
    assert (h1 !! s = Some sn) as Hsn1 by (unfold h1; by rewrite lookup_upd_ne).
    rewrite (set_prev_ok _ _ _ _ Hcn). fold h1. rewrite (set_next_ok _ _ _ _ Hsn1). msimpl.
    eexists _, _. split; [reflexivity|]. split_and!.
    + eapply dlseg_set_last_next; [done..|]. by apply dlseg_upd_notin.
    + apply dlseg_upd_notin; [done|]. by eapply dlseg_set_first_prev.
    + unfold h1. by rewrite !length_insert.
    + eapply heap_ext_trans; [by apply (heap_ext_upd h c cn (with_prev cn None))|].
      by apply (heap_ext_upd h1 s sn).
    + intros b Hb. unfold h1. rewrite !lookup_upd_ne; [done|..].
      * intros ->. done.
      * intros ->. by eapply Hsl0.
Qed.

(** ** Merge *)

(** Hooking the node [x], first of a list, behind the node [t]. *)
Lemma link_heap h t tn x xn p l :
  h !! t = Some tn → h !! x = Some xn →
  dlseg h p (Some x) (x :: l) None → t ∉ x :: l →
  let h1 := <[t := with_next tn (Some x)]> h in
  let h2 := <[x := with_prev xn (Some t)]> h1 in
  h1 !! x = Some xn ∧
  h2 !! t = Some (with_next tn (Some x)) ∧
  h2 !! x = Some (with_prev xn (Some t)) ∧
  dlseg h2 (Some t) (Some x) (x :: l) None ∧
  length h2 = length h ∧ heap_ext h h2 ∧
  (∀ b, b ≠ t → b ≠ x → h2 !! b = h !! b).
Proof.
  intros Ht Hx Hd Htl h1 h2.
  assert (t ≠ x) as Htx by (intros ->; apply Htl; left).
  pose proof (dlseg_NoDup _ _ _ _ Hd) as Hnd. apply NoDup_cons in Hnd as (Hxl & _).
  assert (h1 !! x = Some xn) as Hx1 by (unfold h1; by rewrite lookup_upd_ne).
  split_and!.
  - done.
  - unfold h2. rewrite lookup_upd_ne by done. by eapply lookup_upd_eq.
  - by eapply lookup_upd_eq.
  - eapply dlseg_set_first_prev; [done..|]. by apply dlseg_upd_notin.
  - unfold h2, h1. by rewrite !length_insert.
  - eapply heap_ext_trans; [by apply (heap_ext_upd h t tn (with_next tn (Some x)))|].
    by apply (heap_ext_upd h1 x xn).
  - intros b Hbt Hbx. unfold h2, h1. by rewrite !lookup_upd_ne.
Qed.

Section merge.
Variable key : string.
Variable le : ref → ref → bool.

Lemma keyed_ext h h' l : heap_ext h h' → keyed key le h l → keyed key le h' l.
Proof.
  intros Hext Hk a b Ha Hb. destruct (Hk a b Ha Hb) as (na & nb & Hna & Hnb & E).
  destruct (Hext _ _ Hna) as (na' & Hna' & Ea).
  destruct (Hext _ _ Hnb) as (nb' & Hnb' & Eb).
  exists na', nb'. split_and!; [done..|]. rewrite <- E.
  change (left_first key (task_of na') (task_of nb')
          = left_first key (task_of na) (task_of nb)).
  by rewrite Ea, Eb.
Qed.

Lemma keyed_sub h l l' : (∀ a, a ∈ l' → a ∈ l) → keyed key le h l → keyed key le h l'.
Proof. intros Hsub Hk a b Ha Hb. apply Hk; by apply Hsub. Qed.

Lemma merge_loop_attach_spec fuel :
  ∀ l1 l2 h t tn left right p1 p2,
    (0 < length l1 + length l2 ≤ fuel)%nat →
    dlseg h p1 left l1 None → dlseg h p2 right l2 None →
    t ∉ l1 → t ∉ l2 → (∀ x, x ∈ l1 → x ∉ l2) →
    h !! t = Some tn → keyed key le h (l1 ++ l2) →
    ∃ h' tn',
      (st <- merge_loop fuel key (Some t) left right ;; attach st) h = Ok (tt, h') ∧
      h' !! t = Some tn' ∧ prev tn' = prev tn ∧
      dlseg h' (Some t) (next tn') (list_merge (goes_first le) l1 l2) None ∧
      length h' = length h ∧ heap_ext h h' ∧
      (∀ b, b ≠ t → b ∉ l1 → b ∉ l2 → h' !! b = h !! b).
Proof.
  induction fuel as [|fuel IH];
    intros l1 l2 h t tn left right p1 p2 Hf H1 H2 Ht1 Ht2 Hdis Ht Hk; [lia|].
  destruct l1 as [|a l1], l2 as [|b l2].
  - cbn in Hf. lia.
  - (* the left list is empty: the right list is attached *)
    cbn in H1. subst left. pose proof H2 as (-> & bn & Hbn & _).
    destruct (link_heap _ _ _ _ _ _ _ Ht Hbn H2 Ht2)
      as (Hb1 & Ht2' & Hb2 & Hd2 & Hlen & Hext & Hfr).
    cbn [merge_loop]. msimpl. unfold attach. msimpl.
    rewrite (set_next_ok _ _ _ _ Ht), (set_prev_ok _ _ _ _ Hb1).
    eexists _, _. split; [reflexivity|]. rewrite list_merge_nil_l.
    split_and!; [done|done|done|done|done|].
    intros x Hxt _ Hx. apply Hfr; [done|]. intros ->. apply Hx. left.
  - (* the right list is empty: the left list is attached *)
    cbn in H2. subst right. pose proof H1 as (-> & an & Han & _).
    destruct (link_heap _ _ _ _ _ _ _ Ht Han H1 Ht1)
      as (Ha1 & Ht2' & Ha2 & Hd2 & Hlen & Hext & Hfr).
    cbn [merge_loop]. msimpl. unfold attach. msimpl.
    rewrite (set_next_ok _ _ _ _ Ht), (set_prev_ok _ _ _ _ Ha1).
    eexists _, _. split; [reflexivity|]. rewrite list_merge_nil_r.
    split_and!; [done|done|done|done|done|].
    intros x Hxt Hx _. apply Hfr; [done|]. intros ->. apply Hx. left.
  - (* both lists have a first node *)
    pose proof H1 as (-> & an & Han & Hap & H1').
    pose proof H2 as (-> & bn & Hbn & Hbp & H2').
    destruct (Hk a b) as (an0 & bn0 & Han0 & Hbn0 & Hcmp); [solve_elem..|].
    assert (an0 = an) as -> by congruence. assert (bn0 = bn) as -> by congruence.
    assert (a ≠ b) as Hab by (intros ->; apply (Hdis b); left).
    pose proof (dlseg_NoDup _ _ _ _ H1) as Hnd1. apply NoDup_cons in Hnd1 as (Hal1 & _).
    pose proof (dlseg_NoDup _ _ _ _ H2) as Hnd2. apply NoDup_cons in Hnd2 as (Hbl2 & _).
    cbn [merge_loop]. rewrite bind_assoc.
    rewrite (bind_ok _ _ _ _ _ (load_ok _ _ _ Han)). rewrite bind_assoc.
    rewrite (bind_ok _ _ _ _ _ (load_ok _ _ _ Hbn)). rewrite bind_assoc.
    rewrite Hcmp. unfold lift at 1. unfold bind at 1.
    rewrite list_merge_cons.
    destruct (le a b) eqn:Hle.
    + (* the left node goes first *)
      rewrite decide_True by done.
      destruct (link_heap _ _ _ _ _ _ _ Ht Han H1 Ht1)
        as (Ha1 & Ht2' & Ha2 & Hd2 & Hlen & Hext & Hfr).
      set (h2 := <[a := with_prev an (Some t)]> (<[t := with_next tn (Some a)]> h)) in *.
      rewrite !bind_assoc.
      rewrite (bind_ok _ _ _ _ _ (set_next_ok _ _ _ _ Ht)). rewrite bind_assoc.
      rewrite (bind_ok _ _ _ _ _ (set_prev_ok _ _ _ _ Ha1)). fold h2. rewrite bind_assoc.
      rewrite (bind_ok _ _ _ _ _ (get_next_ok _ _ _ Ha2)). rewrite bind_assoc.
      rewrite (bind_ok _ _ _ _ _ (get_next_ok _ _ _ Ht2')).
      cbn [next with_next with_prev].
      destruct Hd2 as (_ & an2 & Han2 & Hp2 & Hd2).
      assert (an2 = with_prev an (Some t)) as -> by congruence. cbn [next with_prev] in Hd2.
      destruct (IH l1 (b :: l2) h2 a (with_prev an (Some t)) (next an) (Some b) (Some a) p2)
        as (h' & an' & Hrun & Han' & Hpa' & Hd' & Hlen' & Hext' & Hfr').
      { cbn [length] in *. lia. }
      { done. }
      { apply (dlseg_frame h); [|done]. intros x Hx. apply Hfr.
        - intros ->. by apply Ht2.
        - intros ->. apply (Hdis a); [left|done]. }
      { done. }
      { intros Hin. apply (Hdis a); [left|done]. }
      { intros x Hx. apply Hdis. by right. }
      { done. }
      { eapply keyed_ext; [done|]. eapply keyed_sub; [|done]. intros x. solve_elem. }
      exists h', (with_next tn (Some a)). rewrite Hrun. split; [done|]. split_and!.
      * rewrite Hfr'; [done|..].
        -- intros ->. apply Ht1. left.
        -- intros Hin. apply Ht1. by right.
        -- done.
      * done.
      * cbn [next with_next]. split; [done|]. exists an'. by rewrite Hpa'.
      * congruence.
      * by eapply heap_ext_trans.
      * intros x Hxt Hx1 Hx2. rewrite Hfr'; [apply Hfr; [done|]|..].
        -- intros ->. apply Hx1. left.
        -- intros ->. apply Hx1. left.
        -- intros Hin. apply Hx1. by right.
        -- done.
    + (* the right node goes first *)
      rewrite decide_False by (unfold goes_first; by rewrite Hle).
      destruct (link_heap _ _ _ _ _ _ _ Ht Hbn H2 Ht2)
        as (Hb1 & Ht2' & Hb2 & Hd2 & Hlen & Hext & Hfr).
      set (h2 := <[b := with_prev bn (Some t)]> (<[t := with_next tn (Some b)]> h)) in *.
      rewrite !bind_assoc.
      rewrite (bind_ok _ _ _ _ _ (set_next_ok _ _ _ _ Ht)). rewrite bind_assoc.
      rewrite (bind_ok _ _ _ _ _ (set_prev_ok _ _ _ _ Hb1)). fold h2. rewrite bind_assoc.
      rewrite (bind_ok _ _ _ _ _ (get_next_ok _ _ _ Hb2)). rewrite bind_assoc.
      rewrite (bind_ok _ _ _ _ _ (get_next_ok _ _ _ Ht2')).
      cbn [next with_next with_prev].
      destruct Hd2 as (_ & bn2 & Hbn2 & Hp2 & Hd2).
      assert (bn2 = with_prev bn (Some t)) as -> by congruence. cbn [next with_prev] in Hd2.
      destruct (IH (a :: l1) l2 h2 b (with_prev bn (Some t)) (Some a) (next bn) p1 (Some b))
        as (h' & bn' & Hrun & Hbn' & Hpb' & Hd' & Hlen' & Hext' & Hfr').
      { cbn [length] in *. lia. }
      { apply (dlseg_frame h); [|done]. intros x Hx. apply Hfr.
        - intros ->. by apply Ht1.
        - intros ->. apply (Hdis b); [done|left]. }
      { done. }
      { intros Hin. apply (Hdis b); [done|left]. }
      { done. }
      { intros x Hx Hx2. apply (Hdis x); [done|by right]. }
      { done. }
      { eapply keyed_ext; [done|]. eapply keyed_sub; [|done]. intros x. solve_elem. }
      exists h', (with_next tn (Some b)). rewrite Hrun. split; [done|]. split_and!.
      * rewrite Hfr'; [done|..].
        -- intros ->. apply Ht2. left.
        -- done.
        -- intros Hin. apply Ht2. by right.
      * done.
      * cbn [next with_next]. split; [done|]. exists bn'. by rewrite Hpb'.
      * congruence.
      * by eapply heap_ext_trans.
      * intros x Hxt Hx1 Hx2. rewrite Hfr'; [apply Hfr; [done|]|..].
        -- intros ->. apply Hx2. left.
        -- intros ->. apply Hx2. left.
        -- done.
        -- intros Hin. apply Hx2. by right.
Qed.

Lemma _merge_eq fuel left right h :
  _merge fuel left right key h =
  (dummy <- alloc (TaskNode_init (PStr "dummy_merge_head") (PStr "medium")
                                 PNone (PStr "todo") PNone) ;;
   (st <- merge_loop fuel key (Some dummy) left right ;; attach st) ;;;
   merged_head <- get_next (Some dummy) ;;
   match merged_head with
   | Some _ => set_prev merged_head None
   | None => ret tt
   end ;;;
   ret merged_head) h.
Proof.
  unfold _merge, bind, alloc.
  destruct (merge_loop _ _ _ _ _ _) as [[[[tl rl] rr] hm]| |]; reflexivity.
Qed.

Lemma _merge_spec fuel h left right l1 l2 p1 p2 :
  (0 < length l1 + length l2 ≤ fuel)%nat →
  dlseg h p1 left l1 None → dlseg h p2 right l2 None →
  (∀ x, x ∈ l1 → x ∉ l2) → keyed key le h (l1 ++ l2) →
  ∃ h' hd',
    _merge fuel left right key h = Ok (hd', h') ∧
    dll h' hd' (list_merge (goes_first le) l1 l2) ∧
    heap_ext h h' ∧
    (∀ b, (b < length h)%nat → b ∉ l1 → b ∉ l2 → h' !! b = h !! b).
Proof.
  intros Hf H1 H2 Hdis Hk. rewrite _merge_eq.
  set (dn := TaskNode_init _ _ _ _ _). set (d := length h). set (h0 := h ++ [dn]).
  assert (alloc dn h = Ok (d, h0)) as Halloc by done.
  rewrite (bind_ok _ _ _ _ _ Halloc).
  assert (∀ b, (b < length h)%nat → h0 !! b = h !! b) as Hfr0.
  { intros b Hb. unfold h0. by rewrite lookup_app_l. }
  assert (h0 !! d = Some dn) as Hd0 by (unfold h0, d; by rewrite list_lookup_middle).
  assert (∀ x, x ∈ l1 → (x < length h)%nat) as Hlt1 by (intros x; by eapply dlseg_lt).
  assert (∀ x, x ∈ l2 → (x < length h)%nat) as Hlt2 by (intros x; by eapply dlseg_lt).
  assert (d ∉ l1) as Hd1 by (intros Hin; apply Hlt1 in Hin; unfold d in Hin; lia).
  assert (d ∉ l2) as Hd2 by (intros Hin; apply Hlt2 in Hin; unfold d in Hin; lia).
  destruct (merge_loop_attach_spec fuel l1 l2 h0 d dn left right p1 p2)
    as (h1 & dn' & Hrun & Hdn' & _ & Hm & Hlen1 & Hext1 & Hfr1).
  { done. }
  { apply (dlseg_frame h); [|done]. intros x Hx. apply Hfr0. by apply Hlt1. }
  { apply (dlseg_frame h); [|done]. intros x Hx. apply Hfr0. by apply Hlt2. }
  { done. } { done. } { done. } { done. }
  { eapply keyed_ext; [apply heap_ext_alloc|done]. }
  rewrite (bind_ok _ _ _ _ _ Hrun). rewrite (bind_ok _ _ _ _ _ (get_next_ok _ _ _ Hdn')).
  pose proof (merge_Permutation (goes_first le) l1 l2) as Hperm.
  destruct (list_merge (goes_first le) l1 l2) as [|m0 m] eqn:Em.
  { apply Permutation_length in Hperm. rewrite length_app in Hperm. cbn in Hperm. lia. }
  pose proof Hm as (Enx & n0 & Hn0 & _ & _). rewrite Enx in Hm |- *.
  pose proof (dlseg_NoDup _ _ _ _ Hm) as Hnd. apply NoDup_cons in Hnd as (Hm0 & _).
  rewrite (bind_ok _ _ _ _ _ (set_prev_ok _ _ _ _ Hn0)). msimpl.
  eexists _, _. split; [reflexivity|]. split_and!.
  - by eapply dlseg_set_first_prev.
  - eapply heap_ext_trans; [apply (heap_ext_alloc h dn)|].
    eapply heap_ext_trans; [done|]. by apply (heap_ext_upd h1 m0 n0).
  - intros b Hb Hb1 Hb2. rewrite lookup_upd_ne.
    + rewrite Hfr1; [by apply Hfr0|unfold d; lia|done|done].
    + intros ->. assert (b ∈ l1 ++ l2) as Hin by (rewrite <- Hperm; left).
      apply elem_of_app in Hin as [Hin|Hin]; [by apply Hb1|by apply Hb2].
Qed.

(** ** The recursion *)

Lemma merge_sort_spec fuel :
  ∀ h hd l,
    (length l < fuel)%nat → dll h hd l → keyed key le h l →
    ∃ h' hd',
      merge_sort fuel hd key h = Ok (hd', h') ∧
      dll h' hd' (sort_list (goes_first le) fuel l) ∧
      heap_ext h h' ∧
      (∀ b, (b < length h)%nat → b ∉ l → h' !! b = h !! b).
Proof.
  induction fuel as [|fuel IH]; intros h hd l Hf Hd Hk; [lia|].
  unfold dll in *. destruct l as [|a [|b l]].
  - cbn in Hd. subst hd. exists h, None.
    split_and!; [done|done|apply heap_ext_refl|done].
  - pose proof Hd as (-> & an & Han & _ & Hnx). cbn in Hnx.
    cbn [merge_sort]. rewrite (bind_ok _ _ _ _ _ (get_next_ok _ _ _ Han)), Hnx.
    exists h, (Some a). split_and!; [done|done|apply heap_ext_refl|done].
  - set (l0 := a :: b :: l) in *.
    pose proof Hd as (-> & an & Han & _ & (Hnx & _)).
    cbn [merge_sort]. rewrite (bind_ok _ _ _ _ _ (get_next_ok _ _ _ Han)), Hnx.
    destruct (halves_length a b l) as [HlenL HlenR]. fold l0 in HlenL, HlenR.
    set (L := take (half (length l0)) l0) in *.
    set (Rr := drop (half (length l0)) l0) in *.
    assert (l0 = L ++ Rr) as El0 by (symmetry; apply take_drop).
    pose proof (dlseg_NoDup _ _ _ _ Hd) as Hnd. rewrite El0 in Hnd.
    apply NoDup_app in Hnd as (_ & HLR & _).
    assert (∀ x, x ∈ L → x ∈ l0) as HL0 by (intros x; rewrite El0; solve_elem).
    assert (∀ x, x ∈ Rr → x ∈ l0) as HR0 by (intros x; rewrite El0; solve_elem).
    assert (∀ x, x ∈ l0 → (x < length h)%nat) as Hlt by (intros x; by eapply dlseg_lt).
    (* split *)
    destruct (_split_spec fuel h None a (b :: l) Hd)
      as (h1 & second & Hsplit & HdL & HdR & Hlen1 & Hext1 & Hfr1); [fold l0; lia|].
    fold l0 L Rr in HdL, HdR.
    rewrite (bind_ok _ _ _ _ _ Hsplit).
    (* the left half *)
    destruct (IH h1 (Some a) L) as (h2 & hl & HrunL & HsL & Hext2 & Hfr2).
    { lia. } { done. }
    { eapply keyed_ext; [done|]. by eapply keyed_sub. }
    rewrite (bind_ok _ _ _ _ _ HrunL).
    pose proof (heap_ext_length _ _ Hext2) as Hle2.
    (* the right half *)
    destruct (IH h2 second Rr) as (h3 & hr & HrunR & HsR & Hext3 & Hfr3).
    { lia. }
    { apply (dlseg_frame h1); [|done]. intros x Hx. apply Hfr2.
      - rewrite Hlen1. apply Hlt. by apply HR0.
      - intros HxL. by apply (HLR x). }
    { eapply keyed_ext; [exact (heap_ext_trans _ _ _ Hext1 Hext2)|]. by eapply keyed_sub. }
    rewrite (bind_ok _ _ _ _ _ HrunR).
    pose proof (heap_ext_length _ _ Hext3) as Hle3.
    (* merge *)
    pose proof (sort_list_perm (goes_first le) fuel L) as HpL.
    pose proof (sort_list_perm (goes_first le) fuel Rr) as HpR.
    destruct (_merge_spec fuel h3 hl hr (sort_list (goes_first le) fuel L)
                (sort_list (goes_first le) fuel Rr) None None)
      as (h4 & hd' & Hrun & Hd4 & Hext4 & Hfr4).
    { rewrite HpL, HpR. rewrite <- length_app, <- El0. cbn [length l0] in *. lia. }
    { apply (dlseg_frame h2); [|done]. intros x Hx. rewrite HpL in Hx. apply Hfr3.
      - assert (x < length h1)%nat by (rewrite Hlen1; apply Hlt; by apply HL0). lia.
      - by apply HLR. }
    { done. }
    { intros x Hx. rewrite HpL in Hx. rewrite HpR. by apply HLR. }
    { eapply keyed_ext.
      { exact (heap_ext_trans _ _ _ Hext1 (heap_ext_trans _ _ _ Hext2 Hext3)). }
      eapply keyed_sub; [|done]. intros x. rewrite elem_of_app, HpL, HpR.
      intros [?|?]; [by apply HL0|by apply HR0]. }
    rewrite Hrun. exists h4, hd'. split_and!.
    + done.
    + done.
    + exact (heap_ext_trans _ _ _ Hext1 (heap_ext_trans _ _ _ Hext2
               (heap_ext_trans _ _ _ Hext3 Hext4))).
    + intros x Hx Hxl.
      assert (x ∉ L) as HxL by (intros Hin; by apply Hxl, HL0).
      assert (x ∉ Rr) as HxR by (intros Hin; by apply Hxl, HR0).
      rewrite Hfr4; [|lia|by rewrite HpL|by rewrite HpR].
      rewrite Hfr3; [|lia|done]. rewrite Hfr2; [|lia|done]. by apply Hfr1.
Qed.

Lemma sort_by_spec fuel h self l :
  (length l < fuel)%nat → dll h (head self) l → keyed key le h l →
  ∃ h' hd',
    sort_by fuel self key h
      = Ok ({| head := hd'; count := Z.of_nat (length l) |}, h') ∧
    dll h' hd' (sort_list (goes_first le) fuel l) ∧
    heap_ext h h' ∧
    (∀ b, (b < length h)%nat → b ∉ l → h' !! b = h !! b).
Proof.
  intros Hf Hd Hk.
  destruct (merge_sort_spec fuel h (head self) l Hf Hd Hk)
    as (h' & hd' & Hrun & Hd' & Hext & Hfr).
  pose proof (Permutation_length (sort_list_perm (goes_first le) fuel l)) as Hlen.
  unfold sort_by. rewrite (bind_ok _ _ _ _ _ Hrun).
  rewrite (bind_ok _ _ _ _ _ (sort_by_count_spec fuel h' None hd' _ 0 Hd'
             ltac:(lia))).
  exists h', hd'. split_and!; [|done..]. unfold ret. by rewrite Hlen.
Qed.
End merge.

(** * The order of the two sort keys *)

Lemma string_leb_trans s1 s2 s3 :
  String.leb s1 s2 = true → String.leb s2 s3 = true → String.leb s1 s3 = true.
Proof.
  unfold String.leb. revert s2 s3.
  induction s1 as [|c1 s1 IH]; intros [|c2 s2] [|c3 s3]; cbn; try done.
  unfold Ascii.compare.
  destruct (N.compare_spec (N_of_ascii c1) (N_of_ascii c2)) as [E12|L12|G12],
           (N.compare_spec (N_of_ascii c2) (N_of_ascii c3)) as [E23|L23|G23],
           (N.compare_spec (N_of_ascii c1) (N_of_ascii c3)) as [E13|L13|G13];
    try done; try lia.
  apply IH.
Qed.

Lemma get_value_priority n : get_value "priority" n = PInt (priorityValue n).
Proof. reflexivity. Qed.

Lemma get_value_due_date n :
  dated n → get_value "due_date" n = PStr (dueDateOrMax n).
Proof.
  unfold dated, get_value, dueDateOrMax. cbn.
  destruct (due_date n) as [|z|s]; [done|done|]. intros _. cbn.
  by destruct (String.eqb s "").
Qed.

Lemma priorityValue_cases n :
  priorityValue n =
    if decide (priority n = PStr "high") then 3
    else if decide (priority n = PStr "medium") then 2
    else if decide (priority n = PStr "low") then 1
    else 0.
Proof.
  unfold priorityValue, dict_get. destruct (priority n) as [|z|s]; [done..|].
  unfold priority_table. rewrite !lookup_insert, lookup_singleton.
  repeat case_decide; try done; congruence.
Qed.

Section key_order.
Variable key : string.
Variable h : heap.

#[global] Instance key_le_total : Total (goes_first (key_le key h)).
Proof.
  intros a b. unfold goes_first, key_le.
  destruct (String.eqb key "priority"); [lia|].
  destruct (String.eqb key "due_date"); [apply String.leb_total|by left].
Qed.

#[global] Instance key_le_trans : Transitive (goes_first (key_le key h)).
Proof.
  intros a b c. unfold goes_first, key_le.
  destruct (String.eqb key "priority"); [lia|].
  destruct (String.eqb key "due_date"); [apply string_leb_trans|done].
Qed.

Lemma keyed_key_le l :
  (∀ a, a ∈ l → ∃ n, h !! a = Some n ∧ (key = "due_date"%string → dated n)) →
  keyed key (key_le key h) h l.
Proof.
  intros Hl a b Ha Hb. destruct (Hl a Ha) as (na & Hna & Hda).
  destruct (Hl b Hb) as (nb & Hnb & Hdb). exists na, nb. split_and!; [done..|].
  unfold key_le, prio, due, left_first. rewrite Hna, Hnb. cbn [from_option].
  destruct (String.eqb_spec key "priority") as [->|Hk1]; [done|].
  destruct (String.eqb_spec key "due_date") as [->|Hk2].
  - rewrite !get_value_due_date by auto. done.
  - unfold get_value. apply String.eqb_neq in Hk1, Hk2. by rewrite Hk1, Hk2.
Qed.
End key_order.

(** The order does not depend on the links. *)
Lemma prio_ext h h' a : heap_ext h h' → is_Some (h !! a) → prio h' a = prio h a.
Proof.
  intros Hext [n Hn]. destruct (Hext _ _ Hn) as (n' & Hn' & E).
  apply task_of_fields in E as (_ & _ & E & _).
  unfold prio. rewrite Hn, Hn'. cbn. unfold priorityValue. by rewrite E.
Qed.

Lemma due_ext h h' a : heap_ext h h' → is_Some (h !! a) → due h' a = due h a.
Proof.
  intros Hext [n Hn]. destruct (Hext _ _ Hn) as (n' & Hn' & E).
  apply task_of_fields in E as (_ & _ & _ & E & _).
  unfold due. rewrite Hn, Hn'. cbn. unfold dueDateOrMax. by rewrite E.
Qed.

Lemma sort_value_ext key h h' a :
  heap_ext h h' → is_Some (h !! a) → sort_value key h' a = sort_value key h a.
Proof.
  intros Hext [n Hn]. destruct (Hext _ _ Hn) as (n' & Hn' & E).
  apply task_of_fields in E as (_ & _ & E1 & E2 & _).
  unfold sort_value. rewrite Hn, Hn'. cbn. unfold get_value. by rewrite E1, E2.
Qed.

Lemma string_leb_refl s : String.leb s s = true.
Proof. by destruct (String.leb_total s s). Qed.

Lemma dueDateOrMax_get_value n :
  dueDateOrMax n = match get_value "due_date" n with
                   | PStr s => s
                   | _ => "9999-12-31"%string
                   end.
Proof.
  unfold dueDateOrMax, get_value. cbn. destruct (due_date n) as [|z|s]; cbn.
  - done.
  - by destruct (z =? 0).
  - by destruct (String.eqb s "").
Qed.

(** Two nodes with the same sort value: the merge takes the left one. *)
Lemma key_le_same_value key h x y :
  sort_value key h x = sort_value key h y → key_le key h x y = true.
Proof.
  unfold sort_value, key_le, prio, due.
  destruct (h !! x) as [nx|], (h !! y) as [ny|]; cbn.
  - intros E. destruct (String.eqb_spec key "priority") as [->|Hk1].
    + rewrite !get_value_priority in E. injection E as ->. lia.
    + destruct (String.eqb_spec key "due_date") as [->|Hk2]; [|done].
      rewrite !dueDateOrMax_get_value, E. apply string_leb_refl.
  - unfold get_value. destruct (String.eqb key "priority"); [done|].
    destruct (String.eqb key "due_date"); [|done].
    destruct (due_date nx) as [|z|s]; cbn; [done| |].
    + by destruct (z =? 0).
    + by destruct (String.eqb s "").
  - unfold get_value. destruct (String.eqb key "priority"); [done|].
    destruct (String.eqb key "due_date"); [|done].
    destruct (due_date ny) as [|z|s]; cbn; [done| |].
    + by destruct (z =? 0).
    + by destruct (String.eqb s "").
  - intros _. destruct (String.eqb key "priority"); [done|].
    by destruct (String.eqb key "due_date").
Qed.

Lemma key_le_ext key h h' a b :
  heap_ext h h' → is_Some (h !! a) → is_Some (h !! b) →
  key_le key h' a b = key_le key h a b.
Proof.
  intros Hext Ha Hb. unfold key_le.
  by rewrite !(prio_ext h h'), !(due_ext h h').
Qed.

(** * The invariant, seen as a doubly linked list *)

Lemma reach_dlseg h l :
  ∀ p first,
    reach h first l →
    (∀ a n, first = Some a → h !! a = Some n → prev n = p) →
    (∀ a n b, a ∈ l → h !! a = Some n → next n = Some b →
              ∃ nb, h !! b = Some nb ∧ prev nb = Some a) →
    dlseg h p first l None.
Proof.
  induction l as [|a l IH]; intros p first Hr Hp Hsym; [done|].
  destruct Hr as (-> & n & Hn & Hr). split; [done|]. exists n.
  split_and!; [done|by eapply Hp|]. apply IH; [done| |].
  - intros b nb Eb Hnb. destruct (Hsym a n b) as (nb' & Hnb' & Hpb); [left|done..|].
    congruence.
  - intros x nx y Hx. apply Hsym. by right.
Qed.

Lemma dlseg_reach h p first l : dlseg h p first l None → reach h first l.
Proof.
  revert p first. induction l as [|a l IH]; intros p first; [done|].
  intros (-> & n & Hn & _ & Hd). split; [done|]. exists n. split; [done|]. by eapply IH.
Qed.

Lemma Valid_dll h self l :
  Valid h self l ↔ dll h (head self) l ∧ count self = Z.of_nat (length l).
Proof.
  split.
  - intros [Hr _ Hnp _ Hhp _ Hc]. split; [|done]. by apply reach_dlseg.
  - intros [Hd Hc]. unfold dll in Hd. split.
    + by eapply dlseg_reach.
    + by eapply dlseg_NoDup.
    + intros a n b Ha Hn Hb. apply list_elem_of_lookup in Ha as [i Hi].
      destruct (dlseg_lookup _ _ _ _ _ _ _ Hd Hi) as (n' & Hn' & Hnx & _).
      assert (n' = n) as -> by congruence. rewrite Hb in Hnx.
      destruct (l !! S i) as [b'|] eqn:Hi'; [|done]. injection Hnx as ->.
      destruct (dlseg_lookup _ _ _ _ _ _ _ Hd Hi') as (nb & Hnb & _ & Hpv).
      exists nb. split; [done|]. by rewrite Hpv.
    + intros a n b Ha Hn Hb. apply list_elem_of_lookup in Ha as [i Hi].
      destruct (dlseg_lookup _ _ _ _ _ _ _ Hd Hi) as (n' & Hn' & _ & Hpv).
      assert (n' = n) as -> by congruence. rewrite Hb in Hpv.
      destruct i as [|j]; [done|].
      destruct (dlseg_lookup _ _ _ _ _ _ _ Hd (eq_sym Hpv)) as (nb & Hnb & Hnx & _).
      exists nb. split; [done|]. by rewrite Hnx, Hi.
    + intros a n Ha Hn. destruct l as [|a' l]; [by rewrite Hd in Ha|].
      destruct Hd as (Ea & n' & Hn' & Hp & _). congruence.
    + intros a n Ha Hn. apply last_Some in Ha as [l' ->].
      apply dlseg_app in Hd as (m & _ & (_ & n' & Hn' & _ & Hq)). cbn in Hq. congruence.
    + done.
Qed.

Lemma Valid_get_all_tasks fuel h self l :
  Valid h self l → (length l < fuel)%nat → get_all_tasks fuel self h = Ok (l, h).
Proof.
  intros [Hd _]%Valid_dll Hf. unfold get_all_tasks.
  by rewrite (get_all_tasks_loop_spec fuel h None (head self) l []).
Qed.

(** * What [sort_by] returns *)

Lemma StronglySorted_all {A} (R : relation A) (l : list A) :
  (∀ a b, a ∈ l → b ∈ l → R a b) → StronglySorted R l.
Proof.
  induction l as [|x l IH]; intros H; constructor.
  - apply IH. intros a b Ha Hb. apply H; by right.
  - apply Forall_forall. intros y Hy. apply H; [left|by right].
Qed.

Lemma StronglySorted_ext_in {A} (R R' : relation A) (l : list A) :
  (∀ a b, a ∈ l → b ∈ l → R a b → R' a b) →
  StronglySorted R l → StronglySorted R' l.
Proof.
  intros H Hs. induction Hs as [|x l Hs IH Hall]; constructor.
  - apply IH. intros a b Ha Hb. apply H; by right.
  - rewrite Forall_forall in Hall |- *. intros y Hy. apply H; [left|by right|by apply Hall].
Qed.

(** The container after [sort_by]: its nodes are the list that [sort_list]
    gives for the order of the key, and every task is as it was. *)
Lemma sort_by_order key fuel h self l :
  Valid h self l →
  (key = "due_date"%string → ∀ a n, a ∈ l → h !! a = Some n → dated n) →
  (length l < fuel)%nat →
  ∃ self' h',
    sort_by fuel self key h = Ok (self', h') ∧
    Valid h' self' (sort_list (goes_first (key_le key h)) fuel l) ∧
    get_all_tasks fuel self' h'
      = Ok (sort_list (goes_first (key_le key h)) fuel l, h') ∧
    heap_ext h h'.
Proof.
  intros [Hd Hc]%Valid_dll Hdated Hf.
  destruct (sort_by_spec key (key_le key h) fuel h self l Hf Hd)
    as (h' & hd' & Hrun & Hd' & Hext & _).
  { apply keyed_key_le. intros a Ha.
    destruct (dlseg_is_Some _ _ _ _ _ _ Hd Ha) as [n Hn]. exists n. split; [done|].
    intros Hk. by eapply Hdated. }
  pose proof (sort_list_perm (goes_first (key_le key h)) fuel l) as Hp.
  assert (Valid h' {| head := hd'; count := Z.of_nat (length l) |}
                (sort_list (goes_first (key_le key h)) fuel l)) as Hv.
  { apply Valid_dll. split; [done|]. cbn. by rewrite Hp. }
  eexists _, h'. split; [done|]. split; [done|]. split; [|done].
  apply Valid_get_all_tasks; [done|]. by rewrite Hp.
Qed.

Lemma heap_ext_priorityValue h h' a n n' :
  heap_ext h h' → h !! a = Some n → h' !! a = Some n' →
  priorityValue n' = priorityValue n.
Proof.
  intros Hext Hn Hn'. destruct (Hext _ _ Hn) as (n'' & Hn'' & E).
  assert (n'' = n') as -> by congruence.
  apply task_of_fields in E as (_ & _ & E & _). unfold priorityValue. by rewrite E.
Qed.

Lemma heap_ext_due_date h h' a n n' :
  heap_ext h h' → h !! a = Some n → h' !! a = Some n' → due_date n' = due_date n.
Proof.
  intros Hext Hn Hn'. destruct (Hext _ _ Hn) as (n'' & Hn'' & E).
  assert (n'' = n') as -> by congruence.
  by apply task_of_fields in E as (_ & _ & _ & E & _).
Qed.

Lemma Valid_is_Some h self l a : Valid h self l → a ∈ l → is_Some (h !! a).
Proof. intros [Hd _]%Valid_dll Ha. by eapply dlseg_is_Some. Qed.

(** * The example containers *)

Lemma ex_dll : dll ex_heap (head ex_list) [0; 1; 2]%nat.
Proof. unfold dll. cbn. repeat (split || eexists). Qed.

Lemma ex_valid : Valid ex_heap ex_list [0; 1; 2]%nat.
Proof. apply Valid_dll. split; [apply ex_dll|done]. Qed.

Lemma ex_add_task :
  (r <- add_task 1 TaskList_init (PStr "A") (PStr "high") (PStr "2025-01-01") ;;
   r <- add_task 1 (fst r) (PStr "B") (PStr "low") (PStr "2025-02-01") ;;
   r <- add_task 2 (fst r) (PStr "C") (PStr "medium") PNone ;;
   ret (fst r)) [] = Ok (ex_list, ex_heap).
Proof. reflexivity. Qed.

Lemma foreign_valid : Valid foreign_heap ex_list [0; 1; 2]%nat.
Proof.
  apply Valid_dll. split; [|done]. unfold dll. cbn. repeat (split || eexists).
Qed.

Lemma empty_valid : Valid [] TaskList_init [].
Proof. apply Valid_dll. by split. Qed.

(** * Lemmas for the operations *)

Lemma filter_ext_in {A} (P1 P2 : A → Prop)
    `{!∀ x, Decision (P1 x), !∀ x, Decision (P2 x)} (l : list A) :
  (∀ x, x ∈ l → (P1 x ↔ P2 x)) → filter P1 l = filter P2 l.
Proof.
  induction l as [|a l IH]; intros Hiff; [done|].
  rewrite !filter_cons, IH by (intros x Hx; apply Hiff; by right).
  destruct (decide (P1 a)) as [Ha1|Ha1], (decide (P2 a)) as [Ha2|Ha2]; try done.
  - destruct Ha2. apply Hiff; [left|done].
  - destruct Ha1. apply Hiff; [left|done].
Qed.

Lemma length_filter_bool {A} (f : A → bool) (l : list A) :
  length l = (length (filter (λ a, f a = true) l)
              + length (filter (λ a, f a = false) l))%nat.
Proof.
  induction l as [|a l IH]; [done|]. rewrite !filter_cons.
  destruct (f a) eqn:E.
  - rewrite decide_True, decide_False by done. cbn. lia.
  - rewrite decide_False, decide_True by done. cbn. lia.
Qed.

(** The sweep on the container itself. *)
Lemma refresh_ui_loop_sweep fuel h self l :
  Valid h self l → (length l < fuel)%nat →
  ∃ self' h',
    refresh_ui_loop fuel self (head self) h = Ok (self', h') ∧
    Valid h' self' (filter (λ a, has_status h (PStr "deleted") a = false) l) ∧
    count self'
      = count self
        - Z.of_nat (length (filter (λ a, has_status h (PStr "deleted") a = true) l)) ∧
    heap_ext h h' ∧
    ((∀ a, a ∈ l → has_status h (PStr "deleted") a = false) → h' = h ∧ self' = self).
Proof.
  intros Hv Hf. pose proof Hv as [Hd Hc]%Valid_dll.
  set (dead := has_status h (PStr "deleted")).
  assert (head self = l !! 0%nat) as Hhd.
  { apply dlseg_first in Hd. rewrite Hd. by destruct (l !! 0%nat). }
  destruct (refresh_ui_loop_spec dead l fuel h self [] Hd)
    as (hd' & h' & Hrun & Hd' & Hlen & Hext & Hnop).
  { intros a Ha. destruct (dlseg_is_Some _ _ _ _ _ _ Hd Ha) as [n Hn].
    exists n. split; [done|]. unfold dead, has_status. by rewrite Hn. }
  { done. }
  cbn [app] in Hd'.
  pose proof (length_filter_bool dead l) as Hsplit.
  rewrite Hhd, Hrun. eexists _, h'. split; [reflexivity|]. split_and!.
  - apply Valid_dll. split; [done|]. cbn [count]. lia.
  - done.
  - done.
  - intros Hall. destruct (Hnop Hall) as [E1 E2]. split; [done|]. rewrite E2.
    assert (filter (λ a, dead a = true) l = []) as ->.
    { clear -Hall. induction l as [|a l IH]; [done|].
      rewrite filter_cons_False by (rewrite Hall; [done|left]).
      apply IH. intros b Hb. apply Hall. by right. }
    destruct self as [hd c]. cbn. f_equal. lia.
Qed.

Lemma recognized_value n :
  if recognized n then (1 ≤ priorityValue n)%Z else priorityValue n = 0.
Proof.
  rewrite priorityValue_cases. unfold recognized.
  destruct (bool_decide_reflect (priority n ∈ [PStr "high"; PStr "medium"; PStr "low"]))
    as [Hin|Hout].
  - repeat (apply elem_of_cons in Hin as [->|Hin]); try (by apply elem_of_nil in Hin);
      by repeat case_decide.
  - destruct (decide (priority n = PStr "high")) as [E|_];
      [destruct Hout; rewrite E; by left|].
    destruct (decide (priority n = PStr "medium")) as [E|_];
      [destruct Hout; rewrite E; right; by left|].
    destruct (decide (priority n = PStr "low")) as [E|_];
      [destruct Hout; rewrite E; do 2 right; by left|done].
Qed.

Lemma from_dict_detached data n :
  from_dict data = Ok n → next n = None ∧ prev n = None.
Proof.
  unfold from_dict, obind. repeat (destruct (getitem _ _); [|done..]).
  by intros [= <-].
Qed.

Lemma alloc_add_task_node_spec fuel h self l n :
  Valid h self l → next n = None → prev n = None → (length l ≤ fuel)%nat →
  ∃ self' h',
    (a <- alloc n ;; add_task_node fuel self a) h = Ok (self', h') ∧
    Valid h' self' (l ++ [length h]) ∧ heap_ext h h' ∧
    length h' = S (length h) ∧
    (∃ n', h' !! length h = Some n' ∧ task_of n' = task_of n).
Proof.
  intros [Hd Hc]%Valid_dll Hnx Hpv Hf.
  assert (alloc n h = Ok (length h, h ++ [n])) as Halloc by done.
  rewrite (bind_ok _ _ _ _ _ Halloc).
  assert ((h ++ [n]) !! length h = Some n) as Hn by (by rewrite list_lookup_middle).
  assert (length h ∉ l) as Hnew.
  { intros Hin. pose proof (dlseg_lt _ _ _ _ _ _ Hd Hin). lia. }
  destruct (add_task_node_spec fuel (h ++ [n]) self l (length h) n)
    as (hd' & h' & Hrun & Hd' & Hlen & Hext & Hfr); [|done..|].
  { apply (dlseg_frame h); [|done]. intros x Hx.
    apply lookup_app_l. by eapply dlseg_lt. }
  rewrite Hrun. eexists _, h'. split; [reflexivity|]. split_and!.
  - apply Valid_dll. split; [done|]. cbn. rewrite length_app. cbn. lia.
  - eapply heap_ext_trans; [apply (heap_ext_alloc h n)|done].
  - rewrite Hlen, length_app. cbn. lia.
  - by apply Hext.
Qed.

Lemma from_dict_missing data k :
  k ∈ required_fields → data !! k = None →
  ∃ k', from_dict data = Raise (KeyError k') ∧
        k' ∈ required_fields ∧ data !! k' = None.
Proof.
  intros Hk Hnone. unfold from_dict, getitem, obind, required_fields in *.
  destruct (data !! "description"%string) eqn:E1;
    [|exists "description"%string; split_and!; [done|solve_elem|done]].
  destruct (data !! "priority"%string) eqn:E2;
    [|exists "priority"%string; split_and!; [done|solve_elem|done]].
  destruct (data !! "due_date"%string) eqn:E3;
    [|exists "due_date"%string; split_and!; [done|solve_elem|done]].
  destruct (data !! "status"%string) eqn:E4;
    [|exists "status"%string; split_and!; [done|solve_elem|done]].
  destruct (data !! "xp_value"%string) eqn:E5;
    [|exists "xp_value"%string; split_and!; [done|solve_elem|done]].
  repeat (apply elem_of_cons in Hk as [->|Hk]; [congruence|]).
  by apply elem_of_nil in Hk.
Qed.

Lemma load_data_loop_spec fuel good :
  ∀ h self l rest,
    Valid h self l →
    Forall (λ d, ∃ n, from_dict d = Ok n) good →
    (length l + length good ≤ fuel)%nat →
    (rest = [] ∨ ∃ bad rest' k, rest = bad :: rest' ∧ from_dict bad = Raise (KeyError k)) →
    ∃ self' h' e,
      load_data_loop fuel self (good ++ rest) h = Ok ((self', e), h') ∧
      Valid h' self' (l ++ seq (length h) (length good)) ∧
      heap_ext h h' ∧
      length h' = (length h + length good)%nat ∧
      (∀ i d, good !! i = Some d →
              ∃ n n', from_dict d = Ok n ∧ h' !! (length h + i)%nat = Some n' ∧
                      task_of n' = task_of n).
Proof.
  induction good as [|d good IH]; intros h self l rest Hv Hgood Hf Hrest.
  - cbn [app length seq]. rewrite app_nil_r.
    assert (∃ e, load_data_loop fuel self rest h = Ok ((self, e), h)) as [e He].
    { destruct Hrest as [->|(bad & rest' & k & -> & Hbad)].
      - by exists None.
      - exists (Some (KeyError k)). cbn. by rewrite Hbad. }
    exists self, h, e. split_and!; [done|done|apply heap_ext_refl|lia|done].
  - apply Forall_cons in Hgood as [[n Hn] Hgood].
    destruct (from_dict_detached _ _ Hn) as [Hnx Hpv].
    destruct (alloc_add_task_node_spec fuel h self l n Hv Hnx Hpv ltac:(cbn in Hf; lia))
      as (self1 & h1 & Hrun & Hv1 & Hext1 & Hlen1 & (n1 & Hn1 & Etask)).
    destruct (IH h1 self1 (l ++ [length h]) rest Hv1 Hgood)
      as (self' & h' & e & Hrun' & Hv' & Hext' & Hlen' & Htasks); [|done|].
    { rewrite length_app. cbn in *. lia. }
    exists self', h', e. split_and!.
    + cbn [app load_data_loop]. rewrite Hn.
      unfold bind, alloc in Hrun. unfold bind at 1 2. unfold alloc.
      rewrite Hrun. exact Hrun'.
    + rewrite Hlen1, <- app_assoc in Hv'. exact Hv'.
    + by eapply heap_ext_trans.
    + cbn [length]. lia.
    + intros i d' Hi. destruct i as [|i].
      * cbn in Hi. injection Hi as <-. destruct (Hext' _ _ Hn1) as (n' & Hn' & E').
        exists n, n'. rewrite Nat.add_0_r. split_and!; [done|done|congruence].
      * cbn in Hi. destruct (Htasks i d' Hi) as (m & m' & Hm & Hm' & Em).
        exists m, m'. split_and!; [done| |done]. rewrite <- Hm'. f_equal. lia.
Qed.

(** * The properties of the specification *)

(** C1. After [sort_by] on the priority key the nodes are in the order of
    decreasing priority value: for every adjacent pair (a, b) from head to
    tail, priorityValue(a) >= priorityValue(b), where [priorityValue] is the
    number [get_value] compares, 3 for high, 2 for medium, 1 for low. *)
Theorem sort_by_priority_descending fuel h self l :
  Valid h self l → (length l < fuel)%nat →
  ∃ self' h' l',
    sort_by fuel self "priority" h = Ok (self', h') ∧
    get_all_tasks fuel self' h' = Ok (l', h') ∧
    l' ≡ₚ l ∧
    (∀ i a b na nb,
        l' !! i = Some a → l' !! S i = Some b →
        h' !! a = Some na → h' !! b = Some nb →
        (priorityValue na >= priorityValue nb)%Z) ∧
    (∀ n, get_value "priority" n = PInt (priorityValue n)) ∧
    (∀ n, priority n = PStr "high" → priorityValue n = 3) ∧
    (∀ n, priority n = PStr "medium" → priorityValue n = 2) ∧
    (∀ n, priority n = PStr "low" → priorityValue n = 1).
Proof.
  intros Hv Hf.
  destruct (sort_by_order "priority" fuel h self l Hv ltac:(done) Hf)
    as (self' & h' & Hrun & Hv' & Hget & Hext).
  set (R := goes_first (key_le "priority" h)) in *.
  pose proof (sort_list_perm R fuel l) as Hp.
  pose proof (sort_list_sorted R fuel l ltac:(lia)) as Hs.
  exists self', h', (sort_list R fuel l). split_and!; [done..| | | | |].
  - intros i a b na nb Hi Hj Hna Hnb.
    pose proof (Sorted_adjacent R _ _ _ _ Hs Hi Hj) as Hab.
    assert (a ∈ l) as Ha by (rewrite <- Hp; by eapply list_elem_of_lookup_2).
    assert (b ∈ l) as Hb by (rewrite <- Hp; by eapply list_elem_of_lookup_2).
    destruct (Valid_is_Some _ _ _ _ Hv Ha) as [na0 Hna0].
    destruct (Valid_is_Some _ _ _ _ Hv Hb) as [nb0 Hnb0].
    rewrite (heap_ext_priorityValue _ _ _ _ _ Hext Hna0 Hna).
    rewrite (heap_ext_priorityValue _ _ _ _ _ Hext Hnb0 Hnb).
    unfold R, goes_first, key_le, prio in Hab. rewrite Hna0, Hnb0 in Hab.
    cbn in Hab. lia.
  - done.
  - intros n E. rewrite priorityValue_cases, E. done.
  - intros n E. rewrite priorityValue_cases, E. done.
  - intros n E. rewrite priorityValue_cases, E. done.
Qed.

Lemma sort_by_priority_descending_witness :
  Valid ex_heap ex_list [0; 1; 2]%nat ∧ (3 < 4)%nat ∧
  ∃ self' h', sort_by 4 ex_list "priority" ex_heap = Ok (self', h') ∧
              get_all_tasks 4 self' h' = Ok ([0; 2; 1]%nat, h').
Proof.
  split; [exact ex_valid|]. split; [lia|].
  destruct (sort_by_priority_descending 4 ex_heap ex_list [0; 1; 2]%nat
              ex_valid ltac:(cbn; lia))
    as (self' & h' & l' & Hrun & Hget & _).
  exists self', h'. split; [exact Hrun|].
  vm_compute in Hrun. injection Hrun as <- <-. reflexivity.
Defined.

(** C2. Every public operation of the container keeps the structural
    invariant: the links are symmetric, the head has no predecessor and the
    tail no successor, the traversal from the head ends without meeting a
    node twice, and [count] is the number of nodes it meets. *)
Theorem operations_preserve_invariant fuel h self l o :
  Valid h self l → op_ok h l o → (length l < fuel)%nat →
  ∃ self' h' l', run_op fuel o self h = Ok (self', h') ∧ Valid h' self' l'.
Proof.
  intros Hv Hok Hf. destruct o as [d p dd|data|a|st| |key]; cbn [run_op op_ok] in *.
  - (* add_task *)
    destruct (alloc_add_task_node_spec fuel h self l
                (TaskNode_init d p dd (PStr "todo") PNone) Hv eq_refl eq_refl ltac:(lia))
      as (self' & h' & Hrun & Hv' & _).
    unfold bind, alloc in Hrun. unfold add_task, bind, alloc. rewrite Hrun.
    by eexists _, _, _.
  - (* a node rebuilt from a record *)
    destruct Hok as [n Hn]. destruct (from_dict_detached _ _ Hn) as [Hnx Hpv].
    destruct (alloc_add_task_node_spec fuel h self l n Hv Hnx Hpv ltac:(lia))
      as (self' & h' & Hrun & Hv' & _).
    rewrite Hn. unfold bind, alloc in Hrun. unfold lift, bind, alloc. rewrite Hrun.
    by eexists _, _, _.
  - (* delete_task_node *)
    apply list_elem_of_split in Hok as (l1 & l2 & ->).
    pose proof Hv as [Hd Hc]%Valid_dll.
    destruct (delete_task_node_spec h self l1 a l2 Hd)
      as (hd' & h' & Hrun & Hd' & _).
    rewrite Hrun. eexists _, h', (l1 ++ l2). split; [done|].
    apply Valid_dll. split; [done|]. cbn. rewrite !length_app in *. cbn in Hc. lia.
  - (* get_tasks_by_status *)
    pose proof Hv as [Hd Hc]%Valid_dll. unfold get_tasks_by_status.
    rewrite (bind_ok _ _ _ _ _ (get_tasks_by_status_loop_spec fuel h None _ l st [] Hd Hf)).
    by exists self, h, l.
  - (* the sweep *)
    destruct (refresh_ui_loop_sweep fuel h self l Hv Hf) as (self' & h' & Hrun & Hv' & _).
    by eexists _, _, _.
  - (* sort_by *)
    destruct (sort_by_order key fuel h self l Hv Hok Hf)
      as (self' & h' & Hrun & Hv' & _).
    by eexists _, _, _.
Qed.

Lemma operations_preserve_invariant_witness :
  Valid ex_heap ex_list [0; 1; 2]%nat ∧ op_ok ex_heap [0; 1; 2]%nat (OpDelete 1%nat) ∧
  (3 < 4)%nat ∧
  ∃ self' h' l', run_op 4 (OpDelete 1%nat) ex_list ex_heap = Ok (self', h') ∧
                 Valid h' self' l'.
Proof.
  assert (op_ok ex_heap [0; 1; 2]%nat (OpDelete 1%nat)) as Hok by (right; left).
  split; [exact ex_valid|]. split; [exact Hok|]. split; [lia|].
  exact (operations_preserve_invariant 4 ex_heap ex_list [0; 1; 2]%nat (OpDelete 1%nat)
           ex_valid Hok ltac:(cbn; lia)).
Defined.

(** C3. The sort is stable and idempotent: the nodes with one and the same
    sort value keep the order they had, so that on a container whose nodes
    all have the same sort key the order of the nodes is unchanged, and a
    second [sort_by] with the same key leaves the order that the first one
    gave.  Under the due-date key the due dates are None or strings. *)
Theorem sort_by_stable_idempotent key fuel h self l :
  Valid h self l →
  (key = "due_date"%string → ∀ a n, a ∈ l → h !! a = Some n → dated n) →
  (length l < fuel)%nat →
  ∃ self1 h1 l1,
    sort_by fuel self key h = Ok (self1, h1) ∧
    get_all_tasks fuel self1 h1 = Ok (l1, h1) ∧
    (∀ v, filter (λ a, sort_value key h1 a = v) l1
          = filter (λ a, sort_value key h a = v) l) ∧
    ((∀ a b na nb, a ∈ l → b ∈ l → h !! a = Some na → h !! b = Some nb →
                   get_value key na = get_value key nb) → l1 = l) ∧
    ∃ self2 h2,
      sort_by fuel self1 key h1 = Ok (self2, h2) ∧
      get_all_tasks fuel self2 h2 = Ok (l1, h2).
Proof.
  intros Hv Hdated Hf.
  destruct (sort_by_order key fuel h self l Hv Hdated Hf)
    as (self1 & h1 & Hrun & Hv1 & Hget & Hext).
  set (R := goes_first (key_le key h)) in *.
  pose proof (sort_list_perm R fuel l) as Hp.
  pose proof (sort_list_sorted R fuel l ltac:(lia)) as Hs.
  exists self1, h1, (sort_list R fuel l). split_and!; [done..| | |].
  - (* nodes with the same value *)
    intros v.
    rewrite <- (sort_list_filter R (λ a, sort_value key h a = v) fuel l); [|..|lia].
    + apply filter_ext_in. intros a Ha. rewrite Hp in Ha.
      by rewrite (sort_value_ext key h h1 a Hext (Valid_is_Some _ _ _ _ Hv Ha)).
    + intros x y Hx Hy. apply key_le_same_value. congruence.
  - (* equal keys *)
    intros Heq. apply sort_list_id. apply StronglySorted_all. intros a b Ha Hb.
    destruct (Valid_is_Some _ _ _ _ Hv Ha) as [na Hna].
    destruct (Valid_is_Some _ _ _ _ Hv Hb) as [nb Hnb].
    specialize (Heq a b na nb Ha Hb Hna Hnb).
    unfold R, goes_first, key_le, prio, due. rewrite Hna, Hnb. cbn [from_option].
    destruct (String.eqb_spec key "priority") as [->|Hk1].
    + rewrite !get_value_priority in Heq. injection Heq as ->. lia.
    + destruct (String.eqb_spec key "due_date") as [->|Hk2]; [|done].
      rewrite (get_value_due_date na), (get_value_due_date nb) in Heq
        by (eapply Hdated; [done| |done]; done).
      injection Heq as ->. by destruct (String.leb_total (dueDateOrMax nb) (dueDateOrMax nb)).
  - (* a second sort *)
    assert (∀ a, a ∈ sort_list R fuel l → is_Some (h !! a)) as Hin.
    { intros a Ha. rewrite Hp in Ha. by eapply Valid_is_Some. }
    destruct (sort_by_order key fuel h1 self1 (sort_list R fuel l) Hv1)
      as (self2 & h2 & Hrun2 & Hv2 & Hget2 & Hext2).
    { intros Hk a n1 Ha Hn1. destruct (Hin a Ha) as [n Hn]. unfold dated.
      rewrite (heap_ext_due_date _ _ _ _ _ Hext Hn Hn1). apply (Hdated Hk a n); [|done].
      by rewrite <- Hp. }
    { by rewrite Hp. }
    assert (sort_list (goes_first (key_le key h1)) fuel (sort_list R fuel l)
            = sort_list R fuel l) as E.
    { apply sort_list_id. apply (StronglySorted_ext_in R).
      - intros a b Ha Hb Hab. unfold goes_first.
        rewrite (key_le_ext key h h1) by auto. done.
      - apply Sorted_StronglySorted; [apply _|done]. }
    rewrite E in Hv2, Hget2. by exists self2, h2.
Qed.

Lemma sort_by_stable_idempotent_witness :
  Valid ex_heap ex_list [0; 1; 2]%nat ∧ (3 < 4)%nat ∧
  ∃ self1 h1 self2 h2,
    sort_by 4 ex_list "due_date" ex_heap = Ok (self1, h1) ∧
    sort_by 4 self1 "due_date" h1 = Ok (self2, h2).
Proof.
  split; [exact ex_valid|]. split; [lia|].
  destruct (sort_by_stable_idempotent "due_date" 4 ex_heap ex_list [0; 1; 2]%nat ex_valid)
    as (self1 & h1 & l1 & Hrun & _ & _ & _ & self2 & h2 & Hrun2 & _).
  - intros _ a n Ha Hn.
    repeat (apply elem_of_cons in Ha as [->|Ha]); try (by apply elem_of_nil in Ha);
      cbn in Hn; injection Hn as <-; exact I.
  - cbn. lia.
  - by exists self1, h1, self2, h2.
Defined.

(** C4, as the code has it.  After [sort_by] on the due-date key, for every
    adjacent pair (a, b) from head to tail, dueDateOrMax(a) <= dueDateOrMax(b)
    in the lexical order of strings, where [dueDateOrMax] is the due date,
    or "9999-12-31" for a task whose due date is None or empty; every such
    undated task comes after every task whose due date is lexically below
    "9999-12-31". *)
Theorem sort_by_due_date_ascending fuel h self l :
  Valid h self l →
  (∀ a n, a ∈ l → h !! a = Some n → dated n) →
  (length l < fuel)%nat →
  ∃ self' h' l',
    sort_by fuel self "due_date" h = Ok (self', h') ∧
    get_all_tasks fuel self' h' = Ok (l', h') ∧
    l' ≡ₚ l ∧
    (∀ i a b na nb,
        l' !! i = Some a → l' !! S i = Some b →
        h' !! a = Some na → h' !! b = Some nb →
        String.leb (dueDateOrMax na) (dueDateOrMax nb) = true) ∧
    (∀ n, dated n → get_value "due_date" n = PStr (dueDateOrMax n)) ∧
    (∀ n, truthy (due_date n) = false → dueDateOrMax n = "9999-12-31"%string) ∧
    (∀ i j a b na nb s,
        l' !! i = Some a → l' !! j = Some b →
        h' !! a = Some na → h' !! b = Some nb →
        truthy (due_date na) = false →
        due_date nb = PStr s → s ≠ ""%string →
        String.ltb s "9999-12-31" = true →
        (j < i)%nat).
Proof.
  intros Hv Hdated Hf.
  destruct (sort_by_order "due_date" fuel h self l Hv ltac:(auto) Hf)
    as (self' & h' & Hrun & Hv' & Hget & Hext).
  set (R := goes_first (key_le "due_date" h)) in *.
  pose proof (sort_list_perm R fuel l) as Hp.
  pose proof (sort_list_sorted R fuel l ltac:(lia)) as Hs.
  assert (∀ a na, a ∈ sort_list R fuel l → h' !! a = Some na →
                  due h a = dueDateOrMax na) as Hdue.
  { intros a na Ha Hna. rewrite Hp in Ha.
    destruct (Valid_is_Some _ _ _ _ Hv Ha) as [na0 Hna0].
    unfold due. rewrite Hna0. cbn. unfold dueDateOrMax.
    by rewrite (heap_ext_due_date _ _ _ _ _ Hext Hna0 Hna). }
  assert (∀ n, truthy (due_date n) = false → dueDateOrMax n = "9999-12-31"%string)
    as Hund.
  { intros n. unfold dueDateOrMax. destruct (due_date n) as [|z|s]; [done..|].
    cbn. by destruct (String.eqb s ""). }
  exists self', h', (sort_list R fuel l). split_and!; [done..| | | |].
  - intros i a b na nb Hi Hj Hna Hnb.
    pose proof (Sorted_adjacent R _ _ _ _ Hs Hi Hj) as Hab.
    unfold R, goes_first, key_le in Hab. cbn in Hab.
    rewrite (Hdue a na ltac:(by eapply list_elem_of_lookup_2) Hna) in Hab.
    by rewrite (Hdue b nb ltac:(by eapply list_elem_of_lookup_2) Hnb) in Hab.
  - apply get_value_due_date.
  - done.
  - intros i j a b na nb s Hi Hj Hna Hnb Hua Hdb Hs0 Hlt.
    destruct (decide (j < i)%nat) as [|Hji]; [done|]. exfalso.
    assert (dueDateOrMax nb = s) as Eb.
    { unfold dueDateOrMax. rewrite Hdb. by apply String.eqb_neq in Hs0 as ->. }
    destruct (decide (i = j)) as [->|Hij].
    + assert (nb = na) as -> by congruence. rewrite Hdb in Hua. cbn in Hua.
      apply String.eqb_neq in Hs0. by rewrite Hs0 in Hua.
    + apply Sorted_StronglySorted in Hs; [|apply _].
      pose proof (StronglySorted_lookup R _ i j a b Hs Hi Hj ltac:(lia)) as Hab.
      unfold R, goes_first, key_le in Hab. cbn in Hab.
      rewrite (Hdue a na ltac:(by eapply list_elem_of_lookup_2) Hna) in Hab.
      rewrite (Hdue b nb ltac:(by eapply list_elem_of_lookup_2) Hnb) in Hab.
      rewrite (Hund na Hua), Eb in Hab.
      unfold String.ltb in Hlt. unfold String.leb in Hab.
      rewrite String.compare_antisym in Hab.
      by destruct (String.compare s "9999-12-31").
Qed.

Lemma sort_by_due_date_ascending_witness :
  Valid ex_heap ex_list [0; 1; 2]%nat ∧
  (∀ a n, a ∈ [0; 1; 2]%nat → ex_heap !! a = Some n → dated n) ∧
  (3 < 4)%nat ∧
  ∃ self' h', sort_by 4 ex_list "due_date" ex_heap = Ok (self', h') ∧
              get_all_tasks 4 self' h' = Ok ([0; 1; 2]%nat, h').
Proof.
  assert (∀ a n, a ∈ [0; 1; 2]%nat → ex_heap !! a = Some n → dated n) as Hdated.
  { intros a n Ha Hn.
    repeat (apply elem_of_cons in Ha as [->|Ha]); try (by apply elem_of_nil in Ha);
      cbn in Hn; injection Hn as <-; exact I. }
  split; [exact ex_valid|]. split; [exact Hdated|]. split; [lia|].
  destruct (sort_by_due_date_ascending 4 ex_heap ex_list [0; 1; 2]%nat
              ex_valid Hdated ltac:(cbn; lia))
    as (self' & h' & l' & Hrun & Hget & _).
  exists self', h'. split; [exact Hrun|].
  vm_compute in Hrun. injection Hrun as <- <-. reflexivity.
Defined.

(** C4 fails as stated: the undated task stays in front of the task due on
    9999-12-31, the two having the same sort value. *)
Lemma sort_by_due_date_undated_not_last :
  Valid late_heap late_list [0; 1]%nat ∧
  ∃ self' h',
    sort_by 3 late_list "due_date" late_heap = Ok (self', h') ∧
    get_all_tasks 3 self' h' = Ok ([0; 1]%nat, h') ∧
    ¬ undated_last h' [0; 1]%nat.
Proof.
  split.
  { apply Valid_dll. split; [|done]. unfold dll. cbn. repeat (split || eexists). }
  eexists _, _. split; [vm_compute; reflexivity|]. split; [reflexivity|].
  intros H.
  specialize (H 0%nat 1%nat 0%nat 1%nat _ _ eq_refl eq_refl eq_refl eq_refl eq_refl).
  cbn in H. specialize (H ltac:(by eexists)). lia.
Qed.

(** C5. The sweep of [refresh_ui] removes exactly the nodes marked
    "deleted": the nodes left are the unmarked ones, in the order they had,
    and [count] goes down by the number of marked nodes, whichever nodes are
    marked, adjacent ones included; without a marked node nothing changes. *)
Theorem refresh_ui_sweep fuel h self xp_gain l :
  Valid h (task_list self) l → (length l < fuel)%nat →
  ∃ self' h',
    refresh_ui fuel self xp_gain h = Ok (self', h') ∧
    Valid h' (task_list self')
          (filter (λ a, has_status h (PStr "deleted") a = false) l) ∧
    get_all_tasks fuel (task_list self') h'
      = Ok (filter (λ a, has_status h (PStr "deleted") a = false) l, h') ∧
    count (task_list self')
      = count (task_list self)
        - Z.of_nat (length (filter (λ a, has_status h (PStr "deleted") a = true) l)) ∧
    heap_ext h h' ∧
    ((∀ a, a ∈ l → has_status h (PStr "deleted") a = false) →
     h' = h ∧ task_list self' = task_list self).
Proof.
  intros Hv Hf.
  destruct (refresh_ui_loop_sweep fuel h (task_list self) l Hv Hf)
    as (tl' & h' & Hrun & Hv' & Hcount & Hext & Hnop).
  unfold refresh_ui. rewrite (bind_ok _ _ _ _ _ Hrun).
  eexists _, h'. split; [reflexivity|]. cbn [task_list]. split_and!; [done| |done..].
  apply Valid_get_all_tasks; [done|].
  pose proof (length_filter_bool (has_status h (PStr "deleted")) l). lia.
Qed.

Lemma refresh_ui_sweep_witness :
  Valid swept_heap (task_list swept_app) [0; 1; 2; 3]%nat ∧ (4 < 5)%nat ∧
  ∃ self' h',
    refresh_ui 5 swept_app 0 swept_heap = Ok (self', h') ∧
    get_all_tasks 5 (task_list self') h' = Ok ([0; 3]%nat, h') ∧
    count (task_list self') = 2.
Proof.
  assert (Valid swept_heap (task_list swept_app) [0; 1; 2; 3]%nat) as Hv.
  { apply Valid_dll. split; [|done]. unfold dll. cbn. repeat (split || eexists). }
  split; [exact Hv|]. split; [lia|].
  destruct (refresh_ui_sweep 5 swept_heap swept_app 0 [0; 1; 2; 3]%nat Hv ltac:(cbn; lia))
    as (self' & h' & Hrun & _ & Hget & Hcount & _).
  exists self', h'. split; [exact Hrun|]. split; [exact Hget|exact Hcount].
Defined.

(** C6, as the code has it.  [delete_task_node] with None changes nothing.
    With a node that is not in the container, and whose neighbours, if it
    has any, are not in the container either, the nodes of the container and
    their links stay as they are (the container as it was is still valid in
    the new heap), but [count] still goes down by one; for a node without
    neighbours the heap is unchanged. *)
Theorem delete_task_node_foreign h self l a n :
  Valid h self l → a ∉ l → h !! a = Some n →
  (∀ b, prev n = Some b → (b ∉ l) ∧ is_Some (h !! b)) →
  (∀ c, next n = Some c → (c ∉ l) ∧ is_Some (h !! c)) →
  delete_task_node self None h = Ok (self, h) ∧
  ∃ h',
    delete_task_node self (Some a) h
      = Ok ({| head := head self; count := count self - 1 |}, h') ∧
    (∀ x, x ∈ l → h' !! x = h !! x) ∧
    Valid h' self l ∧
    (prev n = None → next n = None → h' = h).
Proof.
  intros Hv Ha Hn Hprev Hnext. split; [done|].
  pose proof Hv as [Hd Hc]%Valid_dll.
  assert (∀ h', dll h' (head self) l → Valid h' self l) as Hback.
  { intros h' Hd'. by apply Valid_dll. }
  assert (Some a ≠ head self) as Hne.
  { apply dlseg_first in Hd. rewrite Hd. destruct (l !! 0%nat) as [x|] eqn:Ex; [|done].
    intros [= <-]. apply Ha. by eapply list_elem_of_lookup_2. }
  unfold delete_task_node. rewrite decide_False by done.
  msimpl. rewrite (get_prev_ok _ _ _ Hn).
  destruct (prev n) as [b|] eqn:Epv.
  - (* the node has a predecessor *)
    destruct (Hprev b eq_refl) as [Hbl [bn Hbn]].
    rewrite (get_next_ok _ _ _ Hn), (set_next_ok _ _ _ _ Hbn).
    set (h1 := <[b := with_next bn (next n)]> h).
    assert (∃ n1, h1 !! a = Some n1 ∧ next n1 = next n) as (n1 & Hn1 & Hnx1).
    { destruct (decide (b = a)) as [->|Hba].
      - assert (bn = n) as -> by congruence.
        exists (with_next n (next n)). split; [by eapply lookup_upd_eq|done].
      - exists n. unfold h1. by rewrite lookup_upd_ne. }
    assert (∀ x, x ∈ l → h1 !! x = h !! x) as Hfr1.
    { intros x Hx. apply lookup_upd_ne. by intros ->. }
    rewrite (get_next_ok _ _ _ Hn1), Hnx1.
    destruct (next n) as [c|] eqn:Enx.
    + destruct (Hnext c eq_refl) as [Hcl [cn Hcn]].
      destruct (lookup_lt_is_Some_2 h1 c) as [cn1 Hcn1].
      { unfold h1. rewrite length_insert. by eapply lookup_lt_Some. }
      rewrite (get_prev_ok _ _ _ Hn1), (set_prev_ok _ _ _ _ Hcn1).
      eexists. split; [reflexivity|]. split_and!.
      * intros x Hx. rewrite lookup_upd_ne by (by intros ->). by apply Hfr1.
      * apply Hback, (dlseg_frame h); [|done]. intros x Hx.
        rewrite lookup_upd_ne by (by intros ->). by apply Hfr1.
      * done.
    + eexists. split; [reflexivity|]. split_and!.
      * done.
      * by apply Hback, (dlseg_frame h).
      * done.
  - (* the node has no predecessor *)
    rewrite (get_next_ok _ _ _ Hn).
    destruct (next n) as [c|] eqn:Enx.
    + destruct (Hnext c eq_refl) as [Hcl [cn Hcn]].
      rewrite (get_prev_ok _ _ _ Hn), (set_prev_ok _ _ _ _ Hcn).
      eexists. split; [reflexivity|]. split_and!.
      * intros x Hx. apply lookup_upd_ne. by intros ->.
      * apply Hback, (dlseg_frame h); [|done]. intros x Hx. apply lookup_upd_ne.
        by intros ->.
      * done.
    + exists h. split_and!; [done|done|done|done].
Qed.

Lemma delete_task_node_foreign_witness :
  Valid foreign_heap ex_list [0; 1; 2]%nat ∧ (3%nat ∉ [0; 1; 2]%nat) ∧
  delete_task_node ex_list (Some 3%nat) foreign_heap
    = Ok ({| head := Some 0%nat; count := 2 |}, foreign_heap).
Proof.
  assert (3%nat ∉ [0; 1; 2]%nat) as Hnot.
  { intros Hin. repeat (apply elem_of_cons in Hin as [Hin|Hin]; [discriminate Hin|]).
    by apply elem_of_nil in Hin. }
  split; [exact foreign_valid|]. split; [exact Hnot|].
  destruct (delete_task_node_foreign foreign_heap ex_list [0; 1; 2]%nat 3%nat
              (TaskNode_init (PStr "D") (PStr "low") PNone (PStr "todo") PNone)
              foreign_valid Hnot eq_refl
              ltac:(intros b Hb; discriminate Hb) ltac:(intros c Hc; discriminate Hc))
    as (_ & h' & Hrun & _ & _ & Hsame).
  rewrite Hrun. by rewrite (Hsame eq_refl eq_refl).
Defined.

(** C6 fails as stated: removing a node that is not in the container
    changes [count], here from 3 to 2 with three nodes still linked. *)
Lemma foreign_delete_changes_count :
  Valid foreign_heap ex_list [0; 1; 2]%nat ∧ (3%nat ∉ [0; 1; 2]%nat) ∧
  ∃ self' h',
    delete_task_node ex_list (Some 3%nat) foreign_heap = Ok (self', h') ∧
    get_all_tasks 4 self' h' = Ok ([0; 1; 2]%nat, h') ∧
    count self' ≠ count ex_list ∧
    ¬ Valid h' self' [0; 1; 2]%nat.
Proof.
  split; [exact foreign_valid|]. split.
  { intros Hin. repeat (apply elem_of_cons in Hin as [Hin|Hin]; [discriminate Hin|]).
    by apply elem_of_nil in Hin. }
  eexists _, _. split; [vm_compute; reflexivity|]. split; [reflexivity|].
  split; [done|]. intros [_ _ _ _ _ _ Hc]. discriminate Hc.
Qed.

(** C7, as the code has it.  [from_dict (to_dict t)] gives back the
    description, status, priority, due date and XP value of [t]; the tags
    are not written to the record, and the task read back has none. *)
Theorem from_dict_to_dict t :
  xp_value t ≠ PNone →
  from_dict (to_dict t)
    = Ok (mkTaskNode (description t) (status t) (priority t) (due_date t) []
                     (xp_value t) None None).
Proof.
  intros Hxp. unfold from_dict, to_dict, getitem, obind.
  rewrite !lookup_insert, ?lookup_singleton. cbn.
  unfold TaskNode_init. by destruct (xp_value t).
Qed.

Lemma from_dict_to_dict_witness :
  PInt 100 ≠ PNone ∧
  ∃ t', from_dict (to_dict (mkTaskNode (PStr "A") (PStr "todo") (PStr "high")
                                       (PStr "2025-01-01") [] (PInt 100)
                                       (Some 1%nat) None)) = Ok t'.
Proof.
  split; [discriminate|]. eexists.
  exact (from_dict_to_dict (mkTaskNode (PStr "A") (PStr "todo") (PStr "high")
                                       (PStr "2025-01-01") [] (PInt 100)
                                       (Some 1%nat) None) ltac:(discriminate)).
Defined.

(** C7 fails as stated: the tags of a task do not survive the round trip. *)
Lemma round_trip_drops_tags :
  let t := mkTaskNode (PStr "A") (PStr "todo") (PStr "high") PNone
                      ["urgent"%string] (PInt 100) None None in
  ∃ t', from_dict (to_dict t) = Ok t' ∧ tags t' = [] ∧ tags t' ≠ tags t ∧ t' ≠ t.
Proof.
  cbn zeta. eexists. split; [vm_compute; reflexivity|]. cbn. split_and!; done.
Qed.

(** C8, as the code has it.  A record without one of the fields that
    [from_dict] reads raises KeyError.  When [load_data] meets such a record
    the loading ends there: the records before it have been appended in the
    order of the file, no node is made for that record or for any record
    after it, and [load_data] returns normally. *)
Theorem load_data_stops_at_missing_field fuel self xp good bad rest h l k :
  Valid h (task_list self) l →
  Forall (λ d, ∃ n, from_dict d = Ok n) good →
  k ∈ required_fields → bad !! k = None →
  (length l + length good ≤ fuel)%nat →
  (∃ k', from_dict bad = Raise (KeyError k') ∧
         k' ∈ required_fields ∧ bad !! k' = None) ∧
  ∃ self' h',
    load_data fuel self {| data_total_xp := xp;
                           data_tasks := Some (good ++ bad :: rest) |} h
      = Ok (self', h') ∧
    Valid h' (task_list self') (l ++ seq (length h) (length good)) ∧
    length h' = (length h + length good)%nat ∧
    (∀ i d, good !! i = Some d →
            ∃ n n', from_dict d = Ok n ∧ h' !! (length h + i)%nat = Some n' ∧
                    task_of n' = task_of n) ∧
    total_xp self' = default 0 xp.
Proof.
  intros Hv Hgood Hk Hnone Hf.
  destruct (from_dict_missing bad k Hk Hnone) as (k' & Hbad & Hk' & Hnone').
  split; [by exists k'|].
  destruct (load_data_loop_spec fuel good h (task_list self) l (bad :: rest) Hv Hgood Hf)
    as (self' & h' & e & Hrun & Hv' & _ & Hlen & Htasks).
  { right. by exists bad, rest, k'. }
  unfold load_data. cbn [data_tasks data_total_xp default].
  rewrite (bind_ok _ _ _ _ _ Hrun).
  eexists _, h'. split; [reflexivity|]. by split_and!.
Qed.

Lemma load_data_stops_at_missing_field_witness :
  Valid [] (task_list empty_app) [] ∧
  Forall (λ d, ∃ n, from_dict d = Ok n) [good_record] ∧
  "status"%string ∈ required_fields ∧ bad_record !! "status"%string = None ∧
  (0 + 1 ≤ 2)%nat ∧
  ∃ self' h',
    load_data 2 empty_app {| data_total_xp := Some 30;
                             data_tasks := Some ([good_record] ++ bad_record :: [good_record]) |} []
      = Ok (self', h') ∧
    length h' = 1%nat.
Proof.
  assert (Forall (λ d, ∃ n, from_dict d = Ok n) [good_record]) as Hgood.
  { constructor; [|constructor]. eexists. vm_compute. reflexivity. }
  assert ("status"%string ∈ required_fields) as Hk by (right; left).
  assert (bad_record !! "status"%string = None) as Hnone by (vm_compute; reflexivity).
  split; [exact empty_valid|]. split; [exact Hgood|]. split; [exact Hk|].
  split; [exact Hnone|]. split; [lia|].
  destruct (load_data_stops_at_missing_field 2 empty_app (Some 30) [good_record]
              bad_record [good_record] [] [] "status" empty_valid Hgood Hk Hnone
              ltac:(cbn; lia))
    as (_ & self' & h' & Hrun & _ & Hlen & _).
  by exists self', h'.
Defined.

(** C8 fails as stated: the complete record that follows the record
    without a status is not loaded, the container stays empty. *)
Lemma load_data_does_not_skip :
  (∃ n, from_dict good_record = Ok n) ∧
  from_dict bad_record = Raise (KeyError "status") ∧
  ∃ self' h',
    load_data 2 empty_app {| data_total_xp := Some 30;
                             data_tasks := Some [bad_record; good_record] |} []
      = Ok (self', h') ∧
    get_all_tasks 2 (task_list self') h' = Ok ([], h') ∧
    count (task_list self') = 0.
Proof.
  split; [eexists; vm_compute; reflexivity|].
  split; [vm_compute; reflexivity|].
  eexists _, _. split; [vm_compute; reflexivity|]. split; reflexivity.
Qed.

(** C9. Split of a non-empty segment of [n] nodes: the left half gets
    [(n + 1) / 2] nodes, the right half [n / 2], so an odd [n] leaves the
    extra node on the left; the halves are detached: the last node of the
    left half has a null [next], and the first node of the right half, when
    there is one, has a null [prev]. *)
Theorem split_halves fuel h p a l :
  let l0 := a :: l in
  dlseg h p (Some a) l0 None → (length l0 ≤ 2 * fuel)%nat →
  ∃ h' second left_half right_half,
    _split fuel (Some a) h = Ok ((Some a, second), h') ∧
    l0 = left_half ++ right_half ∧
    length left_half = ((length l0 + 1) / 2)%nat ∧
    length right_half = (length l0 / 2)%nat ∧
    length left_half = (length right_half + length l0 mod 2)%nat ∧
    dlseg h' p (Some a) left_half None ∧
    dlseg h' None second right_half None ∧
    (∀ s n, last left_half = Some s → h' !! s = Some n → next n = None) ∧
    (∀ c n, second = Some c → h' !! c = Some n → prev n = None).
Proof.
  intros l0 Hd Hf.
  destruct (_split_spec fuel h p a l Hd Hf) as (h' & second & Hrun & HL & HR & _).
  fold l0 in HL, HR. set (k := half (length l0)) in *.
  exists h', second, (take k l0), (drop k l0).
  assert (length (take k l0) = k) as Hlk.
  { rewrite length_take. pose proof (half_bounds (length l0)). fold k in H.
    assert (1 ≤ length l0)%nat by (cbn; lia). lia. }
  assert (k = ((length l0 + 1) / 2)%nat) as Ek by done.
  pose proof (Nat.div_mod_eq (length l0 + 1) 2) as E1.
  pose proof (Nat.mod_upper_bound (length l0 + 1) 2) as B1.
  pose proof (Nat.div_mod_eq (length l0) 2) as E2.
  pose proof (Nat.mod_upper_bound (length l0) 2) as B2.
  split_and!.
  - done.
  - by rewrite take_drop.
  - by rewrite Hlk.
  - rewrite length_drop. lia.
  - rewrite Hlk, length_drop. lia.
  - done.
  - done.
  - intros s n Hs Hn. apply last_Some in Hs as [l' El]. rewrite El in HL.
    apply dlseg_app in HL as (m & _ & (_ & n' & Hn' & _ & Hq)). cbn in Hq. congruence.
  - intros c n -> Hn. destruct (drop k l0) as [|c' r]; [done|].
    destruct HR as ([= <-] & n' & Hn' & Hp & _). congruence.
Qed.

Lemma split_halves_witness :
  dlseg ex_heap None (Some 0%nat) [0; 1; 2]%nat None ∧ (3 ≤ 2 * 2)%nat ∧
  ∃ h', _split 2 (Some 0%nat) ex_heap = Ok ((Some 0%nat, Some 2%nat), h').
Proof.
  split; [exact ex_dll|]. split; [lia|].
  destruct (split_halves 2 ex_heap None 0%nat [1; 2]%nat ex_dll ltac:(cbn; lia))
    as (h' & second & lh & rh & Hrun & _).
  exists h'. rewrite Hrun. vm_compute in Hrun. by injection Hrun as <- <-.
Defined.

(** C10. [sort_by] on the priority key works for any priority values: a
    task whose priority is none of high, medium, low is compared with the
    value 0, so after the sort every such task comes after every task with a
    known priority, and these tasks keep the order they had among
    themselves. *)
Theorem sort_by_priority_unrecognized fuel h self l :
  Valid h self l → (length l < fuel)%nat →
  ∃ self' h' l',
    sort_by fuel self "priority" h = Ok (self', h') ∧
    get_all_tasks fuel self' h' = Ok (l', h') ∧
    (∀ n, recognized n = false → get_value "priority" n = PInt 0) ∧
    (∀ i j a b na nb,
        l' !! i = Some a → l' !! j = Some b →
        h' !! a = Some na → h' !! b = Some nb →
        recognized na = false → recognized nb = true →
        (j < i)%nat) ∧
    filter (λ a, unrecognized_at h' a = true) l'
      = filter (λ a, unrecognized_at h a = true) l.
Proof.
  intros Hv Hf.
  destruct (sort_by_order "priority" fuel h self l Hv ltac:(done) Hf)
    as (self' & h' & Hrun & Hv' & Hget & Hext).
  set (R := goes_first (key_le "priority" h)) in *.
  pose proof (sort_list_perm R fuel l) as Hp.
  pose proof (sort_list_sorted R fuel l ltac:(lia)) as Hs.
  assert (∀ a na, a ∈ sort_list R fuel l → h' !! a = Some na →
                  prio h a = priorityValue na ∧
                  unrecognized_at h a = negb (recognized na)) as Hprio.
  { intros a na Ha Hna. rewrite Hp in Ha.
    destruct (Valid_is_Some _ _ _ _ Hv Ha) as [na0 Hna0].
    destruct (Hext _ _ Hna0) as (na' & Hna' & E). assert (na' = na) as -> by congruence.
    apply task_of_fields in E as (_ & _ & E & _).
    unfold prio, unrecognized_at. rewrite Hna0. cbn.
    unfold priorityValue, recognized. by rewrite E. }
  exists self', h', (sort_list R fuel l). split_and!; [done..| | |].
  - intros n Hn. rewrite get_value_priority. pose proof (recognized_value n) as Hr.
    rewrite Hn in Hr. by rewrite Hr.
  - intros i j a b na nb Hi Hj Hna Hnb Hua Hrb.
    destruct (decide (j < i)%nat) as [|Hji]; [done|]. exfalso.
    destruct (decide (i = j)) as [->|Hij].
    + assert (nb = na) as -> by congruence. congruence.
    + apply Sorted_StronglySorted in Hs; [|apply _].
      pose proof (StronglySorted_lookup R _ i j a b Hs Hi Hj ltac:(lia)) as Hab.
      unfold R, goes_first, key_le in Hab. cbn in Hab.
      destruct (Hprio a na ltac:(by eapply list_elem_of_lookup_2) Hna) as [Ea _].
      destruct (Hprio b nb ltac:(by eapply list_elem_of_lookup_2) Hnb) as [Eb _].
      rewrite Ea, Eb in Hab.
      pose proof (recognized_value na) as Ha0. rewrite Hua in Ha0.
      pose proof (recognized_value nb) as Hb0. rewrite Hrb in Hb0. lia.
  - rewrite <- (sort_list_filter R (λ a, unrecognized_at h a = true) fuel l); [|..|lia].
    + apply filter_ext_in. intros a Ha.
      destruct (Valid_is_Some _ _ _ _ Hv' Ha) as [na Hna].
      destruct (Hprio a na Ha Hna) as [_ ->]. unfold unrecognized_at. by rewrite Hna.
    + intros x y Hx Hy. unfold R, goes_first, key_le, prio. cbn.
      unfold unrecognized_at in Hx, Hy.
      destruct (h !! x) as [nx|]; [|done]. destruct (h !! y) as [ny|]; [|done]. cbn.
      pose proof (recognized_value nx) as Hx0. pose proof (recognized_value ny) as Hy0.
      destruct (recognized nx); [done|]. destruct (recognized ny); [done|]. lia.
Qed.

Lemma sort_by_priority_unrecognized_witness :
  ∃ self' h' l',
    sort_by 5 unknown_list "priority" unknown_heap = Ok (self', h') ∧
    get_all_tasks 5 self' h' = Ok (l', h') ∧
    (∀ n, recognized n = false → get_value "priority" n = PInt 0) ∧
    (∀ i j a b na nb,
        l' !! i = Some a → l' !! j = Some b →
        h' !! a = Some na → h' !! b = Some nb →
        recognized na = false → recognized nb = true →
        (j < i)%nat) ∧
    filter (λ a, unrecognized_at h' a = true) l' = [0; 2]%nat.
Proof.
  refine (sort_by_priority_unrecognized 5 unknown_heap unknown_list [0; 1; 2; 3]%nat
            _ ltac:(cbn; lia)).
  apply Valid_dll. split; [|done]. unfold dll. cbn. repeat (split || eexists).
Defined.

(** * Further properties of the code *)

(** ** Nodes of a valid container *)

Lemma Valid_split_notin h self l1 a l2 :
  Valid h self (l1 ++ a :: l2) → a ∉ l1 ++ l2.
Proof.
  intros Hv. pose proof (valid_NoDup _ _ _ Hv) as Hnd.
  apply NoDup_app in Hnd as (_ & Hnd12 & Hnd2).
  apply NoDup_cons in Hnd2 as (Hal2 & _).
  rewrite elem_of_app. intros [Hin|Hin]; [|done].
  apply (Hnd12 _ Hin). left.
Qed.

Lemma xp_table_cases (s : string) :
  dict_get xp_table (PStr s) 20
  = if decide (s = "high"%string) then 100
    else if decide (s = "medium"%string) then 50 else 20.
Proof.
  unfold dict_get, xp_table.
  destruct (decide (s = "high"%string)) as [->|H1]; [done|].
  destruct (decide (s = "medium"%string)) as [->|H2]; [done|].
  destruct (decide (s = "low"%string)) as [->|H3]; [done|].
  by rewrite !lookup_insert_ne, lookup_singleton_ne by done.
Qed.

(** X1. [add_task] on a container of [l] makes one node, puts it after the
    last node of [l] and returns it: the traversal gives [l] and then the new
    node, [count] goes up by one, and no task that was there changes.  The
    new task has the status "todo", no tags and the given description,
    priority and due date; its XP is 100 for the priority "high", 50 for
    "medium" and 20 for any other priority. *)
Theorem add_task_appends fuel h self l d p dd :
  Valid h self l → (length l ≤ fuel)%nat →
  ∃ self' h' n,
    add_task fuel self d p dd h = Ok ((self', length h), h') ∧
    Valid h' self' (l ++ [length h]) ∧
    get_all_tasks (S (S fuel)) self' h' = Ok (l ++ [length h], h') ∧
    count self' = count self + 1 ∧
    heap_ext h h' ∧
    h' !! length h = Some n ∧
    description n = d ∧ priority n = p ∧ due_date n = dd ∧
    status n = PStr "todo" ∧ tags n = [] ∧
    xp_value n = PInt (match p with
                       | PStr s => if decide (s = "high"%string) then 100
                                   else if decide (s = "medium"%string) then 50
                                   else 20
                       | _ => 20
                       end).
Proof.
  intros Hv Hf.
  destruct (alloc_add_task_node_spec fuel h self l
              (TaskNode_init d p dd (PStr "todo") PNone) Hv eq_refl eq_refl Hf)
    as (self' & h' & Hrun & Hv' & Hext & Hlen & n & Hn & Htask).
  unfold bind, alloc in Hrun. exists self', h', n.
  split. { unfold add_task, bind, alloc. by rewrite Hrun. }
  split; [done|]. split.
  { apply Valid_get_all_tasks; [done|]. rewrite length_app. cbn. lia. }
  split.
  { rewrite (valid_count _ _ _ Hv'), (valid_count _ _ _ Hv), length_app. cbn. lia. }
  split; [done|]. split; [done|].
  apply task_of_fields in Htask as (Hd & Hs & Hp & Hdd & Ht & Hx).
  rewrite Hd, Hs, Hp, Hdd, Ht, Hx. cbn. split_and!; try done.
  destruct p as [|z|s]; [done..|]. by rewrite xp_table_cases.
Qed.

Lemma add_task_appends_witness :
  ∃ self' h' n,
    add_task 3 ex_list (PStr "D") (PStr "urgent") PNone ex_heap
      = Ok ((self', 3%nat), h') ∧
    Valid h' self' [0; 1; 2; 3]%nat ∧
    get_all_tasks 5 self' h' = Ok ([0; 1; 2; 3]%nat, h') ∧
    count self' = 4 ∧
    heap_ext ex_heap h' ∧
    h' !! 3%nat = Some n ∧
    description n = PStr "D" ∧ priority n = PStr "urgent" ∧ due_date n = PNone ∧
    status n = PStr "todo" ∧ tags n = [] ∧ xp_value n = PInt 20.
Proof.
  exact (add_task_appends 3 ex_heap ex_list [0; 1; 2]%nat
           (PStr "D") (PStr "urgent") PNone ex_valid ltac:(cbn; lia)).
Defined.

(** X2. [delete_task_node] with a node of the container, wherever it is
    (head, tail, in between or alone): the nodes left are the others in the
    order they had, [count] goes down by one, no task changes, and the
    removed node itself is not written to: it keeps its fields and also the
    links it had into the list. *)
Theorem delete_task_node_member h self l1 a l2 n :
  Valid h self (l1 ++ a :: l2) → h !! a = Some n →
  ∃ self' h',
    delete_task_node self (Some a) h = Ok (self', h') ∧
    Valid h' self' (l1 ++ l2) ∧
    get_all_tasks (S (length (l1 ++ l2))) self' h' = Ok (l1 ++ l2, h') ∧
    count self' = count self - 1 ∧
    heap_ext h h' ∧
    h' !! a = Some n.
Proof.
  intros Hv Hn. pose proof (Valid_split_notin _ _ _ _ _ Hv) as Ha.
  pose proof Hv as [Hd Hc]%Valid_dll.
  destruct (delete_task_node_spec h self l1 a l2 Hd)
    as (hd' & h' & Hrun & Hd' & Hlen & Hext & Hframe).
  assert (Valid h' {| head := hd'; count := count self - 1 |} (l1 ++ l2)) as Hv'.
  { apply Valid_dll. split; [done|]. cbn [count]. rewrite Hc, !length_app. cbn. lia. }
  eexists _, h'. split; [exact Hrun|]. split; [done|]. split.
  { apply Valid_get_all_tasks; [done|lia]. }
  split; [done|]. split; [done|]. by rewrite Hframe.
Qed.

Lemma delete_task_node_member_witness :
  ∃ self' h',
    delete_task_node ex_list (Some 1%nat) ex_heap = Ok (self', h') ∧
    Valid h' self' [0; 2]%nat ∧
    get_all_tasks 3 self' h' = Ok ([0; 2]%nat, h') ∧
    count self' = 2 ∧
    heap_ext ex_heap h' ∧
    h' !! 1%nat
      = Some (mkTaskNode (PStr "B") (PStr "todo") (PStr "low") (PStr "2025-02-01") []
                         (PInt 20) (Some 2%nat) (Some 0%nat)).
Proof.
  exact (delete_task_node_member ex_heap ex_list [0%nat] 1%nat [2%nat] _
           ex_valid eq_refl).
Defined.

(** ** The board *)

Lemma has_status_inj h st st' a :
  has_status h st a = true → has_status h st' a = true → st = st'.
Proof.
  unfold has_status. destruct (h !! a) as [n|]; [|done].
  intros E1%bool_decide_eq_true E2%bool_decide_eq_true. congruence.
Qed.

Lemma has_status_ext h h' st a :
  heap_ext h h' → is_Some (h !! a) → has_status h' st a = has_status h st a.
Proof.
  intros Hext [n Hn]. destruct (Hext a n Hn) as (n' & Hn' & Ht).
  apply task_of_fields in Ht as (_ & Hs & _).
  unfold has_status. by rewrite Hn, Hn', Hs.
Qed.

Lemma NoDup_filter_app3 (P1 P2 P3 : ref → Prop)
    `{!∀ a, Decision (P1 a), !∀ a, Decision (P2 a), !∀ a, Decision (P3 a)} l :
  NoDup l →
  (∀ a, P1 a → P2 a → False) → (∀ a, P1 a → P3 a → False) →
  (∀ a, P2 a → P3 a → False) →
  NoDup (filter P1 l ++ filter P2 l ++ filter P3 l).
Proof.
  intros Hnd H12 H13 H23. apply NoDup_app. split; [by apply NoDup_filter|]. split.
  - intros a [Q1 _]%list_elem_of_filter
             [[Q2 _]%list_elem_of_filter|[Q3 _]%list_elem_of_filter]%elem_of_app.
    + exact (H12 a Q1 Q2).
    + exact (H13 a Q1 Q3).
  - apply NoDup_app. split; [by apply NoDup_filter|]. split; [|by apply NoDup_filter].
    intros a [Q2 _]%list_elem_of_filter [Q3 _]%list_elem_of_filter. exact (H23 a Q2 Q3).
Qed.

(** X3. Redrawing the board reads the container and changes nothing.  Each
    column shows the tasks of its status in the order of the list; a task is
    on a column exactly when it is in the container with one of the
    statuses "todo", "doing" and "done", and then on one column only: a task
    with any other status stays in the container but has no card. *)
Theorem refresh_columns_partition fuel h self l :
  Valid h (task_list self) l → (length l < fuel)%nat →
  ∃ col_todo col_doing col_done,
    refresh_columns fuel self h = Ok ((col_todo, col_doing, col_done), h) ∧
    col_todo = filter (λ a, has_status h (PStr "todo") a = true) l ∧
    col_doing = filter (λ a, has_status h (PStr "doing") a = true) l ∧
    col_done = filter (λ a, has_status h (PStr "done") a = true) l ∧
    NoDup (col_todo ++ col_doing ++ col_done) ∧
    (∀ a, a ∈ col_todo ++ col_doing ++ col_done ↔
          a ∈ l ∧ ∃ n, h !! a = Some n ∧
                       status n ∈ [PStr "todo"; PStr "doing"; PStr "done"]).
Proof.
  intros Hv Hf. pose proof Hv as [Hd _]%Valid_dll.
  assert (∀ st, KanbanColumn_refresh fuel (task_list self) st h
                = Ok (filter (λ a, has_status h st a = true) l, h)) as Hcol.
  { intros st. unfold KanbanColumn_refresh, get_tasks_by_status.
    by rewrite (get_tasks_by_status_loop_spec fuel h None _ l st [] Hd Hf). }
  eexists _, _, _. split.
  { unfold refresh_columns. rewrite !(bind_ok _ _ _ _ _ (Hcol _)). reflexivity. }
  split; [done|]. split; [done|]. split; [done|]. split.
  - apply NoDup_filter_app3; [by eapply valid_NoDup|..];
      intros a H1 H2; by pose proof (has_status_inj _ _ _ _ H1 H2).
  - intros a. rewrite !elem_of_app, !list_elem_of_filter. unfold has_status. split.
    + intros [[Hs Ha]|[[Hs Ha]|[Hs Ha]]]; (split; [done|]);
        destruct (h !! a) as [n|]; try done; exists n; (split; [done|]);
        apply bool_decide_eq_true in Hs; rewrite Hs; solve_elem.
    + intros [Ha (n & Hn & Hs)]. rewrite Hn.
      repeat (apply elem_of_cons in Hs as [->|Hs]); [auto..|].
      by apply elem_of_nil in Hs.
Qed.

Lemma refresh_columns_partition_witness :
  ∃ col_todo col_doing col_done,
    refresh_columns 5 swept_app swept_heap
      = Ok ((col_todo, col_doing, col_done), swept_heap) ∧
    col_todo = [3%nat] ∧ col_doing = [] ∧ col_done = [0%nat] ∧
    NoDup (col_todo ++ col_doing ++ col_done) ∧
    (∀ a, a ∈ col_todo ++ col_doing ++ col_done ↔
          a ∈ [0; 1; 2; 3]%nat ∧
          ∃ n, swept_heap !! a = Some n ∧
               status n ∈ [PStr "todo"; PStr "doing"; PStr "done"]).
Proof.
  assert (Valid swept_heap (task_list swept_app) [0; 1; 2; 3]%nat) as Hv.
  { apply Valid_dll. split; [|done]. unfold dll. cbn. repeat (split || eexists). }
  exact (refresh_columns_partition 5 swept_heap swept_app [0; 1; 2; 3]%nat Hv
           ltac:(cbn; lia)).
Defined.

(** ** A node that is appended twice *)

(** A traversal that starts among nodes whose [next] stays among them does
    not come to an end. *)
Lemma get_all_tasks_loop_cycle h (S : list nat) :
  (∀ b, b ∈ S → ∃ n c, h !! b = Some n ∧ next n = Some c ∧ c ∈ S) →
  ∀ fuel acc c, c ∈ S → get_all_tasks_loop fuel acc (Some c) h = OutOfFuel.
Proof.
  intros HS. induction fuel as [|fuel IH]; intros acc c Hc; [done|].
  cbn [get_all_tasks_loop]. destruct (HS c Hc) as (n & c' & Hn & Hnx & Hc').
  rewrite (bind_ok _ _ _ _ _ (load_ok _ _ _ Hn)), Hnx. by apply IH.
Qed.

(** The links after [add_task_node] on a non-empty list, whatever the node
    that is appended: the old tail points to it, every other [next] is as it
    was. *)
Lemma add_task_node_links fuel h self l t a n :
  dll h (head self) (l ++ [t]) → h !! a = Some n → (length l < fuel)%nat →
  ∃ h',
    add_task_node fuel self a h
      = Ok ({| head := head self; count := count self + 1 |}, h') ∧
    ∀ b nb, h !! b = Some nb →
            ∃ nb', h' !! b = Some nb' ∧
                   next nb' = if decide (b = t) then Some a else next nb.
Proof.
  intros Hd Hn Hf. unfold dll in Hd.
  destruct (l ++ [t]) as [|a0 l0] eqn:El; [by destruct l|].
  pose proof Hd as (E & _). rewrite E in Hd.
  pose proof (add_task_node_loop_spec fuel h None a0 l0 Hd) as Hloop.
  rewrite <- (last_ptr_cons None), <- El, last_ptr_snoc in Hloop.
  assert (length l0 = length l) as Hlen.
  { apply (f_equal length) in El. rewrite length_app in El. cbn in El. lia. }
  rewrite <- El in Hd.
  apply dlseg_app in Hd as (m & _ & (_ & tn & Htn & _ & _)).
  set (h1 := <[t := with_next tn (Some a)]> h).
  assert (∃ n1, h1 !! a = Some n1 ∧
                next n1 = if decide (a = t) then Some a else next n) as (n1 & Hn1 & Hnx1).
  { destruct (decide (a = t)) as [->|Hat].
    - exists (with_next tn (Some t)). split; [by eapply lookup_upd_eq|done].
    - exists n. split; [|done]. unfold h1. by rewrite lookup_upd_ne. }
  exists (<[a := with_prev n1 (Some t)]> h1). split.
  { unfold add_task_node. rewrite E. unfold bind. rewrite Hloop by lia.
    rewrite (set_next_ok _ _ _ _ Htn). fold h1.
    rewrite (set_prev_ok _ _ _ _ Hn1). unfold ret. by rewrite E. }
  intros b nb Hb. destruct (decide (b = a)) as [->|Hba].
  - exists (with_prev n1 (Some t)). split; [by eapply lookup_upd_eq|].
    cbn. rewrite Hnx1. destruct (decide (a = t)); congruence.
  - rewrite lookup_upd_ne by done. destruct (decide (b = t)) as [->|Hbt].
    + exists (with_next tn (Some a)). split; [by eapply lookup_upd_eq|done].
    + exists nb. split; [|done]. unfold h1. by rewrite lookup_upd_ne.
Qed.

(** X4. [add_task_node] does not look at the node it is given.  With a
    node that is in the container already, or whose [next] still points to
    a node of the container (a node that was removed before), it returns
    and counts one more task, but the old tail now leads back into the
    list: [get_all_tasks] never comes to an end, and neither does
    [save_data]. *)
Theorem add_task_node_again_cycles fuel h self l a n :
  Valid h self l → h !! a = Some n →
  a ∈ l ∨ (∃ c, next n = Some c ∧ c ∈ l) →
  (length l ≤ fuel)%nat →
  ∃ self' h',
    add_task_node fuel self a h = Ok (self', h') ∧
    count self' = count self + 1 ∧
    (∀ fuel', get_all_tasks fuel' self' h' = OutOfFuel) ∧
    (∀ fuel' xp,
       save_data fuel' {| task_list := self'; total_xp := xp |} h' = OutOfFuel).
Proof.
  intros Hv Hn Ha Hf. pose proof Hv as [Hd _]%Valid_dll.
  destruct l as [|a0 l0]; [destruct Ha as [Ha|(c & _ & Hc)]; by apply elem_of_nil in Ha || apply elem_of_nil in Hc|].
  destruct (nonempty_snoc a0 l0) as (l' & t & El). rewrite El in *.
  assert (length l' < fuel)%nat as Hf' by (rewrite length_app in Hf; cbn in Hf; lia).
  destruct (add_task_node_links fuel h self l' t a n Hd Hn Hf') as (h' & Hrun & Hlinks).
  assert (∀ fuel', get_all_tasks fuel' {| head := head self; count := count self + 1 |} h'
                   = OutOfFuel) as Hcyc.
  { intros fuel'. unfold get_all_tasks. cbn [head].
    pose proof Hd as Hhd. unfold dll in Hhd. rewrite <- El in Hhd.
    destruct Hhd as (-> & _).
    apply (get_all_tasks_loop_cycle h' (a :: l' ++ [t])).
    - intros b Hb.
      assert (t ∈ l' ++ [t]) as Ht by solve_elem.
      assert (∀ i, (l' ++ [t]) !! i = Some b →
                   ∃ nb c, h' !! b = Some nb ∧ next nb = Some c ∧ c ∈ a :: l' ++ [t])
        as Hin.
      { intros i Hi. destruct (dlseg_lookup _ _ _ _ _ _ _ Hd Hi) as (nb & Hnb & Hnx & _).
        destruct (Hlinks b nb Hnb) as (nb' & Hnb' & Hnx').
        destruct (decide (b = t)) as [->|Hbt].
        - exists nb', a. split_and!; [done..|left].
        - destruct ((l' ++ [t]) !! Datatypes.S i) as [c|] eqn:Hc.
          + exists nb', c. split_and!; [done|congruence|].
            right. by eapply list_elem_of_lookup_2.
          + exfalso. apply lookup_ge_None in Hc. rewrite length_app in Hc. cbn in Hc.
            pose proof (lookup_lt_Some _ _ _ Hi) as Hlt.
            rewrite length_app in Hlt. cbn in Hlt.
            assert (i = length l') as -> by lia.
            rewrite list_lookup_middle in Hi by done. congruence. }
      apply elem_of_cons in Hb as [->|Hb].
      + destruct Ha as [Ha|(c & Hc & Hcl)].
        * apply list_elem_of_lookup in Ha as [i Hi]. by eapply Hin.
        * destruct (Hlinks a n Hn) as (n' & Hn' & Hnx').
          destruct (decide (a = t)) as [->|Hat].
          -- exists n', t. split_and!; [done..|left].
          -- exists n', c. split_and!; [done|congruence|by right].
      + apply list_elem_of_lookup in Hb as [i Hi]. by eapply Hin.
    - right. rewrite <- El. left. }
  eexists _, h'. split; [exact Hrun|]. split; [done|]. split; [done|].
  intros fuel' xp. unfold save_data, bind. cbn [task_list]. by rewrite Hcyc.
Qed.

Lemma add_task_node_again_cycles_witness :
  ∃ self' h',
    add_task_node 3 ex_list 1%nat ex_heap = Ok (self', h') ∧
    count self' = 4 ∧
    (∀ fuel', get_all_tasks fuel' self' h' = OutOfFuel) ∧
    (∀ fuel' xp,
       save_data fuel' {| task_list := self'; total_xp := xp |} h' = OutOfFuel).
Proof.
  refine (add_task_node_again_cycles 3 ex_heap ex_list [0; 1; 2]%nat 1%nat _
            ex_valid eq_refl _ ltac:(cbn; lia)).
  left. solve_elem.
Defined.

(** ** A node that is removed twice *)

Lemma set_next_same h a n : h !! a = Some n → set_next (Some a) (next n) h = Ok (tt, h).
Proof.
  intros H. rewrite (set_next_ok _ _ _ _ H). f_equal. f_equal.
  apply list_insert_id. rewrite H. by destruct n.
Qed.

Lemma set_prev_same h a n : h !! a = Some n → set_prev (Some a) (prev n) h = Ok (tt, h).
Proof.
  intros H. rewrite (set_prev_ok _ _ _ _ H). f_equal. f_equal.
  apply list_insert_id. rewrite H. by destruct n.
Qed.

Lemma lookup_after_middle {A} (l1 l2 : list A) x :
  (l1 ++ x :: l2) !! S (length l1) = l2 !! 0%nat.
Proof. induction l1 as [|y l1 IH]; [done|]. exact IH. Qed.

Lemma lookup_before_middle {A} (l1 l2 : list A) :
  match length l1 with O => None | S j => (l1 ++ l2) !! j end = last l1.
Proof.
  destruct l1 as [|y l1 _] using rev_ind; [done|].
  rewrite length_app, Nat.add_1_r, <- app_assoc, last_snoc. cbn.
  by rewrite list_lookup_middle.
Qed.

(** The links of a node of the list, read off the list. *)
Lemma dlseg_middle h f l1 a l2 :
  dll h f (l1 ++ a :: l2) →
  ∃ n, h !! a = Some n ∧
       next n = match l2 !! 0%nat with Some b => Some b | None => None end ∧
       prev n = last l1.
Proof.
  intros Hd.
  destruct (dlseg_lookup _ _ _ _ _ (length l1) a Hd) as (n & Hn & Hnx & Hpv).
  { by rewrite list_lookup_middle. }
  exists n. split; [done|]. rewrite lookup_after_middle in Hnx. split; [done|].
  by rewrite lookup_before_middle in Hpv.
Qed.

(** Removing a node that is not in the list, but whose links are the ones
    of a node that sat between [l1] and [l2], writes what is there already. *)
Lemma delete_task_node_stale h self l1 a l2 n :
  dll h (head self) (l1 ++ l2) → a ∉ l1 ++ l2 → h !! a = Some n →
  prev n = last l1 →
  next n = match l2 !! 0%nat with Some b => Some b | None => None end →
  delete_task_node self (Some a) h
    = Ok ({| head := head self; count := count self - 1 |}, h).
Proof.
  intros Hd Ha Hn Hpv Hnx. unfold dll in Hd. unfold delete_task_node.
  rewrite decide_False.
  2:{ rewrite (dlseg_first _ _ _ _ _ Hd). intros E.
      destruct ((l1 ++ l2) !! 0%nat) as [b|] eqn:Hb; [|done]. injection E as ->.
      apply Ha. by eapply list_elem_of_lookup_2. }
  assert ((match prev n with
           | Some _ => nx <- get_next (Some a) ;; set_next (prev n) nx
           | None => ret tt
           end) h = Ok (tt, h)) as Hstep1.
  { destruct (prev n) as [pv|] eqn:Epv; [|done].
    rewrite (bind_ok _ _ _ _ _ (get_next_ok _ _ _ Hn)).
    symmetry in Hpv. apply last_Some in Hpv as [l1' ->].
    rewrite <- app_assoc in Hd. cbn in Hd.
    destruct (dlseg_lookup _ _ _ _ _ (length l1') pv Hd) as (pn & Hpn & Hpnx & _).
    { by rewrite list_lookup_middle. }
    rewrite lookup_after_middle in Hpnx.
    rewrite Hnx, <- Hpnx. by apply set_next_same. }
  assert ((match next n with
           | Some _ => pv' <- get_prev (Some a) ;; set_prev (next n) pv'
           | None => ret tt
           end) h = Ok (tt, h)) as Hstep2.
  { destruct (next n) as [nx|] eqn:Enx; [|done].
    rewrite (bind_ok _ _ _ _ _ (get_prev_ok _ _ _ Hn)).
    destruct l2 as [|b l2']; [done|]. cbn in Hnx. injection Hnx as <-.
    destruct (dlseg_lookup _ _ _ _ _ (length l1) nx Hd) as (nn & Hnn & _ & Hnpv).
    { by rewrite list_lookup_middle. }
    rewrite lookup_before_middle in Hnpv.
    rewrite Hpv, <- Hnpv. by apply set_prev_same. }
  unfold bind at 1.
  rewrite (bind_ok _ _ _ _ _ (get_prev_ok _ _ _ Hn)). cbv beta.
  rewrite (bind_ok _ _ _ _ _ Hstep1). cbv beta.
  rewrite (bind_ok _ _ _ _ _ (get_next_ok _ _ _ Hn)). cbv beta.
  by rewrite (bind_ok _ _ _ _ _ Hstep2).
Qed.

(** X5. [delete_task_node] does not check that the node is in the
    container.  Called a second time with a node that it has just removed,
    it finds the links of the list as they should be and leaves every node
    as it is, but it lowers [count] once more: the container then counts one
    task less than the traversal meets, and the invariant is lost. *)
Theorem delete_task_node_twice h self l1 a l2 :
  Valid h self (l1 ++ a :: l2) →
  ∃ self1 h1,
    delete_task_node self (Some a) h = Ok (self1, h1) ∧
    Valid h1 self1 (l1 ++ l2) ∧
    delete_task_node self1 (Some a) h1
      = Ok ({| head := head self1; count := count self - 2 |}, h1) ∧
    get_all_tasks (S (length (l1 ++ l2)))
                  {| head := head self1; count := count self - 2 |} h1
      = Ok (l1 ++ l2, h1) ∧
    count self - 2 = Z.of_nat (length (l1 ++ l2)) - 1 ∧
    (∀ l', ¬ Valid h1 {| head := head self1; count := count self - 2 |} l').
Proof.
  intros Hv. pose proof (Valid_split_notin _ _ _ _ _ Hv) as Ha.
  pose proof Hv as [Hd Hc]%Valid_dll.
  destruct (delete_task_node_spec h self l1 a l2 Hd)
    as (hd' & h1 & Hrun & Hd' & _ & _ & Hframe).
  destruct (dlseg_middle _ _ _ _ _ Hd) as (n & Hn & Hnx & Hpv).
  assert (h1 !! a = Some n) as Hn1 by (by rewrite Hframe).
  assert (count self = Z.of_nat (length (l1 ++ l2)) + 1) as Hc'.
  { rewrite Hc, !length_app. cbn. lia. }
  eexists _, h1. split; [exact Hrun|]. cbn [head count]. split_and!.
  - apply Valid_dll. split; [done|]. cbn [count]. lia.
  - rewrite (delete_task_node_stale h1 {| head := hd'; count := count self - 1 |}
               l1 a l2 n Hd' Ha Hn1 Hpv Hnx).
    cbn [head count]. do 3 f_equal. lia.
  - unfold get_all_tasks. cbn [head].
    by rewrite (get_all_tasks_loop_spec _ h1 None hd' (l1 ++ l2) [] Hd') by lia.
  - lia.
  - intros l' [Hd'' Hc'']%Valid_dll. cbn [head count] in *.
    pose proof (dlseg_det _ _ _ _ _ _ Hd' Hd'') as <-. lia.
Qed.

Lemma delete_task_node_twice_witness :
  ∃ self1 h1,
    delete_task_node ex_list (Some 1%nat) ex_heap = Ok (self1, h1) ∧
    Valid h1 self1 [0; 2]%nat ∧
    delete_task_node self1 (Some 1%nat) h1
      = Ok ({| head := head self1; count := 1 |}, h1) ∧
    get_all_tasks 3 {| head := head self1; count := 1 |} h1 = Ok ([0; 2]%nat, h1) ∧
    3 - 2 = 2 - 1 ∧
    (∀ l', ¬ Valid h1 {| head := head self1; count := 1 |} l').
Proof.
  exact (delete_task_node_twice ex_heap ex_list [0%nat] 1%nat [2%nat] ex_valid).
Defined.

(** ** The sort, whatever [count] holds, and the sort on request *)

(** X6. [sort_by] loses no task and makes none: the nodes after the sort
    are the nodes before it in some order, and every task has the fields it
    had.  It does not read [count] but sets it to the number of nodes that it
    finds, so that a container whose [count] was wrong is valid afterwards. *)
Theorem sort_by_recounts key fuel h self l :
  dll h (head self) l →
  (key = "due_date"%string → ∀ a n, a ∈ l → h !! a = Some n → dated n) →
  (length l < fuel)%nat →
  ∃ self' h' l',
    sort_by fuel self key h = Ok (self', h') ∧
    Valid h' self' l' ∧ l' ≡ₚ l ∧
    count self' = Z.of_nat (length l) ∧
    heap_ext h h'.
Proof.
  intros Hd Hdated Hf.
  set (self0 := {| head := head self; count := Z.of_nat (length l) |}).
  assert (Valid h self0 l) as Hv by (by apply Valid_dll).
  destruct (sort_by_order key fuel h self0 l Hv Hdated Hf)
    as (self' & h' & Hrun & Hv' & _ & Hext).
  pose proof (sort_list_perm (goes_first (key_le key h)) fuel l) as Hp.
  exists self', h', (sort_list (goes_first (key_le key h)) fuel l).
  split; [exact Hrun|]. split; [done|]. split; [done|]. split; [|done].
  rewrite (valid_count _ _ _ Hv'). by rewrite Hp.
Qed.

Lemma sort_by_recounts_witness :
  ∃ self' h' l',
    sort_by 4 {| head := Some 0%nat; count := 7 |} "priority" ex_heap = Ok (self', h') ∧
    Valid h' self' l' ∧ l' ≡ₚ [0; 1; 2]%nat ∧
    count self' = 3 ∧
    heap_ext ex_heap h'.
Proof.
  refine (sort_by_recounts "priority" 4 ex_heap {| head := Some 0%nat; count := 7 |}
            [0; 1; 2]%nat ex_dll _ ltac:(cbn; lia)).
  intros E. discriminate E.
Defined.

Lemma StronglySorted_filter {A} (R : relation A) (P : A → Prop)
    `{!∀ x, Decision (P x)} (l : list A) :
  StronglySorted R l → StronglySorted R (filter P l).
Proof.
  induction 1 as [|x l Hs IH Hall]; [constructor|].
  rewrite filter_cons. destruct (decide (P x)); [|done].
  constructor; [done|]. rewrite Forall_forall in Hall |- *.
  intros y [_ Hy]%list_elem_of_filter. by apply Hall.
Qed.

(** X7. [sort_tasks] reads the key off the text of the choice: "priority"
    when the text contains "Priority", else "due_date" when it contains
    "Due Date"; with neither it returns at once and nothing changes.  With
    a key it sorts the container and then sweeps it: the container holds the
    tasks not marked "deleted", in the order of the key, and the XP is as it
    was. *)
Theorem sort_tasks_sorts_then_sweeps fuel h self l choice key :
  (str_in "Priority" choice = true ∧ key = "priority"%string) ∨
  (str_in "Priority" choice = false ∧ str_in "Due Date" choice = true ∧
   key = "due_date"%string) →
  Valid h (task_list self) l →
  (key = "due_date"%string → ∀ a n, a ∈ l → h !! a = Some n → dated n) →
  (length l < fuel)%nat →
  (∃ self' h' l',
     sort_tasks fuel self choice h = Ok (self', h') ∧
     Valid h' (task_list self') l' ∧
     l' = filter (λ a, has_status h (PStr "deleted") a = false)
                 (sort_list (goes_first (key_le key h)) fuel l) ∧
     StronglySorted (goes_first (key_le key h)) l' ∧
     total_xp self' = total_xp self ∧
     heap_ext h h') ∧
  (∀ other, str_in "Priority" other = false → str_in "Due Date" other = false →
            sort_tasks fuel self other h = Ok (self, h)).
Proof.
  intros Hkey Hv Hdated Hf. split.
  2:{ intros other H1 H2. unfold sort_tasks. by rewrite H1, H2. }
  destruct (sort_by_order key fuel h (task_list self) l Hv Hdated Hf)
    as (self1 & h1 & Hrun & Hv1 & _ & Hext1).
  set (l1 := sort_list (goes_first (key_le key h)) fuel l) in *.
  pose proof (sort_list_perm (goes_first (key_le key h)) fuel l) as Hp. fold l1 in Hp.
  destruct (refresh_ui_loop_sweep fuel h1 self1 l1 Hv1)
    as (self2 & h2 & Hrun2 & Hv2 & _ & Hext2 & _).
  { by rewrite Hp. }
  assert (filter (λ a, has_status h1 (PStr "deleted") a = false) l1
          = filter (λ a, has_status h (PStr "deleted") a = false) l1) as Hfil.
  { apply filter_ext_in. intros a Ha. rewrite (has_status_ext h h1); [done..|].
    eapply Valid_is_Some; [exact Hv|]. by rewrite <- Hp. }
  rewrite Hfil in Hv2.
  assert (sort_tasks fuel self choice h
          = Ok ({| task_list := self2; total_xp := total_xp self |}, h2)) as Hst.
  { unfold sort_tasks.
    assert ((if str_in "Priority" choice then Some "priority"%string
             else if str_in "Due Date" choice then Some "due_date"%string else None)
            = Some key) as ->.
    { destruct Hkey as [[-> ->]|(-> & -> & ->)]; done. }
    rewrite (bind_ok _ _ _ _ _ Hrun). unfold refresh_ui. cbn [task_list total_xp].
    by rewrite (bind_ok _ _ _ _ _ Hrun2). }
  eexists _, h2, _. split; [exact Hst|]. cbn [task_list total_xp].
  split; [exact Hv2|]. split; [done|]. split; [|split; [done|]].
  - apply StronglySorted_filter. apply Sorted_StronglySorted; [apply _|].
    apply sort_list_sorted; [apply _|lia].
  - exact (heap_ext_trans _ _ _ Hext1 Hext2).
Qed.

Lemma sort_tasks_sorts_then_sweeps_witness :
  (∃ self' h' l',
     sort_tasks 5 swept_app "Priority (High First)" swept_heap = Ok (self', h') ∧
     Valid h' (task_list self') l' ∧
     l' = [0; 3]%nat ∧
     StronglySorted (goes_first (key_le "priority" swept_heap)) l' ∧
     total_xp self' = 0 ∧
     heap_ext swept_heap h') ∧
  (∀ other, str_in "Priority" other = false → str_in "Due Date" other = false →
            sort_tasks 5 swept_app other swept_heap = Ok (swept_app, swept_heap)).
Proof.
  refine (sort_tasks_sorts_then_sweeps 5 swept_heap swept_app [0; 1; 2; 3]%nat
            "Priority (High First)" "priority" _ _ _ ltac:(cbn; lia)).
  - left. split; reflexivity.
  - apply Valid_dll. split; [|done]. unfold dll. cbn. repeat (split || eexists).
  - intros E. discriminate E.
Defined.

(** ** Records: reading, loading, saving *)

Lemma from_dict_lookups data d p dd s xp :
  data !! "description"%string = Some d → data !! "priority"%string = Some p →
  data !! "due_date"%string = Some dd → data !! "status"%string = Some s →
  data !! "xp_value"%string = Some xp →
  from_dict data = Ok (TaskNode_init d p dd s xp).
Proof.
  intros H1 H2 H3 H4 H5. unfold from_dict, getitem, obind.
  by rewrite H1, H2, H3, H4, H5.
Qed.

Lemma from_dict_of_to_dict t :
  from_dict (to_dict t)
  = Ok (TaskNode_init (description t) (priority t) (due_date t) (status t) (xp_value t)).
Proof.
  apply from_dict_lookups; unfold to_dict;
    by rewrite ?lookup_insert, ?lookup_insert_ne, ?lookup_singleton by done.
Qed.

Lemma TaskNode_init_xp d p dd s xp : xp_value (TaskNode_init d p dd s xp) ≠ PNone.
Proof. by destruct xp. Qed.

(** X8. [from_dict] on a record whose values are None, integers or
    strings (lists and objects as values are not among the records here; an
    unhashable priority with a null XP value makes [__init__] raise
    TypeError).  On such a record [from_dict] needs the five fields and
    nothing else: it returns a task exactly when the record has all of them,
    it does not look at any other entry of the record, and the task it
    returns has no tags, no links and an XP value that is not None (a null
    in the record is replaced by the XP of the priority). *)
Theorem from_dict_needs_five_fields data :
  ((∃ n, from_dict data = Ok n) ↔ ∀ k, k ∈ required_fields → is_Some (data !! k)) ∧
  (∀ k v, k ∉ required_fields → from_dict (<[k := v]> data) = from_dict data) ∧
  (∀ n, from_dict data = Ok n →
        tags n = [] ∧ next n = None ∧ prev n = None ∧ xp_value n ≠ PNone ∧
        data !! "description"%string = Some (description n) ∧
        data !! "status"%string = Some (status n) ∧
        data !! "priority"%string = Some (priority n) ∧
        data !! "due_date"%string = Some (due_date n) ∧
        (data !! "xp_value"%string = Some (xp_value n) ∨
         data !! "xp_value"%string = Some PNone ∧
         xp_value n = PInt (dict_get xp_table (priority n) 20))).
Proof.
  split_and!.
  - split.
    + intros [n Hn] k Hk. destruct (data !! k) as [v|] eqn:E; [by eexists|].
      destruct (from_dict_missing data k Hk E) as (k' & Hraise & _). congruence.
    + intros Hall.
      assert (∀ k, k ∈ required_fields → ∃ v, data !! k = Some v) as Hget.
      { intros k Hk. by destruct (Hall k Hk) as [v Hv]; exists v. }
      unfold required_fields in Hget.
      destruct (Hget "description"%string) as [d Hd]; [solve_elem|].
      destruct (Hget "priority"%string) as [p Hp]; [solve_elem|].
      destruct (Hget "due_date"%string) as [dd Hdd]; [solve_elem|].
      destruct (Hget "status"%string) as [s Hs]; [solve_elem|].
      destruct (Hget "xp_value"%string) as [xp Hxp]; [solve_elem|].
      eexists. by apply (from_dict_lookups data d p dd s xp).
  - intros k v Hk. unfold from_dict, getitem.
    rewrite !lookup_insert_ne; [done|intros ->; apply Hk; unfold required_fields; solve_elem..].
  - intros n. unfold from_dict, getitem, obind.
    destruct (data !! "description"%string) as [d|]; [|done].
    destruct (data !! "priority"%string) as [p|]; [|done].
    destruct (data !! "due_date"%string) as [dd|]; [|done].
    destruct (data !! "status"%string) as [s|]; [|done].
    destruct (data !! "xp_value"%string) as [xp|]; [|done].
    intros [= <-]. split_and!; try done; [apply TaskNode_init_xp|].
    destruct xp; cbn; auto.
Qed.

Lemma Valid_empty h : Valid h TaskList_init [].
Proof. apply Valid_dll. by split. Qed.

Lemma from_dict_outcome data :
  (∃ n, from_dict data = Ok n) ∨ (∃ k, from_dict data = Raise (KeyError k)).
Proof.
  unfold from_dict, getitem, obind.
  repeat (destruct (data !! _); [|right; by eexists]). left. by eexists.
Qed.

Lemma complete_prefix_split tasks :
  ∃ rest,
    tasks = complete_prefix tasks ++ rest ∧
    Forall (λ d, ∃ n, from_dict d = Ok n) (complete_prefix tasks) ∧
    (rest = [] ∨
     ∃ bad rest' k, rest = bad :: rest' ∧ from_dict bad = Raise (KeyError k)).
Proof.
  induction tasks as [|d tasks (rest & E & Hgood & Hrest)].
  - exists []. split_and!; [done|constructor|by left].
  - cbn [complete_prefix]. destruct (from_dict_outcome d) as [[n Hn]|[k Hk]].
    + rewrite Hn. exists rest. split_and!; [by rewrite <- app_comm_cons, <- E| |done].
      constructor; [by exists n|done].
    + rewrite Hk. exists (d :: tasks). split_and!; [done|constructor|].
      right. by exists d, tasks, k.
Qed.

Lemma complete_prefix_all tasks :
  Forall (λ d, ∃ n, from_dict d = Ok n) tasks → complete_prefix tasks = tasks.
Proof.
  induction 1 as [|d tasks [n Hn] _ IH]; [done|].
  cbn [complete_prefix]. by rewrite Hn, IH.
Qed.

Lemma complete_prefix_length tasks : (length (complete_prefix tasks) ≤ length tasks)%nat.
Proof.
  destruct (complete_prefix_split tasks) as (rest & E & _).
  rewrite E at 2. rewrite length_app. lia.
Qed.

(** X9. [load_data] on a file that holds an object whose "total_xp", if
    any, is an integer and whose "tasks", if any, is a list of objects with
    values that are None, integers or strings.  Whichever fields these
    records have or lack, [load_data] returns normally.  One task is made
    for each record up to the first one that lacks a field, and appended, in
    the order of the file, after the tasks that the container has; each new
    task has the fields of its record, and when no record lacks a field all
    of them are loaded.  [total_xp] is replaced by the stored number, or by
    0 when the file has none.  Without a "tasks" entry nothing is
    appended. *)
Theorem load_data_any_records fuel self xp tasks h l :
  Valid h (task_list self) l →
  (length l + length tasks ≤ fuel)%nat →
  (∃ self' h',
     load_data fuel self {| data_total_xp := xp; data_tasks := Some tasks |} h
       = Ok (self', h') ∧
     Valid h' (task_list self')
           (l ++ seq (length h) (length (complete_prefix tasks))) ∧
     count (task_list self')
       = count (task_list self) + Z.of_nat (length (complete_prefix tasks)) ∧
     heap_ext h h' ∧
     (∀ i d, complete_prefix tasks !! i = Some d →
             ∃ n n', from_dict d = Ok n ∧ h' !! (length h + i)%nat = Some n' ∧
                     task_of n' = task_of n) ∧
     (Forall (λ d, ∃ n, from_dict d = Ok n) tasks → complete_prefix tasks = tasks) ∧
     total_xp self' = default 0 xp) ∧
  load_data fuel self {| data_total_xp := xp; data_tasks := None |} h
    = Ok ({| task_list := task_list self; total_xp := default 0 xp |}, h).
Proof.
  intros Hv Hf. split; [|done].
  destruct (complete_prefix_split tasks) as (rest & E & Hgood & Hrest).
  pose proof (complete_prefix_length tasks) as Hlen'.
  destruct (load_data_loop_spec fuel (complete_prefix tasks) h (task_list self) l rest
              Hv Hgood ltac:(lia) Hrest)
    as (self' & h' & e & Hrun & Hv' & Hext & Hlen & Htasks).
  rewrite <- E in Hrun.
  unfold load_data. cbn [data_tasks data_total_xp default].
  rewrite (bind_ok _ _ _ _ _ Hrun).
  eexists _, h'. split; [reflexivity|]. cbn [task_list total_xp fst].
  split_and!; [done| |done|done|apply complete_prefix_all|done].
  rewrite (valid_count _ _ _ Hv'), (valid_count _ _ _ Hv), length_app, length_seq. lia.
Qed.

Lemma load_data_any_records_witness :
  (∃ self' h',
     load_data 6 ex_app
               {| data_total_xp := Some 70;
                  data_tasks := Some [good_record; bad_record; good_record] |}
               ex_heap
       = Ok (self', h') ∧
     Valid h' (task_list self') [0; 1; 2; 3]%nat ∧
     count (task_list self') = 3 + 1 ∧
     heap_ext ex_heap h' ∧
     (∀ i d, [good_record] !! i = Some d →
             ∃ n n', from_dict d = Ok n ∧ h' !! (3 + i)%nat = Some n' ∧
                     task_of n' = task_of n) ∧
     (Forall (λ d, ∃ n, from_dict d = Ok n) [good_record; bad_record; good_record] →
      [good_record] = [good_record; bad_record; good_record]) ∧
     total_xp self' = 70) ∧
  load_data 6 ex_app {| data_total_xp := Some 70; data_tasks := None |} ex_heap
    = Ok ({| task_list := ex_list; total_xp := 70 |}, ex_heap).
Proof.
  exact (load_data_any_records 6 ex_app (Some 70)
           [good_record; bad_record; good_record] ex_heap [0; 1; 2]%nat ex_valid
           ltac:(cbn; lia)).
Defined.

Lemma to_dicts_spec h l :
  Forall (λ a, is_Some (h !! a)) l →
  ∃ ds, to_dicts l h = Ok (ds, h) ∧
        Forall2 (λ a d, ∃ n, h !! a = Some n ∧ d = to_dict n) l ds.
Proof.
  induction 1 as [|a l [n Hn] _ (ds & Hrun & Hds)].
  - exists []. by split.
  - exists (to_dict n :: ds). split.
    + cbn [to_dicts]. rewrite (bind_ok _ _ _ _ _ (load_ok _ _ _ Hn)).
      by rewrite (bind_ok _ _ _ _ _ Hrun).
    + constructor; [by exists n|done].
Qed.

(** X10. What [save_data] writes, [load_data] reads back, the file being
    taken to give back the data it was given.  The data made from a valid
    container has one record for each task, in the order of the list, and
    making it changes nothing; loading it into a new application gives the
    same number of tasks in the same order, each with the description,
    status, priority and due date it had and no tags, with the XP value it
    had unless that was None, and the same [total_xp]. *)
Theorem save_data_load_data fuel h self l h0 :
  Valid h (task_list self) l → (length l < fuel)%nat →
  ∃ data self' h',
    save_data fuel self h = Ok (data, h) ∧
    load_data fuel empty_app data h0 = Ok (self', h') ∧
    Valid h' (task_list self') (seq (length h0) (length l)) ∧
    total_xp self' = total_xp self ∧
    ∀ i a n, l !! i = Some a → h !! a = Some n →
      ∃ n', h' !! (length h0 + i)%nat = Some n' ∧
            description n' = description n ∧ status n' = status n ∧
            priority n' = priority n ∧ due_date n' = due_date n ∧
            tags n' = [] ∧
            (xp_value n ≠ PNone → xp_value n' = xp_value n).
Proof.
  intros Hv Hf.
  destruct (to_dicts_spec h l) as (ds & Hds & Hrec).
  { apply Forall_forall. intros a Ha. by eapply Valid_is_Some. }
  pose proof (Forall2_length _ _ _ Hrec) as Hlen.
  assert (Forall (λ d, ∃ n, from_dict d = Ok n) ds) as Hgood.
  { apply Forall_forall. intros d Hd. apply list_elem_of_lookup in Hd as [i Hi].
    destruct (Forall2_lookup_r _ _ _ _ _ Hrec Hi) as (a & _ & n & _ & ->).
    eexists. apply from_dict_of_to_dict. }
  destruct (load_data_loop_spec fuel ds h0 TaskList_init [] [] (Valid_empty h0) Hgood)
    as (self' & h' & e & Hrun & Hv' & _ & _ & Htasks); [cbn; lia|by left|].
  rewrite app_nil_r in Hrun. cbn [app] in Hv'.
  eexists _, _, h'. split.
  { unfold save_data. rewrite (bind_ok _ _ _ _ _ (Valid_get_all_tasks _ _ _ _ Hv Hf)).
    by rewrite (bind_ok _ _ _ _ _ Hds). }
  split.
  { unfold load_data. cbn [data_tasks data_total_xp default empty_app task_list].
    by rewrite (bind_ok _ _ _ _ _ Hrun). }
  cbn [task_list total_xp fst]. rewrite <- Hlen in Hv'. split; [done|]. split; [done|].
  intros i a n Hi Hn.
  destruct (Forall2_lookup_l _ _ _ _ _ Hrec Hi) as (d & Hd & n0 & Hn0 & ->).
  assert (n0 = n) as -> by congruence.
  destruct (Htasks i _ Hd) as (m & n' & Hm & Hn' & Htask).
  rewrite from_dict_of_to_dict in Hm. injection Hm as <-.
  exists n'. split; [done|].
  apply task_of_fields in Htask as (-> & -> & -> & -> & -> & ->).
  split_and!; try done. intros Hxp. cbn. by destruct (xp_value n).
Qed.

Lemma save_data_load_data_witness :
  ∃ data self' h',
    save_data 4 {| task_list := ex_list; total_xp := 70 |} ex_heap = Ok (data, ex_heap) ∧
    load_data 4 empty_app data [] = Ok (self', h') ∧
    Valid h' (task_list self') [0; 1; 2]%nat ∧
    total_xp self' = 70 ∧
    ∀ i a n, [0; 1; 2]%nat !! i = Some a → ex_heap !! a = Some n →
      ∃ n', h' !! (0 + i)%nat = Some n' ∧
            description n' = description n ∧ status n' = status n ∧
            priority n' = priority n ∧ due_date n' = due_date n ∧
            tags n' = [] ∧
            (xp_value n ≠ PNone → xp_value n' = xp_value n).
Proof.
  exact (save_data_load_data 4 ex_heap {| task_list := ex_list; total_xp := 70 |}
           [0; 1; 2]%nat [] ex_valid ltac:(cbn; lia)).
Defined.

(** ** The cards *)

Lemma set_status_ok h a n v :
  h !! a = Some n → set_status a v h = Ok (tt, <[a := with_status n v]> h).
Proof.
  intros H. unfold set_status. rewrite (bind_ok _ _ _ _ _ (load_ok _ _ _ H)).
  unfold store. by rewrite H.
Qed.

Lemma dlseg_set_status h p f l q a n v :
  h !! a = Some n → dlseg h p f l q → dlseg (<[a := with_status n v]> h) p f l q.
Proof.
  intros Hn. revert p f. induction l as [|b l IH]; intros p f H; [done|].
  destruct H as (-> & nb & Hnb & Hp & Hrest). split; [done|].
  destruct (decide (b = a)) as [->|Hba].
  - assert (nb = n) as -> by congruence.
    exists (with_status n v). split_and!; [by eapply lookup_upd_eq|done|by apply IH].
  - exists nb. split_and!; [by rewrite lookup_upd_ne|done|by apply IH].
Qed.

Lemma Valid_set_status h self l a n v :
  h !! a = Some n → Valid h self l → Valid (<[a := with_status n v]> h) self l.
Proof.
  intros Hn [Hd Hc]%Valid_dll. apply Valid_dll. split; [|done].
  by apply dlseg_set_status.
Qed.

Lemma has_status_set_status h a n v st b :
  h !! a = Some n →
  has_status (<[a := with_status n v]> h) st b
  = if decide (b = a) then bool_decide (v = st) else has_status h st b.
Proof.
  intros Hn. unfold has_status. destruct (decide (b = a)) as [->|Hba].
  - by rewrite (lookup_upd_eq _ _ _ _ Hn).
  - by rewrite lookup_upd_ne.
Qed.

Lemma swept_set_status h l a n v :
  h !! a = Some n → v ≠ PStr "deleted" → swept h l →
  swept (<[a := with_status n v]> h) l.
Proof.
  intros Hn Hv Hs b Hb. rewrite (has_status_set_status _ _ _ _ _ _ Hn).
  destruct (decide (b = a)); [by apply bool_decide_eq_false|by apply Hs].
Qed.

Lemma set_status_same (h : heap) (a : nat) n : h !! a = Some n → <[a := with_status n (status n)]> h = h.
Proof. intros Hn. apply list_insert_id. rewrite Hn. by destruct n. Qed.

Lemma set_status_twice (h : heap) (a : nat) n v v' :
  <[a := with_status (with_status n v) v']> (<[a := with_status n v]> h)
  = <[a := with_status n v']> h.
Proof. by rewrite list_insert_insert_eq. Qed.

(** On a swept container [refresh_ui] only adds the gain. *)
Lemma refresh_ui_swept fuel h self l z :
  Valid h (task_list self) l → swept h l → (length l < fuel)%nat →
  refresh_ui fuel self z h
  = Ok ({| task_list := task_list self;
           total_xp := total_xp self + Z.max 0 z |}, h).
Proof.
  intros Hv Hs Hf.
  destruct (refresh_ui_loop_sweep fuel h (task_list self) l Hv Hf)
    as (tl' & h' & Hrun & _ & _ & _ & Hnop).
  destruct (Hnop Hs) as [-> ->].
  unfold refresh_ui. rewrite (bind_ok _ _ _ _ _ Hrun). unfold ret. do 3 f_equal.
  destruct (Z.ltb_spec 0 z); lia.
Qed.

Lemma App_eta (self : App) xp :
  xp = total_xp self → {| task_list := task_list self; total_xp := xp |} = self.
Proof. intros ->. by destruct self. Qed.

(** The three cases of [move_next] and the two of [move_prev]. *)
Lemma move_next_todo fuel h self l a n :
  Valid h (task_list self) l → swept h l → (length l < fuel)%nat →
  h !! a = Some n → status n = PStr "todo" →
  move_next fuel self a h = Ok (self, <[a := with_status n (PStr "doing")]> h).
Proof.
  intros Hv Hs Hf Hn Hst. unfold move_next.
  rewrite (bind_ok _ _ _ _ _ (load_ok _ _ _ Hn)). cbv beta.
  rewrite decide_True by done.
  rewrite (bind_ok _ _ _ _ _
             (bind_ok _ _ _ _ _ (set_status_ok _ _ _ (PStr "doing") Hn))).
  cbv beta. unfold update_callback.
  rewrite (refresh_ui_swept fuel _ self l 0);
    [|by apply Valid_set_status|by apply swept_set_status|done].
  do 2 f_equal. apply App_eta. cbn. lia.
Qed.

Lemma move_next_doing fuel h self l a n :
  Valid h (task_list self) l → swept h l → (length l < fuel)%nat →
  h !! a = Some n → status n = PStr "doing" →
  move_next fuel self a h
  = match xp_value n with
    | PInt z => Ok ({| task_list := task_list self;
                       total_xp := total_xp self + Z.max 0 z |},
                    <[a := with_status n (PStr "done")]> h)
    | _ => Raise TypeError
    end.
Proof.
  intros Hv Hs Hf Hn Hst. unfold move_next.
  rewrite (bind_ok _ _ _ _ _ (load_ok _ _ _ Hn)). cbv beta.
  rewrite decide_False by (rewrite Hst; done). rewrite decide_True by done.
  assert ((set_status a (PStr "done") ;;; n' <- load a ;; ret (xp_value n')) h
          = Ok (xp_value n, <[a := with_status n (PStr "done")]> h)) as Hstep.
  { rewrite (bind_ok _ _ _ _ _ (set_status_ok _ _ _ (PStr "done") Hn)). cbv beta.
    by rewrite (bind_ok _ _ _ _ _ (load_ok _ _ _ (lookup_upd_eq _ _ _ _ Hn))). }
  rewrite (bind_ok _ _ _ _ _ Hstep). cbv beta. unfold update_callback.
  destruct (xp_value n) as [|z|s]; [done| |done].
  by rewrite (refresh_ui_swept fuel _ self l z);
    [|by apply Valid_set_status|by apply swept_set_status|done].
Qed.

Lemma move_next_other fuel h self l a n :
  Valid h (task_list self) l → swept h l → (length l < fuel)%nat →
  h !! a = Some n → status n ≠ PStr "todo" → status n ≠ PStr "doing" →
  move_next fuel self a h = Ok (self, h).
Proof.
  intros Hv Hs Hf Hn H1 H2. unfold move_next.
  rewrite (bind_ok _ _ _ _ _ (load_ok _ _ _ Hn)). cbv beta.
  rewrite !decide_False by done. unfold bind at 1, ret at 1. unfold update_callback.
  rewrite (refresh_ui_swept fuel _ self l 0) by done.
  do 2 f_equal. apply App_eta. cbn. lia.
Qed.

Lemma move_prev_doing fuel h self l a n :
  Valid h (task_list self) l → swept h l → (length l < fuel)%nat →
  h !! a = Some n → status n = PStr "doing" →
  move_prev fuel self a h = Ok (self, <[a := with_status n (PStr "todo")]> h).
Proof.
  intros Hv Hs Hf Hn Hst. unfold move_prev.
  rewrite (bind_ok _ _ _ _ _ (load_ok _ _ _ Hn)). cbv beta.
  rewrite decide_True by done.
  rewrite (bind_ok _ _ _ _ _ (set_status_ok _ _ _ (PStr "todo") Hn)).
  cbv beta. unfold update_callback.
  rewrite (refresh_ui_swept fuel _ self l 0);
    [|by apply Valid_set_status|by apply swept_set_status|done].
  do 2 f_equal. apply App_eta. cbn. lia.
Qed.

Lemma move_prev_other fuel h self l a n :
  Valid h (task_list self) l → swept h l → (length l < fuel)%nat →
  h !! a = Some n → status n ≠ PStr "doing" →
  move_prev fuel self a h = Ok (self, h).
Proof.
  intros Hv Hs Hf Hn H1. unfold move_prev.
  rewrite (bind_ok _ _ _ _ _ (load_ok _ _ _ Hn)). cbv beta.
  rewrite decide_False by done. unfold bind at 1, ret at 1. unfold update_callback.
  rewrite (refresh_ui_swept fuel _ self l 0) by done.
  do 2 f_equal. apply App_eta. cbn. lia.
Qed.

Lemma ex_swept : swept ex_heap [0; 1; 2]%nat.
Proof.
  intros b Hb. repeat (apply elem_of_cons in Hb as [->|Hb]; [done|]).
  by apply elem_of_nil in Hb.
Qed.

(** X11. The buttons of a card, on a valid container without marked tasks.
    [move_next] turns "todo" into "doing" and "doing" into "done", and
    leaves a task with any other status as it is; only the step to "done"
    gives XP, the XP value of the task when that is positive, and it raises
    TypeError when the XP value is not a number.  [move_prev] turns "doing"
    into "todo" and does nothing else.  Neither changes the container, the
    links or any other field. *)
Theorem card_buttons fuel h self l a n :
  Valid h (task_list self) l → swept h l → (length l < fuel)%nat →
  h !! a = Some n →
  move_next fuel self a h
  = (if decide (status n = PStr "todo") then
       Ok (self, <[a := with_status n (PStr "doing")]> h)
     else if decide (status n = PStr "doing") then
       match xp_value n with
       | PInt z => Ok ({| task_list := task_list self;
                          total_xp := total_xp self + Z.max 0 z |},
                       <[a := with_status n (PStr "done")]> h)
       | _ => Raise TypeError
       end
     else Ok (self, h)) ∧
  move_prev fuel self a h
  = (if decide (status n = PStr "doing") then
       Ok (self, <[a := with_status n (PStr "todo")]> h)
     else Ok (self, h)).
Proof.
  intros Hv Hs Hf Hn. split.
  - destruct (decide (status n = PStr "todo")) as [E1|E1];
      [by eapply move_next_todo|].
    destruct (decide (status n = PStr "doing")) as [E2|E2];
      [by eapply move_next_doing|by eapply move_next_other].
  - destruct (decide (status n = PStr "doing")) as [E2|E2];
      [by eapply move_prev_doing|by eapply move_prev_other].
Qed.

Lemma card_buttons_witness :
  move_next 4 ex_app 1%nat ex_heap
  = Ok (ex_app,
        <[1%nat := mkTaskNode (PStr "B") (PStr "doing") (PStr "low") (PStr "2025-02-01")
                              [] (PInt 20) (Some 2%nat) (Some 0%nat)]> ex_heap) ∧
  move_prev 4 ex_app 1%nat ex_heap = Ok (ex_app, ex_heap).
Proof.
  exact (card_buttons 4 ex_heap ex_app [0; 1; 2]%nat 1%nat _ ex_valid ex_swept
           ltac:(cbn; lia) eq_refl).
Defined.

Lemma run_presses_cons fuel p ps self a h self1 h1 :
  run_press fuel p self a h = Ok (self1, h1) →
  run_presses fuel (p :: ps) self a h = run_presses fuel ps self1 a h1.
Proof. intros H. cbn [run_presses]. by rewrite (bind_ok _ _ _ _ _ H). Qed.

(** X12. However the two buttons of a card are pressed, the task gives its
    XP at most once: after any sequence of presses the total has grown by
    the XP value of the task (when positive) if the task has become "done"
    during the sequence, and not at all otherwise.  A task that is "done",
    or whose status is none of the three, is not moved by any press. *)
Theorem presses_award_xp_once fuel l a z ps :
  ∀ h self n,
    Valid h (task_list self) l → swept h l → (length l < fuel)%nat →
    h !! a = Some n → xp_value n = PInt z →
    ∃ s',
      run_presses fuel ps self a h
      = Ok ({| task_list := task_list self;
               total_xp := total_xp self
                           + (if decide (s' = PStr "done" ∧ status n ≠ PStr "done")
                              then Z.max 0 z else 0) |},
            <[a := with_status n s']> h) ∧
      (status n ≠ PStr "todo" → status n ≠ PStr "doing" → s' = status n).
Proof.
  induction ps as [|p ps IH]; intros h self n Hv Hs Hf Hn Hxp.
  { exists (status n). split; [|done]. cbn [run_presses]. unfold ret.
    rewrite set_status_same by done. do 2 f_equal. symmetry. apply App_eta.
    case_decide; [naive_solver|lia]. }
  assert (run_press fuel p self a h = Ok (self, h) →
          ∃ s',
            run_presses fuel (p :: ps) self a h
            = Ok ({| task_list := task_list self;
                     total_xp := total_xp self
                                 + (if decide (s' = PStr "done" ∧ status n ≠ PStr "done")
                                    then Z.max 0 z else 0) |},
                  <[a := with_status n s']> h) ∧
            (status n ≠ PStr "todo" → status n ≠ PStr "doing" → s' = status n))
    as Hsame.
  { intros Hrun. destruct (IH h self n) as (s' & Hrest & Habs'); [done..|].
    exists s'. split; [|done]. by rewrite (run_presses_cons _ _ _ _ _ _ _ _ Hrun). }
  assert (∀ s1 g,
            run_press fuel p self a h
            = Ok ({| task_list := task_list self; total_xp := total_xp self + g |},
                  <[a := with_status n s1]> h) →
            s1 ≠ PStr "deleted" →
            (g = 0 ∧ (s1 = PStr "done" ↔ status n = PStr "done")
             ∨ g = Z.max 0 z ∧ s1 = PStr "done" ∧ status n = PStr "doing") →
            (status n ≠ PStr "todo" → status n ≠ PStr "doing" → s1 = status n) →
            ∃ s',
              run_presses fuel (p :: ps) self a h
              = Ok ({| task_list := task_list self;
                       total_xp := total_xp self
                                   + (if decide (s' = PStr "done" ∧ status n ≠ PStr "done")
                                      then Z.max 0 z else 0) |},
                    <[a := with_status n s']> h) ∧
              (status n ≠ PStr "todo" → status n ≠ PStr "doing" → s' = status n))
    as Hstep.
  { intros s1 g Hrun Hs1 Hg Habs.
    destruct (IH (<[a := with_status n s1]> h)
                 {| task_list := task_list self; total_xp := total_xp self + g |}
                 (with_status n s1))
      as (s' & Hrest & Habs'); [by apply Valid_set_status|by apply swept_set_status|done
                               |by eapply lookup_upd_eq|done|].
    exists s'. split.
    - rewrite (run_presses_cons _ _ _ _ _ _ _ _ Hrun), Hrest.
      cbn [task_list total_xp status with_status]. rewrite set_status_twice.
      do 3 f_equal.
      destruct Hg as [(-> & Hiff)|(-> & -> & Hdoing)].
      + repeat case_decide; try lia; exfalso; naive_solver.
      + rewrite Hdoing. rewrite (Habs' ltac:(done) ltac:(done)).
        repeat case_decide; try lia; exfalso; naive_solver.
    - intros H1 H2. rewrite <- (Habs H1 H2). apply Habs'; cbn; by rewrite (Habs H1 H2). }
  destruct p; cbn [run_press] in Hstep, Hsame.
  - destruct (decide (status n = PStr "todo")) as [E1|E1];
      [|destruct (decide (status n = PStr "doing")) as [E2|E2]].
    + apply (Hstep (PStr "doing") 0); [|done| |congruence].
      * rewrite (move_next_todo fuel h self l a n) by done.
        do 2 f_equal. symmetry. apply App_eta. lia.
      * left. split; [done|]. rewrite E1. split; congruence.
    + apply (Hstep (PStr "done") (Z.max 0 z)); [|done| |congruence].
      * rewrite (move_next_doing fuel h self l a n) by done. by rewrite Hxp.
      * right. done.
    + apply Hsame. by apply (move_next_other fuel h self l a n).
  - destruct (decide (status n = PStr "doing")) as [E2|E2].
    + apply (Hstep (PStr "todo") 0); [|done| |congruence].
      * rewrite (move_prev_doing fuel h self l a n) by done.
        do 2 f_equal. symmetry. apply App_eta. lia.
      * left. split; [done|]. rewrite E2. split; congruence.
    + apply Hsame. by apply (move_prev_other fuel h self l a n).
Qed.

Lemma presses_award_xp_once_witness :
  ∃ s',
    run_presses 4 [PressNext; PressPrev; PressNext; PressNext; PressNext; PressPrev]
                ex_app 1%nat ex_heap
    = Ok ({| task_list := ex_list;
             total_xp := 0 + (if decide (s' = PStr "done" ∧ PStr "todo" ≠ PStr "done")
                              then Z.max 0 20 else 0) |},
          <[1%nat := mkTaskNode (PStr "B") s' (PStr "low") (PStr "2025-02-01")
                                [] (PInt 20) (Some 2%nat) (Some 0%nat)]> ex_heap) ∧
    (PStr "todo" ≠ PStr "todo" → PStr "todo" ≠ PStr "doing" → s' = PStr "todo").
Proof.
  exact (presses_award_xp_once 4 [0; 1; 2]%nat 1%nat 20
           [PressNext; PressPrev; PressNext; PressNext; PressNext; PressPrev]
           ex_heap ex_app _ ex_valid ex_swept ltac:(cbn; lia) eq_refl eq_refl).
Defined.

(** X13. [delete_me] marks the task of the card and sweeps: when the task
    is in the container it is taken out of the list, together with any
    other task that was marked, and the tasks that stay keep their order and
    their fields; the XP is as it was.  The node itself stays as it is but
    for its status "deleted". *)
Theorem delete_me_removes fuel h self l1 a l2 n :
  Valid h (task_list self) (l1 ++ a :: l2) → h !! a = Some n →
  (length (l1 ++ a :: l2) < fuel)%nat →
  ∃ self' h',
    delete_me fuel self a h = Ok (self', h') ∧
    Valid h' (task_list self')
          (filter (λ b, has_status h (PStr "deleted") b = false) (l1 ++ l2)) ∧
    total_xp self' = total_xp self ∧
    heap_ext (<[a := with_status n (PStr "deleted")]> h) h' ∧
    (swept h (l1 ++ l2) →
     Valid h' (task_list self') (l1 ++ l2) ∧
     count (task_list self') = count (task_list self) - 1).
Proof.
  intros Hv Hn Hf. pose proof (Valid_split_notin _ _ _ _ _ Hv) as Ha.
  set (h1 := <[a := with_status n (PStr "deleted")]> h).
  assert (Valid h1 (task_list self) (l1 ++ a :: l2)) as Hv1 by (by apply Valid_set_status).
  destruct (refresh_ui_loop_sweep fuel h1 (task_list self) _ Hv1 Hf)
    as (tl' & h' & Hrun & Hv' & _ & Hext & _).
  assert (filter (λ b, has_status h1 (PStr "deleted") b = false) (l1 ++ a :: l2)
          = filter (λ b, has_status h (PStr "deleted") b = false) (l1 ++ l2)) as Hfil.
  { assert (∀ l : list nat, a ∉ l →
                 filter (λ b, has_status h1 (PStr "deleted") b = false) l
                 = filter (λ b, has_status h (PStr "deleted") b = false) l) as Hsame.
    { intros l Hl. apply filter_ext_in. intros b Hb. unfold h1.
      rewrite (has_status_set_status _ _ _ _ _ _ Hn).
      destruct (decide (b = a)) as [->|]; [done|done]. }
    rewrite !filter_app, filter_cons_False.
    - rewrite !Hsame; [done|..]; intros Hin; apply Ha; solve_elem.
    - unfold h1. rewrite (has_status_set_status _ _ _ _ _ _ Hn), decide_True by done.
      by rewrite bool_decide_eq_true_2. }
  rewrite Hfil in Hv'.
  eexists {| task_list := tl'; total_xp := total_xp self |}, h'. split.
  { unfold delete_me. rewrite (bind_ok _ _ _ _ _ (set_status_ok _ _ _ _ Hn)).
    cbv beta. fold h1. unfold update_callback, refresh_ui.
    rewrite (bind_ok _ _ _ _ _ Hrun). done. }
  cbn [task_list total_xp]. split; [done|]. split; [done|]. split; [done|].
  intros Hsw.
  assert (filter (λ b, has_status h (PStr "deleted") b = false) (l1 ++ l2) = l1 ++ l2)
    as Hall.
  { clear -Hsw. induction (l1 ++ l2) as [|b l IH]; [done|].
    rewrite filter_cons_True by (apply Hsw; left).
    f_equal. apply IH. intros c Hc. apply Hsw. by right. }
  rewrite Hall in Hv'. split; [done|].
  rewrite (valid_count _ _ _ Hv'), (valid_count _ _ _ Hv), !length_app. cbn. lia.
Qed.

Lemma delete_me_removes_witness :
  ∃ self' h',
    delete_me 4 ex_app 1%nat ex_heap = Ok (self', h') ∧
    Valid h' (task_list self') [0; 2]%nat ∧
    total_xp self' = 0 ∧
    heap_ext (<[1%nat := mkTaskNode (PStr "B") (PStr "deleted") (PStr "low")
                                    (PStr "2025-02-01") [] (PInt 20)
                                    (Some 2%nat) (Some 0%nat)]> ex_heap) h' ∧
    (swept ex_heap [0; 2]%nat →
     Valid h' (task_list self') [0; 2]%nat ∧ count (task_list self') = 3 - 1).
Proof.
  exact (delete_me_removes 4 ex_heap ex_app [0%nat] 1%nat [2%nat] _ ex_valid eq_refl
           ltac:(cbn; lia)).
Defined.

(** ** The notifications *)

Lemma prefix_app (d s : string) : String.prefix d (d +:+ s) = true.
Proof.
  induction d as [|c d IH].
  - change ("" +:+ s)%string with s. by destruct s.
  - change (String c d +:+ s)%string with (String c (d +:+ s)). cbn [String.prefix].
    destruct (Ascii.ascii_dec c c); [done|congruence].
Qed.

Lemma str_in_app (d s : string) : str_in d (d +:+ s) = true.
Proof.
  destruct (d +:+ s)%string eqn:E; cbn [str_in]; rewrite <- E; by rewrite prefix_app.
Qed.

(** One round of the loop at a node whose due date is None or a string. *)
Lemma _check_loop_step fuel plyer now_str sent c n h :
  h !! c = Some n → dated n →
  _check_loop (S fuel) plyer now_str sent (Some c) h
  = if is_due now_str n then
      if plyer then _check_loop fuel plyer now_str (sent ++ [description n]) (next n) h
      else Raise AttributeError
    else _check_loop fuel plyer now_str sent (next n) h.
Proof.
  intros Hn Hd. cbn [_check_loop]. rewrite (bind_ok _ _ _ _ _ (load_ok _ _ _ Hn)).
  cbv beta. unfold is_due, dated in *. destruct (due_date n) as [|z|d]; [done|done|].
  cbn [truthy]. destruct (negb (String.eqb d "")); cbn [andb]; [|done].
  destruct (negb (bool_decide (status n = PStr "done"))); cbn [andb]; [|done].
  destruct (str_in d now_str); [|done]. by destruct plyer.
Qed.

Lemma due_at_lookup h now_str a n :
  h !! a = Some n → due_at h now_str a = is_due now_str n.
Proof. intros Hn. unfold due_at. by rewrite Hn. Qed.

Lemma _check_loop_spec fuel plyer now_str h p cur l sent :
  dlseg h p cur l None →
  (∀ a n, a ∈ l → h !! a = Some n → dated n) → (length l < fuel)%nat →
  _check_loop fuel plyer now_str sent cur h
  = if plyer || bool_decide (filter (λ a, due_at h now_str a = true) l = [])
    then Ok (sent ++ notified h now_str l, h)
    else Raise AttributeError.
Proof.
  revert p cur l sent. induction fuel as [|fuel IH]; intros p cur l sent H Hd Hf; [lia|].
  destruct l as [|a l].
  - cbn in H. subst cur. cbn. unfold ret. rewrite orb_true_r. by rewrite app_nil_r.
  - destruct H as (-> & n & Hn & Hp & Hrest).
    rewrite (_check_loop_step _ _ _ _ _ n) by (done || (eapply Hd; [left|done])).
    pose proof (due_at_lookup h now_str a n Hn) as Hdue.
    unfold notified. rewrite filter_cons.
    destruct (is_due now_str n).
    + rewrite decide_True by done. rewrite (bool_decide_eq_false_2 (_ :: _ = [])) by done.
      rewrite orb_false_r. destruct plyer; [|done].
      rewrite (IH _ _ _ _ Hrest); [|intros b nb Hb; apply Hd; by right|cbn in Hf; lia].
      cbn [orb omap list_omap]. rewrite Hn. cbn. by rewrite <- app_assoc.
    + rewrite decide_False by (by rewrite Hdue).
      by rewrite (IH _ _ _ _ Hrest);
        [|intros b nb Hb; apply Hd; by right|cbn in Hf; lia].
Qed.

Lemma elem_of_notified h now_str l a n :
  a ∈ l → h !! a = Some n → is_due now_str n = true →
  description n ∈ notified h now_str l.
Proof.
  intros Ha Hn Hdue. unfold notified. apply list_elem_of_omap.
  exists a. split; [|by rewrite Hn].
  apply list_elem_of_filter. split; [|done]. unfold due_at. by rewrite Hn.
Qed.

(** X14. One pass of the notification service over a valid container whose
    due dates are None or strings.  The tasks to announce are those that are
    not "done" and whose due date is a non-empty string that occurs in the
    text of the current time: a task that is done or has no date is never
    among them, a task marked "deleted" but not yet swept still is, and a
    task whose due date is a day is among them at every pass of that day,
    whatever the time.  With plyer the pass announces them in the order of
    the list and changes nothing.  Without plyer the stand-in that the
    module defines for [notification] has no [notify]: the pass returns
    only when there is nothing to announce, and ends with AttributeError at
    the first task to announce otherwise. *)
Theorem check_loop_notifies fuel plyer h self l now_str :
  Valid h self l →
  (∀ a n, a ∈ l → h !! a = Some n → dated n) → (length l < fuel)%nat →
  _check_loop fuel plyer now_str [] (head self) h
    = (if plyer || bool_decide (filter (λ a, due_at h now_str a = true) l = [])
       then Ok (notified h now_str l, h)
       else Raise AttributeError) ∧
  (∀ a n, a ∈ l → h !! a = Some n →
          status n = PStr "done" ∨ truthy (due_date n) = false →
          is_due now_str n = false) ∧
  (∀ a n d time, a ∈ l → h !! a = Some n → due_date n = PStr d → d ≠ ""%string →
                 status n ≠ PStr "done" → now_str = (d +:+ time)%string →
                 description n ∈ notified h now_str l ∧
                 filter (λ a, due_at h now_str a = true) l ≠ []).
Proof.
  intros [Hd _]%Valid_dll Hdated Hf. split_and!.
  - by rewrite (_check_loop_spec fuel plyer now_str h None (head self) l [] Hd Hdated Hf).
  - intros a n _ _ [Hs|Ht]; unfold is_due.
    + destruct (due_date n); [done..|]. rewrite Hs.
      rewrite bool_decide_eq_true_2 by done. cbn. by rewrite andb_false_r.
    + destruct (due_date n); [done..|]. cbn in Ht. by rewrite Ht.
  - intros a n d time Ha Hn Hdue Hne Hst ->.
    assert (is_due (d +:+ time) n = true) as Hisdue.
    { unfold is_due. rewrite Hdue, str_in_app.
      rewrite bool_decide_eq_false_2 by done.
      apply String.eqb_neq in Hne. by rewrite Hne. }
    split; [by eapply elem_of_notified|].
    intros Hnil.
    assert (a ∈ filter (λ a, due_at h (d +:+ time) a = true) l) as Hin.
    { apply list_elem_of_filter. split; [|done]. by rewrite (due_at_lookup _ _ _ _ Hn). }
    rewrite Hnil in Hin. by apply elem_of_nil in Hin.
Qed.

Lemma check_loop_notifies_witness :
  _check_loop 4 true "2025-02-01 09:30" [] (head ex_list) ex_heap
    = Ok ([PStr "B"], ex_heap) ∧
  _check_loop 4 false "2025-02-01 09:30" [] (head ex_list) ex_heap
    = Raise AttributeError ∧
  _check_loop 4 false "2026-01-01 00:00" [] (head ex_list) ex_heap
    = Ok ([], ex_heap).
Proof.
  assert (∀ a n, a ∈ [0; 1; 2]%nat → ex_heap !! a = Some n → dated n) as Hd.
  { intros a n Ha Hn.
    repeat (apply elem_of_cons in Ha as [->|Ha]; [by injection Hn as <-|]).
    by apply elem_of_nil in Ha. }
  split_and!.
  - exact (proj1 (check_loop_notifies 4 true ex_heap ex_list [0; 1; 2]%nat
                    "2025-02-01 09:30" ex_valid Hd ltac:(cbn; lia))).
  - exact (proj1 (check_loop_notifies 4 false ex_heap ex_list [0; 1; 2]%nat
                    "2025-02-01 09:30" ex_valid Hd ltac:(cbn; lia))).
  - exact (proj1 (check_loop_notifies 4 false ex_heap ex_list [0; 1; 2]%nat
                    "2026-01-01 00:00" ex_valid Hd ltac:(cbn; lia))).
Defined.

(** X15. The pass does not check the type of a due date.  When it comes to
    a task that is not "done" and whose due date is a number other than 0,
    the test [due_date in now_str] raises TypeError and the pass ends,
    whatever tasks follow.  It comes to that task when the tasks before it
    have due dates that are None or strings and, without plyer, none of
    them is to be announced; without plyer and with such a task before it,
    the pass has ended there with AttributeError. *)
Theorem check_loop_number_raises fuel plyer h self l1 a l2 n z now_str :
  Valid h self (l1 ++ a :: l2) →
  (∀ b nb, b ∈ l1 → h !! b = Some nb → dated nb) →
  h !! a = Some n → due_date n = PInt z → z ≠ 0 → status n ≠ PStr "done" →
  (length l1 < fuel)%nat →
  _check_loop fuel plyer now_str [] (head self) h
  = if plyer || bool_decide (filter (λ b, due_at h now_str b = true) l1 = [])
    then Raise TypeError
    else Raise AttributeError.
Proof.
  intros [Hd _]%Valid_dll Hdated Hn Hdue Hz Hst Hf. unfold dll in Hd.
  apply dlseg_app in Hd as (m & H1 & (-> & n0 & Hn0 & _ & _)).
  assert (n0 = n) as -> by congruence. clear Hn0.
  generalize (@nil pyval) as sent. revert H1 Hdated Hf.
  generalize (head self) as cur. generalize (@None nat) as p.
  revert fuel. induction l1 as [|b l1 IH]; intros fuel p cur H1 Hdated Hf sent.
  - cbn in H1. subst cur. destruct fuel as [|fuel]; [lia|].
    rewrite filter_nil, bool_decide_eq_true_2, orb_true_r by done.
    cbn [_check_loop]. rewrite (bind_ok _ _ _ _ _ (load_ok _ _ _ Hn)). cbv beta.
    rewrite Hdue. cbn [truthy]. apply Z.eqb_neq in Hz. rewrite Hz.
    rewrite bool_decide_eq_false_2 by done. done.
  - destruct H1 as (-> & nb & Hnb & _ & Hrest). destruct fuel as [|fuel]; [cbn in Hf; lia|].
    rewrite (_check_loop_step _ _ _ _ _ nb) by (done || (eapply Hdated; [left|done])).
    pose proof (due_at_lookup h now_str b nb Hnb) as Hb.
    assert (∀ sent', _check_loop fuel plyer now_str sent' (next nb) h
                     = if plyer || bool_decide
                                     (filter (λ b, due_at h now_str b = true) l1 = [])
                       then Raise TypeError else Raise AttributeError) as Hrec.
    { intros sent'. eapply IH; [done| |cbn in Hf; lia].
      intros c nc Hc. apply Hdated. by right. }
    rewrite filter_cons. destruct (is_due now_str nb).
    + rewrite decide_True by done. rewrite (bool_decide_eq_false_2 (_ :: _ = [])) by done.
      rewrite orb_false_r. destruct plyer; [|done]. by rewrite Hrec.
    + rewrite decide_False by (by rewrite Hb). by rewrite Hrec.
Qed.

Lemma check_loop_number_raises_witness :
  _check_loop 1 false "2025-11-20 08:00" [] (head numbered_list) numbered_heap
  = Raise TypeError.
Proof.
  refine (check_loop_number_raises 1 false numbered_heap numbered_list [] 0%nat [1%nat] _
            20251120 "2025-11-20 08:00" _ _ eq_refl eq_refl ltac:(lia) ltac:(done)
            ltac:(cbn; lia)).
  - apply Valid_dll. split; [|done]. unfold dll. cbn. repeat (split || eexists).
  - intros b nb Hb. by apply elem_of_nil in Hb.
Defined.

(** ** The XP and the sweep of [refresh_ui] *)

Lemma swept_filter h h' l :
  heap_ext h h' → (∀ a, a ∈ l → is_Some (h !! a)) →
  swept h' (filter (λ a, has_status h (PStr "deleted") a = false) l).
Proof.
  intros Hext Hl a [Ha Hin]%list_elem_of_filter.
  by rewrite (has_status_ext h h' _ a Hext (Hl a Hin)).
Qed.

(** X16. [refresh_ui] adds a gain that is positive to [total_xp] and
    ignores any other, so that the XP never goes down and the level, one
    more than the number of full 500s, never does either.  After it no task
    of the container is marked "deleted", and a second [refresh_ui] changes
    neither the container nor any node. *)
Theorem refresh_ui_xp_and_idempotent fuel h self l xp_gain :
  Valid h (task_list self) l → (length l < fuel)%nat →
  ∃ self1 h1 l1,
    refresh_ui fuel self xp_gain h = Ok (self1, h1) ∧
    total_xp self1 = total_xp self + Z.max 0 xp_gain ∧
    total_xp self ≤ total_xp self1 ∧
    update_xp_display self ≤ update_xp_display self1 ∧
    Valid h1 (task_list self1) l1 ∧ swept h1 l1 ∧
    ∀ xp_gain2,
      refresh_ui fuel self1 xp_gain2 h1
      = Ok ({| task_list := task_list self1;
               total_xp := total_xp self1 + Z.max 0 xp_gain2 |}, h1).
Proof.
  intros Hv Hf.
  destruct (refresh_ui_loop_sweep fuel h (task_list self) l Hv Hf)
    as (tl' & h1 & Hrun & Hv1 & _ & Hext & _).
  set (l1 := filter (λ a, has_status h (PStr "deleted") a = false) l) in *.
  assert (length l1 < fuel)%nat as Hf1.
  { pose proof (length_filter_bool (has_status h (PStr "deleted")) l). unfold l1. lia. }
  assert (swept h1 l1) as Hs1.
  { apply swept_filter; [done|]. intros a Ha. by eapply Valid_is_Some. }
  eexists {| task_list := tl';
             total_xp := if 0 <? xp_gain then total_xp self + xp_gain else total_xp self |},
          h1, l1.
  split. { unfold refresh_ui. by rewrite (bind_ok _ _ _ _ _ Hrun). }
  cbn [task_list total_xp].
  assert ((if 0 <? xp_gain then total_xp self + xp_gain else total_xp self)
          = total_xp self + Z.max 0 xp_gain) as -> by (destruct (Z.ltb_spec 0 xp_gain); lia).
  split; [done|]. split; [lia|]. split.
  { unfold update_xp_display. cbn [total_xp].
    apply Z.add_le_mono_l, Z.div_le_mono; lia. }
  split; [done|]. split; [done|].
  intros g2. by rewrite (refresh_ui_swept fuel h1 _ l1 g2).
Qed.

Lemma refresh_ui_xp_and_idempotent_witness :
  ∃ self1 h1 l1,
    refresh_ui 5 swept_app (-30) swept_heap = Ok (self1, h1) ∧
    total_xp self1 = 0 + Z.max 0 (-30) ∧
    0 ≤ total_xp self1 ∧
    update_xp_display swept_app ≤ update_xp_display self1 ∧
    Valid h1 (task_list self1) l1 ∧ swept h1 l1 ∧
    ∀ xp_gain2,
      refresh_ui 5 self1 xp_gain2 h1
      = Ok ({| task_list := task_list self1;
               total_xp := total_xp self1 + Z.max 0 xp_gain2 |}, h1).
Proof.
  refine (refresh_ui_xp_and_idempotent 5 swept_heap swept_app [0; 1; 2; 3]%nat (-30)
            _ ltac:(cbn; lia)).
  apply Valid_dll. split; [|done]. unfold dll. cbn. repeat (split || eexists).
Defined.

(** ** New tasks from the form, and the start of the application *)

Lemma filter_snoc_True {A} (P : A → Prop) `{!∀ x, Decision (P x)} (l : list A) x :
  P x → filter P (l ++ [x]) = filter P l ++ [x].
Proof. intros Hx. by rewrite filter_app, filter_cons_True, filter_nil. Qed.

(** X17. [add_new_task] does nothing when the description is empty.
    Otherwise it appends one task with the status "todo", the description
    and the priority as they were typed (the priority may be any text) and
    the due date None when the date field is blank, and then sweeps: the
    container holds the tasks that were not marked, in their order, and
    then the new task. *)
Theorem add_new_task_appends fuel h self l desc pri due :
  Valid h (task_list self) l → (S (length l) < fuel)%nat → desc ≠ ""%string →
  add_new_task fuel self "" pri due h = Ok (self, h) ∧
  ∃ self' h' n,
    add_new_task fuel self desc pri due h = Ok (self', h') ∧
    Valid h' (task_list self')
          (filter (λ a, has_status h (PStr "deleted") a = false) l ++ [length h]) ∧
    h' !! length h = Some n ∧
    description n = PStr desc ∧ priority n = PStr pri ∧
    due_date n = (if String.eqb due "" then PNone else PStr due) ∧
    status n = PStr "todo" ∧
    total_xp self' = total_xp self ∧
    heap_ext h h'.
Proof.
  intros Hv Hf Hdesc. split; [done|].
  set (dd := if String.eqb due "" then PNone else PStr due).
  destruct (alloc_add_task_node_spec fuel h (task_list self) l
              (TaskNode_init (PStr desc) (PStr pri) dd (PStr "todo") PNone)
              Hv eq_refl eq_refl ltac:(lia))
    as (self1 & h1 & Hrun & Hv1 & Hext1 & Hlen1 & n1 & Hn1 & Htask1).
  destruct (refresh_ui_loop_sweep fuel h1 self1 _ Hv1)
    as (self2 & h2 & Hrun2 & Hv2 & _ & Hext2 & _).
  { rewrite length_app. cbn. lia. }
  apply task_of_fields in Htask1 as (Hd1 & Hs1 & Hp1 & Hdd1 & _).
  cbn in Hd1, Hs1, Hp1, Hdd1.
  assert (filter (λ a, has_status h1 (PStr "deleted") a = false) (l ++ [length h])
          = filter (λ a, has_status h (PStr "deleted") a = false) l ++ [length h]) as Hfil.
  { rewrite filter_snoc_True.
    - f_equal. apply filter_ext_in. intros a Ha.
      rewrite (has_status_ext h h1); [done..|]. by eapply Valid_is_Some.
    - unfold has_status. rewrite Hn1, Hs1. done. }
  rewrite Hfil in Hv2.
  destruct (Hext2 _ _ Hn1) as (n2 & Hn2 & Htask2).
  apply task_of_fields in Htask2 as (Hd2 & Hs2 & Hp2 & Hdd2 & _).
  eexists {| task_list := self2; total_xp := total_xp self |}, h2, n2. split.
  { assert (add_task fuel (task_list self) (PStr desc) (PStr pri) dd h
            = Ok ((self1, length h), h1)) as Hadd.
    { unfold bind, alloc in Hrun. unfold add_task, bind, alloc. by rewrite Hrun. }
    unfold add_new_task. apply String.eqb_neq in Hdesc. rewrite Hdesc. fold dd.
    rewrite (bind_ok _ _ _ _ _ Hadd). cbn [fst].
    unfold refresh_ui. cbn [task_list total_xp].
    by rewrite (bind_ok _ _ _ _ _ Hrun2). }
  cbn [task_list total_xp].
  split_and!; [done|done|congruence|congruence|congruence|congruence|done|].
  exact (heap_ext_trans _ _ _ Hext1 Hext2).
Qed.

Lemma add_new_task_appends_witness :
  add_new_task 6 swept_app "" "high" "" swept_heap = Ok (swept_app, swept_heap) ∧
  ∃ self' h' n,
    add_new_task 6 swept_app "E" "high" "" swept_heap = Ok (self', h') ∧
    Valid h' (task_list self') ([0; 3] ++ [4])%nat ∧
    h' !! 4%nat = Some n ∧
    description n = PStr "E" ∧ priority n = PStr "high" ∧
    due_date n = PNone ∧
    status n = PStr "todo" ∧
    total_xp self' = 0 ∧
    heap_ext swept_heap h'.
Proof.
  refine (add_new_task_appends 6 swept_heap swept_app [0; 1; 2; 3]%nat "E" "high" ""
            _ ltac:(cbn; lia) ltac:(done)).
  apply Valid_dll. split; [|done]. unfold dll. cbn. repeat (split || eexists).
Defined.

Lemma add_task_spec fuel h self l d p dd :
  Valid h self l → (length l ≤ fuel)%nat →
  ∃ self' h' n,
    add_task fuel self d p dd h = Ok ((self', length h), h') ∧
    Valid h' self' (l ++ [length h]) ∧ heap_ext h h' ∧
    length h' = S (length h) ∧
    h' !! length h = Some n ∧
    task_of n = TaskNode_init d p dd (PStr "todo") PNone.
Proof.
  intros Hv Hf.
  destruct (alloc_add_task_node_spec fuel h self l
              (TaskNode_init d p dd (PStr "todo") PNone) Hv eq_refl eq_refl Hf)
    as (self' & h' & Hrun & Hv' & Hext & Hlen & n & Hn & Htask).
  exists self', h', n. split_and!; [|done..].
  unfold bind, alloc in Hrun. unfold add_task, bind, alloc. by rewrite Hrun.
Qed.

(** X18. The start of the application, in three cases: there is no data
    file; the data file is not JSON, so that [json.load] raises the
    JSONDecodeError that [load_data] catches; the data file holds an object
    whose "total_xp", if any, is an integer and whose "tasks", if any, is a
    list of objects with values that are None, integers or strings.  In each
    of them the data part of [App.__init__] ends with a valid container.
    Without a data file the container gets the three default tasks, in the
    order of the code, all "todo", and no XP.  With a data file it gets the
    records of the file up to the first one that lacks a field, and the
    stored XP; the default tasks are not added then, not even when the file
    holds no task or is not JSON. *)
Theorem App_init_valid fuel file h :
  (2 ≤ fuel)%nat →
  (∀ data tasks, file = Some (Some data) → data_tasks data = Some tasks →
                 (length tasks ≤ fuel)%nat) →
  ∃ self h' l,
    App_init fuel file h = Ok (self, h') ∧
    Valid h' (task_list self) l ∧ heap_ext h h' ∧
    match file with
    | None =>
        l = seq (length h) 3 ∧ total_xp self = 0 ∧
        ∃ n1 n2 n3,
          h' !! length h = Some n1 ∧
          h' !! S (length h) = Some n2 ∧
          h' !! S (S (length h)) = Some n3 ∧
          task_of n1 = TaskNode_init (PStr "Finish Data Structures Project")
                                     (PStr "high") (PStr "2025-11-20")
                                     (PStr "todo") (PInt 100) ∧
          task_of n2 = TaskNode_init (PStr "Buy Groceries") (PStr "low") PNone
                                     (PStr "todo") (PInt 20) ∧
          task_of n3 = TaskNode_init (PStr "Read Documentation") (PStr "medium") PNone
                                     (PStr "todo") (PInt 50)
    | Some None => l = [] ∧ total_xp self = 0 ∧ h' = h
    | Some (Some data) =>
        l = seq (length h)
                (length (complete_prefix (default [] (data_tasks data)))) ∧
        total_xp self = default 0 (data_total_xp data)
    end.
Proof.
  intros Hf Hlen. destruct file as [[data|]|].
  - (* the file is there and parses *)
    set (tasks := default [] (data_tasks data)).
    assert (length tasks ≤ fuel)%nat as Hft.
    { unfold tasks. destruct (data_tasks data) as [ts|] eqn:E; [|cbn; lia].
      by eapply Hlen. }
    destruct (complete_prefix_split tasks) as (rest & E & Hgood & Hrest).
    pose proof (complete_prefix_length tasks) as Hlen'.
    destruct (load_data_loop_spec fuel (complete_prefix tasks) h TaskList_init [] rest
                (Valid_empty h) Hgood ltac:(cbn; lia) Hrest)
      as (self' & h' & e & Hrun & Hv' & Hext & _).
    rewrite <- E in Hrun. cbn [app] in Hv'.
    eexists _, h', _. split.
    { unfold App_init, load_data. cbn [task_list]. fold tasks.
      rewrite (bind_ok _ _ _ _ _ (bind_ok _ _ _ _ _ Hrun)). cbv beta.
      by rewrite andb_false_r. }
    cbn [task_list total_xp fst]. by split_and!.
  - (* the file is there and does not parse *)
    exists empty_app, h, []. split; [done|].
    split_and!; [apply Valid_empty|apply heap_ext_refl|done..].
  - (* no file *)
    destruct (add_task_spec fuel h TaskList_init []
                (PStr "Finish Data Structures Project") (PStr "high") (PStr "2025-11-20")
                (Valid_empty h) ltac:(cbn; lia))
      as (self1 & h1 & n1 & Hrun1 & Hv1 & Hext1 & Hlen1 & Hn1 & Ht1).
    destruct (add_task_spec fuel h1 self1 _ (PStr "Buy Groceries") (PStr "low") PNone
                Hv1 ltac:(cbn; lia))
      as (self2 & h2 & n2 & Hrun2 & Hv2 & Hext2 & Hlen2 & Hn2 & Ht2).
    destruct (add_task_spec fuel h2 self2 _ (PStr "Read Documentation") (PStr "medium")
                PNone Hv2 ltac:(cbn; lia))
      as (self3 & h3 & n3 & Hrun3 & Hv3 & Hext3 & Hlen3 & Hn3 & Ht3).
    rewrite Hlen1 in *. rewrite Hlen2 in *.
    destruct (Hext2 _ _ Hn1) as (n1' & Hn1' & Ht1').
    destruct (Hext3 _ _ Hn1') as (n1'' & Hn1'' & Ht1'').
    destruct (Hext3 _ _ Hn2) as (n2' & Hn2' & Ht2').
    eexists {| task_list := self3; total_xp := 0 |}, h3, _. split.
    { unfold App_init. unfold bind at 1, ret at 1. cbn [task_list count TaskList_init total_xp].
      rewrite bool_decide_eq_true_2 by done. cbn [andb].
      rewrite (bind_ok _ _ _ _ _ Hrun1). cbn [fst].
      rewrite (bind_ok _ _ _ _ _ Hrun2). cbn [fst].
      by rewrite (bind_ok _ _ _ _ _ Hrun3). }
    cbn [task_list total_xp]. split; [exact Hv3|]. split.
    { exact (heap_ext_trans _ _ _ Hext1 (heap_ext_trans _ _ _ Hext2 Hext3)). }
    split; [done|]. split; [done|].
    exists n1'', n2', n3. split_and!; [done..| | |].
    + by rewrite Ht1'', Ht1', Ht1.
    + by rewrite Ht2', Ht2.
    + by rewrite Ht3.
Qed.

Lemma App_init_valid_witness :
  ∃ self h' l,
    App_init 2 None [] = Ok (self, h') ∧
    Valid h' (task_list self) l ∧ heap_ext [] h' ∧
    l = [0; 1; 2]%nat ∧ total_xp self = 0 ∧
    ∃ n1 n2 n3,
      h' !! 0%nat = Some n1 ∧ h' !! 1%nat = Some n2 ∧ h' !! 2%nat = Some n3 ∧
      task_of n1 = TaskNode_init (PStr "Finish Data Structures Project")
                                 (PStr "high") (PStr "2025-11-20")
                                 (PStr "todo") (PInt 100) ∧
      task_of n2 = TaskNode_init (PStr "Buy Groceries") (PStr "low") PNone
                                 (PStr "todo") (PInt 20) ∧
      task_of n3 = TaskNode_init (PStr "Read Documentation") (PStr "medium") PNone
                                 (PStr "todo") (PInt 50).
Proof.
  refine (App_init_valid 2 None [] ltac:(lia) _).
  intros data tasks E. discriminate E.
Defined.

(** ** The focus timer *)

Lemma ticks_app fuel plyer a b self t h self1 t1 h1 :
  ticks fuel plyer a self t h = Ok ((self1, t1), h1) →
  ticks fuel plyer (a + b) self t h = ticks fuel plyer b self1 t1 h1.
Proof.
  revert self t h. induction a as [|a IH]; intros self t h Hrun.
  - cbn in Hrun. by injection Hrun as -> -> ->.
  - cbn [ticks Nat.add] in *. unfold bind in *.
    destruct (tick fuel plyer self t h) as [[[self' t'] h']| |]; [|done..].
    by apply IH.
Qed.

(** The calls of [run_timer] while seconds are left. *)
Lemma ticks_countdown fuel plyer self h k :
  ∀ t, timer_job t = true → Z.of_nat k ≤ timer_seconds t →
       ∃ t', ticks fuel plyer k self t h = Ok ((self, t'), h) ∧
             timer_running t' = timer_running t ∧
             timer_seconds t' = timer_seconds t - Z.of_nat k ∧
             btn_start_timer t' = btn_start_timer t ∧
             timer_job t' = true ∧
             timer_label t'
             = match k with
               | O => timer_label t
               | S _ => ((timer_seconds t' + 1) / 60, (timer_seconds t' + 1) mod 60)
               end.
Proof.
  induction k as [|k IH]; intros t Hjob Hs.
  - exists t. split_and!; [done|done|lia|done..].
  - set (t1 := {| timer_running := timer_running t;
                  timer_seconds := timer_seconds t - 1;
                  timer_label := (timer_seconds t / 60, timer_seconds t mod 60);
                  btn_start_timer := btn_start_timer t;
                  timer_job := true |}).
    assert (tick fuel plyer self t h = Ok ((self, t1), h)) as Hstep.
    { unfold tick, run_timer. rewrite Hjob. cbn [timer_seconds].
      destruct (Z.ltb_spec 0 (timer_seconds t)); [done|lia]. }
    destruct (IH t1) as (t' & Hrun & Hr & Hsec & Hb & Hj & Hl); [done|cbn; lia|].
    exists t'. cbn [ticks]. rewrite (bind_ok _ _ _ _ _ Hstep). cbn [fst snd].
    split_and!; [done|done|cbn in Hsec; lia|done|done|].
    rewrite Hl. destruct k as [|k']; [|done].
    cbn [t1 timer_label]. rewrite Hsec. cbn [t1 timer_seconds].
    by replace (timer_seconds t - 1 - Z.of_nat 0 + 1) with (timer_seconds t) by lia.
Qed.

(** X19. The focus timer: a press on Start while no timer runs sets 25
    minutes and shows 25:00; each scheduled call of [run_timer] takes one
    second off, so that after [k] of them, for [k] up to 1499, the label
    shows the minutes and seconds of [1500 - k], the timer still runs and
    no XP has been given.  A press on Start while the timer runs changes
    nothing.  The call after that ends the timer.  With plyer it shows
    00:00, enables the button again and gives 10 XP, once, and no call is
    scheduled any more.  Without plyer the stand-in that the module defines
    for [notification] has no [notify]: the call raises AttributeError
    before the XP is added, and no XP is given. *)
Theorem pomodoro_countdown fuel plyer h self l t k :
  Valid h (task_list self) l → swept h l → (length l < fuel)%nat →
  timer_running t = false → timer_job t = false → (k ≤ 1499)%nat →
  (∃ t',
     (r <- start_pomodoro fuel plyer self t ;; ticks fuel plyer k (fst r) (snd r)) h
       = Ok ((self, t'), h) ∧
     timer_running t' = true ∧ btn_start_timer t' = false ∧ timer_job t' = true ∧
     timer_seconds t' = 1499 - Z.of_nat k ∧
     timer_label t' = ((1500 - Z.of_nat k) / 60, (1500 - Z.of_nat k) mod 60) ∧
     start_pomodoro fuel plyer self t' h = Ok ((self, t'), h)) ∧
  ∀ more,
    (r <- start_pomodoro fuel plyer self t ;;
     ticks fuel plyer (1500 + more) (fst r) (snd r)) h
    = if plyer then
        Ok (({| task_list := task_list self; total_xp := total_xp self + 10 |},
             {| timer_running := false; timer_seconds := 0; timer_label := (0, 0);
                btn_start_timer := true; timer_job := false |}), h)
      else Raise AttributeError.
Proof.
  intros Hv Hsw Hf Hrun Hjob Hk.
  set (t1 := {| timer_running := true; timer_seconds := 1499; timer_label := (25, 0);
                btn_start_timer := false; timer_job := true |}).
  assert (start_pomodoro fuel plyer self t h = Ok ((self, t1), h)) as Hstart.
  { unfold start_pomodoro. by rewrite Hrun. }
  split.
  - destruct (ticks_countdown fuel plyer self h k t1)
      as (t' & Hticks & Hr & Hs & Hb & Hj & Hl); [done|cbn; lia|].
    cbn [t1 timer_running timer_seconds btn_start_timer timer_label] in *.
    exists t'. rewrite (bind_ok _ _ _ _ _ Hstart). cbn [fst snd].
    split_and!; [done..| |].
    + rewrite Hl. destruct k as [|k']; [done|]. rewrite Hs.
      by replace (1499 - Z.of_nat (S k') + 1) with (1500 - Z.of_nat (S k')) by lia.
    + unfold start_pomodoro. by rewrite Hr.
  - intros more.
    destruct (ticks_countdown fuel plyer self h 1499 t1)
      as (t' & Hticks & Hr & Hs & Hb & Hj & Hl); [done|cbn; lia|].
    cbn [t1 timer_running timer_seconds btn_start_timer timer_label] in *.
    rewrite (bind_ok _ _ _ _ _ Hstart). cbn [fst snd].
    change (1500 + more)%nat with (1499 + S more)%nat.
    rewrite (ticks_app _ _ _ _ _ _ _ _ _ _ Hticks). cbn [ticks].
    destruct plyer.
    + set (t2 := {| timer_running := false; timer_seconds := 0; timer_label := (0, 0);
                    btn_start_timer := true; timer_job := false |}).
      set (self2 := {| task_list := task_list self; total_xp := total_xp self + 10 |}).
      assert (tick fuel true self t' h = Ok ((self2, t2), h)) as Hend.
      { unfold tick, run_timer. rewrite Hj. cbn [timer_seconds]. rewrite Hs.
        change (0 <? 1499 - Z.of_nat 1499) with false. cbv iota.
        unfold notify. unfold bind at 1, ret at 1.
        rewrite (bind_ok _ _ _ _ _
                   (refresh_ui_swept fuel h
                      {| task_list := task_list self; total_xp := total_xp self + 10 |}
                      l 0 Hv Hsw Hf)).
        unfold ret, self2, t2. cbn [task_list total_xp timer_job].
        change (1499 - Z.of_nat 1499) with 0.
        by replace (total_xp self + 10 + Z.max 0 0) with (total_xp self + 10) by lia. }
      assert (∀ m, ticks fuel true m self2 t2 h = Ok ((self2, t2), h)) as Hidle.
      { induction m as [|m IH]; [done|]. cbn [ticks]. unfold tick at 1.
        cbn [t2 timer_job]. unfold bind, ret. cbn [fst snd]. exact IH. }
      rewrite (bind_ok _ _ _ _ _ Hend). cbn [fst snd]. apply Hidle.
    + assert (tick fuel false self t' h = Raise AttributeError) as Hend.
      { unfold tick, run_timer. rewrite Hj. cbn [timer_seconds]. rewrite Hs.
        change (0 <? 1499 - Z.of_nat 1499) with false. done. }
      unfold bind. by rewrite Hend.
Qed.

Lemma pomodoro_countdown_witness :
  (∃ t',
     (r <- start_pomodoro 4 false ex_app Timer_init ;;
      ticks 4 false 61 (fst r) (snd r)) ex_heap
       = Ok ((ex_app, t'), ex_heap) ∧
     timer_running t' = true ∧ btn_start_timer t' = false ∧ timer_job t' = true ∧
     timer_seconds t' = 1499 - Z.of_nat 61 ∧
     timer_label t' = ((1500 - Z.of_nat 61) / 60, (1500 - Z.of_nat 61) mod 60) ∧
     start_pomodoro 4 false ex_app t' ex_heap = Ok ((ex_app, t'), ex_heap)) ∧
  (∀ more,
     (r <- start_pomodoro 4 false ex_app Timer_init ;;
      ticks 4 false (1500 + more) (fst r) (snd r)) ex_heap
     = Raise AttributeError) ∧
  (∀ more,
     (r <- start_pomodoro 4 true ex_app Timer_init ;;
      ticks 4 true (1500 + more) (fst r) (snd r)) ex_heap
     = Ok (({| task_list := ex_list; total_xp := 0 + 10 |},
            {| timer_running := false; timer_seconds := 0; timer_label := (0, 0);
               btn_start_timer := true; timer_job := false |}), ex_heap)).
Proof.
  pose proof (pomodoro_countdown 4 false ex_heap ex_app [0; 1; 2]%nat Timer_init 61
                ex_valid ex_swept ltac:(cbn; lia) eq_refl eq_refl ltac:(lia)) as [H1 H2].
  pose proof (pomodoro_countdown 4 true ex_heap ex_app [0; 1; 2]%nat Timer_init 61
                ex_valid ex_swept ltac:(cbn; lia) eq_refl eq_refl ltac:(lia)) as [_ H3].
  exact (conj H1 (conj H2 H3)).
Defined.

(** ** The merge of two sorted lists *)

(** X20. [_merge] on two lists with no node in common, at least one of
    them not empty, each of them in the order of the key: the result is one
    list with the nodes of both, in the order of the key, and it is the
    merge that takes the node of the left list whenever that node may go
    first, so that on equal keys the left nodes come first.  No task
    changes. *)
Theorem merge_of_sorted_lists key fuel h left right l1 l2 :
  dll h left l1 → dll h right l2 →
  (∀ x, x ∈ l1 → x ∉ l2) →
  (key = "due_date"%string → ∀ a n, a ∈ l1 ++ l2 → h !! a = Some n → dated n) →
  (0 < length l1 + length l2 ≤ fuel)%nat →
  Sorted (goes_first (key_le key h)) l1 → Sorted (goes_first (key_le key h)) l2 →
  ∃ hd' h' l',
    _merge fuel left right key h = Ok (hd', h') ∧
    dll h' hd' l' ∧
    l' = list_merge (goes_first (key_le key h)) l1 l2 ∧
    l' ≡ₚ l1 ++ l2 ∧
    StronglySorted (goes_first (key_le key h)) l' ∧
    heap_ext h h'.
Proof.
  intros H1 H2 Hdis Hdated Hf Hs1 Hs2.
  destruct (_merge_spec key (key_le key h) fuel h left right l1 l2 None None Hf H1 H2 Hdis)
    as (h' & hd' & Hrun & Hd' & Hext & _).
  { apply keyed_key_le. intros a Ha.
    assert (is_Some (h !! a)) as [n Hn].
    { apply elem_of_app in Ha as [Ha|Ha];
        [exact (dlseg_is_Some _ _ _ _ _ _ H1 Ha)|exact (dlseg_is_Some _ _ _ _ _ _ H2 Ha)]. }
    exists n. split; [done|]. intros Hk. by eapply Hdated. }
  exists hd', h', (list_merge (goes_first (key_le key h)) l1 l2).
  split_and!; [done|done|done|apply merge_Permutation| |done].
  apply Sorted_StronglySorted; [apply _|]. by apply Sorted_list_merge; [apply _|..].
Qed.

Lemma merge_of_sorted_lists_witness :
  ∃ hd' h' l',
    _merge 3 (Some 0%nat) (Some 1%nat) "priority" merge_heap = Ok (hd', h') ∧
    dll h' hd' l' ∧
    l' = [0; 1; 2]%nat ∧
    l' ≡ₚ ([0; 2] ++ [1])%nat ∧
    StronglySorted (goes_first (key_le "priority" merge_heap)) l' ∧
    heap_ext merge_heap h'.
Proof.
  refine (merge_of_sorted_lists "priority" 3 merge_heap (Some 0%nat) (Some 1%nat)
            [0; 2]%nat [1%nat] _ _ _ _ ltac:(cbn; lia) _ _).
  - unfold dll. cbn. repeat (split || eexists).
  - unfold dll. cbn. repeat (split || eexists).
  - intros x Hx Hx1. apply list_elem_of_singleton in Hx1 as ->.
    repeat (apply elem_of_cons in Hx as [Hx|Hx]; [discriminate Hx|]).
    by apply elem_of_nil in Hx.
  - intros E. discriminate E.
  - repeat constructor.
  - repeat constructor.
Defined.
